(** * Karbon [ai_engine.py]: a shallow embedding and its verified properties

    The module under study turns a natural-language request into one inlined
    HTML document: it asks a hosted text-completion service for a JSON reply,
    scrapes the JSON out of the reply ([extract_json]), splices the CSS and
    the JavaScript into the HTML ([generate_code_from_prompt]) and keeps a
    process-wide status value up to date ([set_ai_status]).  A second entry
    point ([optimize_prompt]) rewrites prompts that are too vague.

    Layout of this file:
    - [PyStr]   Python [str] as a sequence of code points, with the methods
                the module calls ([strip], [startswith], [replace], ...);
    - [Json]    the values and the decoder behind [json.loads];
    - [Engine]  the functions of [ai_engine.py], effects made explicit: a
                computation takes the world (the shared status value and a
                trace of what was done) and returns it changed;
    - what is needed to state the properties (reading a trace, the
      transitions of the status, concrete services to run the model on);
    - the properties: what each block of the code does, the claims about
      the module, and the two facts about the decoder they rest on (it
      reads a value without looking past it, and its fuel always
      suffices). *)

From Stdlib Require Import List NArith ZArith Ascii Bool Arith Lia.
From Stdlib Require String.
Import ListNotations String.StringSyntax.
Local Open Scope string_scope.
Local Open Scope list_scope.

Set Implicit Arguments.
Set Warnings "-register-all".

(* ------------------------------------------------------------------ *)
(** ** Python strings *)
(* ------------------------------------------------------------------ *)

Module PyStr.

(** A Python [str] is a sequence of Unicode code points. *)
Definition pystr : Type := list N.

Definition ord (a : ascii) : N := N_of_ascii a.

(** [py "..."] is the Python literal with the same (ASCII) text. *)
Definition py (s : String.string) : pystr :=
  map ord (String.list_ascii_of_string s).

(** The double quote and the line feed cannot be written inside the
    literals above. *)
Definition dq : N := 34.
Definition bs : N := 92.
Definition nl : pystr := [10%N].
Definition quoted (s : pystr) : pystr := dq :: s ++ [dq].

Definition is_ch (a : ascii) (c : N) : bool := N.eqb c (ord a).

Definition str_eqb (a b : pystr) : bool :=
  if list_eq_dec N.eq_dec a b then true else false.

(** [str.isspace] per code point: the characters removed by [str.strip()]. *)
Definition is_space (c : N) : bool :=
  ((9 <=? c) && (c <=? 13) || (28 <=? c) && (c <=? 32)
   || (c =? 133) || (c =? 160) || (c =? 5760)
   || (8192 <=? c) && (c <=? 8202)
   || (c =? 8232) || (c =? 8233) || (c =? 8239) || (c =? 8287)
   || (c =? 12288))%N.

Fixpoint dropwhile (p : N -> bool) (s : pystr) : pystr :=
  match s with
  | [] => []
  | c :: t => if p c then dropwhile p t else s
  end.

Definition lstrip (s : pystr) : pystr := dropwhile is_space s.
Definition rstrip (s : pystr) : pystr := rev (dropwhile is_space (rev s)).

(** [s.strip()] *)
Definition strip (s : pystr) : pystr := lstrip (rstrip s).

(** [s.startswith(p)] *)
Fixpoint startswith (p s : pystr) : bool :=
  match p, s with
  | [], _ => true
  | a :: p', b :: s' => N.eqb a b && startswith p' s'
  | _ :: _, [] => false
  end.

(** [s.endswith(p)] *)
Definition endswith (p s : pystr) : bool := startswith (rev p) (rev s).

(** [s[n:]] and [s[:-n]] for [0 < n]. *)
Definition slice_from (n : nat) (s : pystr) : pystr := skipn n s.
Definition slice_to_neg (n : nat) (s : pystr) : pystr :=
  firstn (length s - n) s.

(** [s.replace(old, new)]: every non-overlapping occurrence of [old], found
    from left to right, is replaced.  [skip] counts the characters of a
    match that are still to be passed over. *)
Fixpoint replace_from (old new : pystr) (skip : nat) (s : pystr) : pystr :=
  match s with
  | [] => []
  | c :: t =>
      match skip with
      | S k => replace_from old new k t
      | O =>
          if startswith old s
          then new ++ replace_from old new (length old - 1) t
          else c :: replace_from old new 0 t
      end
  end.

Definition replace (old new s : pystr) : pystr :=
  match old with
  | [] => new ++ flat_map (fun c => c :: new) s
  | _ :: _ => replace_from old new 0 s
  end.

(** [re.search(r'\{.*\}', s, re.DOTALL)]: with DOTALL the dot matches every
    character, so the leftmost match starts at the first opening brace and,
    the star being greedy, ends at the last closing brace after it. *)
Definition re_search_braces (s : pystr) : option pystr :=
  match dropwhile (fun c => negb (is_ch "{" c)) s with
  | [] => None
  | b :: t =>
      match dropwhile (fun c => negb (is_ch "}" c)) (rev t) with
      | [] => None
      | r => Some (b :: rev r)
      end
  end.

(** [str.lower()] on ASCII text. *)
Definition ascii_lower (c : N) : N :=
  if ((65 <=? c) && (c <=? 90))%N then (c + 32)%N else c.

Definition is_ascii (s : pystr) : bool := forallb (fun c => (c <? 128)%N) s.

(** ["sep".join(parts)] *)
Fixpoint join (sep : pystr) (parts : list pystr) : pystr :=
  match parts with
  | [] => []
  | [p] => p
  | p :: rest => p ++ sep ++ join sep rest
  end.

End PyStr.

Import PyStr.

(* ------------------------------------------------------------------ *)
(** ** JSON values and the decoder behind [json.loads] *)
(* ------------------------------------------------------------------ *)

Module Json.

Local Open Scope N_scope.

(** A Python [float] read from a JSON number keeps its exact decimal text:
    sign, digits of the mantissa and power of ten. *)
Inductive pyfloat : Type :=
| FDec (neg : bool) (mant : N) (exp10 : Z)
| FInf (neg : bool)
| FNaN.

(** The Python values [json.loads] builds.  [JNull] is Python's [None]; a
    [dict] keeps its keys in insertion order. *)
Inductive json : Type :=
| JNull
| JBool (b : bool)
| JInt (z : Z)
| JFloat (f : pyfloat)
| JStr (s : pystr)
| JList (l : list json)
| JDict (d : list (pystr * json)).

(** Outcome of a scanning function: a value and the text that follows it, a
    decoding error, or not enough fuel. *)
Inductive scan (A : Type) : Type :=
| Ok (v : A) (rest : pystr)
| Fail
| OutOfFuel.
Arguments Fail {A}.
Arguments OutOfFuel {A}.

(** [d[k] = v] *)
Fixpoint dict_set (k : pystr) (v : json) (d : list (pystr * json))
  : list (pystr * json) :=
  match d with
  | [] => [(k, v)]
  | (k', v') :: d' =>
      if str_eqb k k' then (k', v) :: d' else (k', v') :: dict_set k v d'
  end.

(** [dict(pairs)] *)
Definition py_dict (pairs : list (pystr * json)) : list (pystr * json) :=
  fold_left (fun d kv => dict_set (fst kv) (snd kv) d) pairs [].

(** [d.get(k)] *)
Fixpoint dict_get (k : pystr) (d : list (pystr * json)) : option json :=
  match d with
  | [] => None
  | (k', v) :: d' => if str_eqb k k' then Some v else dict_get k d'
  end.

(** The decoder's own whitespace: space, tab, line feed, carriage return. *)
Definition is_ws (c : N) : bool :=
  ((c =? 32) || (c =? 9) || (c =? 10) || (c =? 13))%N.

Definition skip_ws (s : pystr) : pystr := dropwhile is_ws s.

Definition is_digit (c : N) : bool := ((48 <=? c) && (c <=? 57))%N.

Fixpoint span_digits (s : pystr) : pystr * pystr :=
  match s with
  | [] => ([], [])
  | c :: t =>
      if is_digit c
      then let (ds, r) := span_digits t in (c :: ds, r)
      else ([], s)
  end.

Definition digits_value (ds : pystr) : N :=
  fold_left (fun acc c => (acc * 10 + (c - 48))%N) ds 0%N.

Definition hex_value (c : N) : option N :=
  if is_digit c then Some (c - 48)%N
  else if ((97 <=? c) && (c <=? 102))%N then Some (c - 87)%N
  else if ((65 <=? c) && (c <=? 70))%N then Some (c - 55)%N
  else None.

Definition hex4 (a b c d : N) : option N :=
  match hex_value a, hex_value b, hex_value c, hex_value d with
  | Some x, Some y, Some z, Some w => Some (((x * 16 + y) * 16 + z) * 16 + w)%N
  | _, _, _, _ => None
  end.

(** One-character escapes after a backslash. *)
Definition backslash (c : N) : option N :=
  if c =? dq then Some dq
  else if c =? bs then Some bs
  else if is_ch "/" c then Some (ord "/")
  else if is_ch "b" c then Some 8
  else if is_ch "f" c then Some 12
  else if is_ch "n" c then Some 10
  else if is_ch "r" c then Some 13
  else if is_ch "t" c then Some 9
  else None.

Definition is_high_surrogate (u : N) : bool := ((55296 <=? u) && (u <=? 56319))%N.
Definition is_low_surrogate (u : N) : bool := ((56320 <=? u) && (u <=? 57343))%N.
Definition join_surrogates (hi lo : N) : N :=
  (65536 + ((hi - 55296) * 1024 + (lo - 56320)))%N.

(** [scanstring] in strict mode, started after the opening quote.  [acc]
    holds the decoded characters, last first.  [hi] tells that the
    character just decoded is a high surrogate written as a [\u] escape: a
    low surrogate written as the very next [\u] escape joins it, which is
    how the decoder pairs surrogates. *)
Fixpoint scanstring (s : pystr) (acc : pystr) (hi : bool)
  : option (pystr * pystr) :=
  match s with
  | [] => None
  | c :: t =>
      if c =? dq then Some (rev acc, t)
      else if c =? bs then
        match t with
        | [] => None
        | e :: t1 =>
            if is_ch "u" e then
              match t1 with
              | h1 :: h2 :: h3 :: h4 :: t2 =>
                  match hex4 h1 h2 h3 h4 with
                  | None => None
                  | Some u =>
                      match acc with
                      | h :: acc' =>
                          if hi && is_low_surrogate u
                          then scanstring t2 (join_surrogates h u :: acc') false
                          else scanstring t2 (u :: acc) (is_high_surrogate u)
                      | [] => scanstring t2 (u :: acc) (is_high_surrogate u)
                      end
                  end
              | _ => None
              end
            else
              match backslash e with
              | Some ch => scanstring t1 (ch :: acc) false
              | None => None
              end
        end
      else if c <=? 31 then None
      else scanstring t (c :: acc) false
  end.

(** The number at the start of [s], as the decoder's pattern matches it: an
    optional minus sign; a single zero, or a non-zero digit and every digit
    that follows; a fraction if a dot is followed by a digit; an exponent
    if [e] or [E] and an optional sign are followed by a digit. *)
Definition match_int_part (s : pystr) : option (pystr * pystr) :=
  match s with
  | [] => None
  | c :: t =>
      if is_ch "0" c then Some ([c], t)
      else if is_digit c then let (ds, r) := span_digits t in Some (c :: ds, r)
      else None
  end.

Definition match_frac (s : pystr) : option pystr * pystr :=
  match s with
  | d :: f :: t =>
      if is_ch "." d && is_digit f
      then let (fs, r) := span_digits t in (Some (f :: fs), r)
      else (None, s)
  | _ => (None, s)
  end.

Definition match_exp (s : pystr) : option (bool * pystr) * pystr :=
  match s with
  | e :: t =>
      if is_ch "e" e || is_ch "E" e then
        let (sgn, t') :=
          match t with
          | g :: u =>
              if is_ch "-" g then (true, u)
              else if is_ch "+" g then (false, u)
              else (false, t)
          | [] => (false, t)
          end in
        match span_digits t' with
        | ([], _) => (None, s)
        | (es, r) => (Some (sgn, es), r)
        end
      else (None, s)
  | [] => (None, s)
  end.

Definition number_value (neg : bool) (ids : pystr) (frac : option pystr)
    (exp : option (bool * pystr)) : json :=
  match frac, exp with
  | None, None =>
      let n := Z.of_N (digits_value ids) in JInt (if neg then - n else n)%Z
  | _, _ =>
      let fs := match frac with Some fs => fs | None => [] end in
      let e := match exp with
               | Some (sgn, es) =>
                   let n := Z.of_N (digits_value es) in
                   (if sgn then - n else n)%Z
               | None => 0%Z
               end in
      JFloat (FDec neg (digits_value (ids ++ fs)) (e - Z.of_nat (length fs)))
  end.

Definition match_number (s : pystr) : option (json * pystr) :=
  let (neg, s1) :=
    match s with
    | c :: t => if is_ch "-" c then (true, t) else (false, s)
    | [] => (false, s)
    end in
  match match_int_part s1 with
  | None => None
  | Some (ids, r1) =>
      let (frac, r2) := match_frac r1 in
      let (exp, r3) := match_exp r2 in
      Some (number_value neg ids frac exp, r3)
  end.

(** The constants the scanner reads letter by letter. *)
Definition match_constant (s : pystr) : option (json * pystr) :=
  if startswith (py "null") s then Some (JNull, skipn 4 s)
  else if startswith (py "true") s then Some (JBool true, skipn 4 s)
  else if startswith (py "false") s then Some (JBool false, skipn 5 s)
  else if startswith (py "NaN") s then Some (JFloat FNaN, skipn 3 s)
  else if startswith (py "Infinity") s then Some (JFloat (FInf false), skipn 8 s)
  else if startswith (py "-Infinity") s then Some (JFloat (FInf true), skipn 9 s)
  else None.

(** [scan_once], [JSONObject] and [JSONArray] of the decoder.  The object
    loop starts after the opening quote of a key, the array loop at the
    start of an element.  The three call each other, so they recurse on a
    fuel; [decoder_ends] below shows that [fuel_for] is always enough.
    The limits of the interpreter (recursion depth, digits of an integer)
    are not part of the model. *)
Fixpoint scan_once (fuel : nat) (s : pystr) : scan json :=
  match fuel with
  | O => OutOfFuel
  | S n =>
      match s with
      | [] => Fail
      | c :: t =>
          if c =? dq then
            match scanstring t [] false with
            | Some (str, r) => Ok (JStr str) r
            | None => Fail
            end
          else if is_ch "{" c then
            match skip_ws t with
            | q :: r =>
                if is_ch "}" q then Ok (JDict []) r
                else if q =? dq then object_loop n r []
                else Fail
            | [] => Fail
            end
          else if is_ch "[" c then
            match skip_ws t with
            | q :: r =>
                if is_ch "]" q then Ok (JList []) r
                else array_loop n (q :: r) []
            | [] => Fail
            end
          else
            match match_constant s with
            | Some (v, r) => Ok v r
            | None =>
                match match_number s with
                | Some (v, r) => Ok v r
                | None => Fail
                end
            end
      end
  end

with object_loop (fuel : nat) (s : pystr) (pairs : list (pystr * json))
  : scan json :=
  match fuel with
  | O => OutOfFuel
  | S n =>
      match scanstring s [] false with
      | None => Fail
      | Some (key, r) =>
          match skip_ws r with
          | c :: r1 =>
              if is_ch ":" c then
                match scan_once n (skip_ws r1) with
                | Ok v r2 =>
                    match skip_ws r2 with
                    | c2 :: r3 =>
                        if is_ch "}" c2
                        then Ok (JDict (py_dict (rev ((key, v) :: pairs)))) r3
                        else if is_ch "," c2 then
                          match skip_ws r3 with
                          | q :: r4 =>
                              if q =? dq
                              then object_loop n r4 ((key, v) :: pairs)
                              else Fail
                          | [] => Fail
                          end
                        else Fail
                    | [] => Fail
                    end
                | Fail => Fail
                | OutOfFuel => OutOfFuel
                end
              else Fail
          | [] => Fail
          end
      end
  end

with array_loop (fuel : nat) (s : pystr) (acc : list json) : scan json :=
  match fuel with
  | O => OutOfFuel
  | S n =>
      match scan_once n s with
      | Ok v r =>
          match skip_ws r with
          | c :: r1 =>
              if is_ch "]" c then Ok (JList (rev (v :: acc))) r1
              else if is_ch "," c then array_loop n (skip_ws r1) (v :: acc)
              else Fail
          | [] => Fail
          end
      | Fail => Fail
      | OutOfFuel => OutOfFuel
      end
  end.

(** Fuel that always suffices for a text of this length. *)
Definition fuel_for (s : pystr) : nat := S (2 * length s)%nat.

(** [json.loads(s)]: leading whitespace, one value, trailing whitespace and
    nothing else.  [None] stands for [JSONDecodeError]. *)
Definition json_loads (s : pystr) : option json :=
  let s1 := skip_ws s in
  match scan_once (fuel_for s1) s1 with
  | Ok v r => match skip_ws r with [] => Some v | _ :: _ => None end
  | Fail => None
  | OutOfFuel => None
  end.

End Json.

Import Json.

(* ------------------------------------------------------------------ *)
(** ** The module [ai_engine.py] *)
(* ------------------------------------------------------------------ *)

(** What the module takes from the Python runtime without owning it:
    [str(v)] for a value [v] that is not a string (used by the f-strings),
    [str.lower()] on text with characters outside ASCII (the Unicode
    tables), and the text of the [JSONDecodeError] raised on a given
    input (used in log records only). *)
Record runtime : Type := {
  py_str : json -> pystr;
  unicode_lower : pystr -> pystr;
  decode_error_text : pystr -> pystr
}.

(** An exception raised by the remote client: whether it is a
    [requests.exceptions.RequestException], and its text [str(e)]. *)
Record exn : Type := {
  is_request_exception : bool;
  exn_text : pystr
}.

(** What a completion call gives: an exception, or the reply text. *)
Inductive reply : Type :=
| Raises (e : exn)
| Text (response : pystr).

(** The remote service is a black box.  [init_client] is the outcome of
    [genai.configure] and [genai.GenerativeModel] for a credential;
    [generate_content n p] is the outcome of the completion call made with
    prompt [p] after [n] earlier completion calls. *)
Record service : Type := {
  init_client : option pystr -> option exn;
  generate_content : nat -> pystr -> reply
}.

(** The five state names the module writes into [ai_status]. *)
Inductive state : Type := connecting | generating | online | offline | error.

Definition state_name (s : state) : pystr :=
  match s with
  | connecting => py "connecting"
  | generating => py "generating"
  | online => py "online"
  | offline => py "offline"
  | error => py "error"
  end.

(** The dictionary [ai_status]. *)
Record status : Type := {
  st_state : state;
  st_message : pystr
}.

Inductive level : Type := INFO | ERROR.

(** What the module does to the world, in the order it does it. *)
Inductive event : Type :=
| EStatus (s : status)
| ELog (l : level) (msg : pystr)
| EPrint (msg : pystr)
| EInit (api_key : option pystr)
| EGenerate (prompt : pystr)
| ESleep (seconds : Z).

(** The shared status value, the number of completion calls made so far,
    and the trace of effects. *)
Record world : Type := {
  ai_status : status;
  calls : nat;
  events : list event
}.

(** The value [ai_status] has when the module is loaded. *)
Definition initial_world : world :=
  {| ai_status := {| st_state := connecting;
                     st_message := py "Connecting to AI service..." |};
     calls := 0;
     events := [] |}.

(** Computations that read and change the world. *)
Definition M (A : Type) : Type := world -> A * world.

Definition ret {A} (a : A) : M A := fun w => (a, w).

Definition bind {A B} (m : M A) (k : A -> M B) : M B :=
  fun w => let (a, w') := m w in k a w'.

Notation "x <- m ;; k" := (bind m (fun x => k))
  (at level 61, m at next level, right associativity).
Notation "m ;; k" := (bind m (fun _ => k))
  (at level 61, right associativity).

Definition emit (e : event) : M unit :=
  fun w => (tt, {| ai_status := ai_status w; calls := calls w;
                   events := events w ++ [e] |}).

Fixpoint emit_all (es : list event) : M unit :=
  match es with
  | [] => ret tt
  | e :: es' => emit e ;; emit_all es'
  end.

Definition logging (l : level) (msg : pystr) : M unit := emit (ELog l msg).

Definition print (msg : pystr) : M unit := emit (EPrint msg).

Definition write_status (s : status) : M unit :=
  fun w => (tt, {| ai_status := s; calls := calls w;
                   events := events w ++ [EStatus s] |}).

Definition sleep (seconds : Z) : M unit := emit (ESleep seconds).

Section Engine.

Context (rt : runtime) (svc : service).

(** [f"{v}"] *)
Definition fmt (v : json) : pystr :=
  match v with
  | JStr s => s
  | _ => py_str rt v
  end.

Definition py_lower (s : pystr) : pystr :=
  if is_ascii s then map ascii_lower s else unicode_lower rt s.

Definition configure_and_load (api_key : option pystr) : M (option exn) :=
  emit (EInit api_key) ;; ret (init_client svc api_key).

Definition call_generate (prompt : pystr) : M reply :=
  fun w => (generate_content svc (calls w) prompt,
            {| ai_status := ai_status w; calls := S (calls w);
               events := events w ++ [EGenerate prompt] |}).

(** [set_ai_status] *)
Definition set_ai_status (st : state) (message : pystr) : M unit :=
  write_status {| st_state := st; st_message := message |} ;;
  logging INFO (py "AI Status Updated: " ++ state_name st ++ py " - " ++ message).

(** Lines 23 to 27 of [extract_json]. *)
Definition clean (response : pystr) : pystr :=
  let c := strip response in
  let c := if startswith (py "```json") c
           then strip (slice_from (length (py "```json")) c) else c in
  if endswith (py "```") c
  then strip (slice_to_neg (length (py "```")) c) else c.

(** [extract_json], with the log records it writes.  [JNull] is the
    [None] it returns. *)
Definition extract_json_run (response : pystr) : list event * json :=
  let clean_response := clean response in
  match json_loads clean_response with
  | Some parsed_json => ([], parsed_json)
  | None =>
      let l1 := ELog ERROR (py "JSONDecodeError on cleaned string: "
                            ++ decode_error_text rt clean_response
                            ++ py " - Cleaned: " ++ clean_response) in
      match re_search_braces clean_response with
      | Some group0 =>
          match json_loads group0 with
          | Some v => ([l1], v)
          | None =>
              ([l1; ELog ERROR (py "JSONDecodeError during regex extraction: "
                                ++ decode_error_text rt group0
                                ++ py " - Substring: " ++ group0)], JNull)
          end
      | None =>
          ([l1; ELog ERROR
                  (py "No valid JSON object found in response after cleaning: "
                   ++ response)], JNull)
      end
  end.

Definition extract_json (response : pystr) : json :=
  snd (extract_json_run response).

(** Python's truth value of a float read from decimal text: the text is
    rounded to the nearest double, so it is zero when its mantissa is zero
    or its magnitude is at most half the smallest subnormal, [2^-1075]. *)
Definition float_is_zero (f : pyfloat) : bool :=
  match f with
  | FDec _ m e =>
      (m =? 0)%N || ((e <? 0)%Z && (m * 2 ^ 1075 <=? 10 ^ Z.to_N (- e))%N)
  | FInf _ => false
  | FNaN => false
  end.

(** [bool(v)] *)
Definition py_truthy (v : json) : bool :=
  match v with
  | JNull => false
  | JBool b => b
  | JInt z => negb (z =? 0)%Z
  | JFloat f => negb (float_is_zero f)
  | JStr s => match s with [] => false | _ => true end
  | JList l => match l with [] => false | _ => true end
  | JDict d => match d with [] => false | _ => true end
  end.

(** [type(v).__name__] *)
Definition type_name (v : json) : pystr :=
  match v with
  | JNull => py "NoneType"
  | JBool _ => py "bool"
  | JInt _ => py "int"
  | JFloat _ => py "float"
  | JStr _ => py "str"
  | JList _ => py "list"
  | JDict _ => py "dict"
  end.

(** The [AttributeError] of [v.attr] for a value without that attribute. *)
Definition attribute_error (v : json) (attr : pystr) : exn :=
  {| is_request_exception := false;
     exn_text := py "'" ++ type_name v ++ py "' object has no attribute '"
                 ++ attr ++ py "'" |}.

(** [d.get(k, "")] *)
Definition get_or_empty (k : pystr) (d : list (pystr * json)) : json :=
  match dict_get k d with
  | Some v => v
  | None => JStr []
  end.

(** Lines 84 to 89: the three lookups and the two replacements.  Only a
    [dict] has [get] and only a [str] has [replace]. *)
Definition splice (parsed : json) : exn + pystr :=
  match parsed with
  | JDict d =>
      let html := get_or_empty (py "html") d in
      let css := get_or_empty (py "css") d in
      let js := get_or_empty (py "js") d in
      match html with
      | JStr h =>
          inr (replace (py "</body>")
                       (py "<script>" ++ fmt js ++ py "</script></body>")
                 (replace (py "</head>")
                          (py "<style>" ++ fmt css ++ py "</style></head>") h))
      | _ => inl (attribute_error html (py "replace"))
      end
  | _ => inl (attribute_error parsed (py "get"))
  end.

Definition unavailable_doc : pystr :=
  py "<!DOCTYPE html><html><head><title>Error</title><style></style></head><body><h1>AI service is currently unavailable.</h1></body></html>".

Definition could_not_parse_doc : pystr :=
  py "<!DOCTYPE html><html><head><title>Error</title><style></style></head><body><h1>Could not parse AI response.</h1><script></script></body></html>".

(** The instruction sent to the service. *)
Definition format_prompt (prompt : pystr) : pystr :=
  py "You are a helpful assistant that writes complete frontend apps." ++ nl
  ++ py "Given the task: " ++ quoted prompt ++ nl
  ++ py "Respond ONLY in this JSON format, with no additional text, markdown, or explanation before or after the JSON:" ++ nl
  ++ py "{" ++ nl
  ++ py "  " ++ quoted (py "html") ++ py ": " ++ quoted (py "<html>...</html>") ++ py "," ++ nl
  ++ py "  " ++ quoted (py "css") ++ py ": " ++ quoted (py "body { ... }") ++ py "," ++ nl
  ++ py "  " ++ quoted (py "js") ++ py ": " ++ quoted (py "document.addEventListener(...)") ++ py "," ++ nl
  ++ py "  " ++ quoted (py "name") ++ py ": " ++ quoted (py "App Name") ++ nl
  ++ py "}".

(** How one pass through the [try] block of the loop ends. *)
Inductive outcome : Type :=
| Returned (doc : pystr)
| Raised (e : exn).

(** Lines 76 to 93: what is done with the reply text. *)
Definition use_reply (response : pystr) : M outcome :=
  logging INFO (py "Raw AI response: " ++ response) ;;
  let (records, parsed) := extract_json_run response in
  emit_all records ;;
  logging INFO (py "Parsed JSON: " ++ fmt parsed) ;;
  if negb (py_truthy parsed) then
    set_ai_status error (py "Could not parse AI response.") ;;
    ret (Returned could_not_parse_doc)
  else
    set_ai_status online (py "AI service is online.") ;;
    match splice parsed with
    | inl e => ret (Raised e)
    | inr final_code =>
        logging INFO (py "Final inlined HTML code (first 500 chars): "
                      ++ firstn 500 final_code ++ py "...") ;;
        ret (Returned final_code)
    end.

(** Lines 70 to 93: the [try] block. *)
Definition try_block (formatted : pystr) : M outcome :=
  set_ai_status generating (py "Generating code...") ;;
  r <- call_generate formatted ;;
  match r with
  | Raises e => ret (Raised e)
  | Text response => use_reply response
  end.

(** Lines 94 to 101: the two [except] clauses. *)
Definition except_clause (e : exn) : M unit :=
  if is_request_exception e then
    set_ai_status offline (py "Network error, AI service is offline.") ;;
    logging ERROR (py "AI API network error: " ++ exn_text e)
  else
    set_ai_status error (py "AI service error: " ++ exn_text e) ;;
    logging ERROR (py "AI API error: " ++ exn_text e).

(** [f"{last_exception}"] *)
Definition fmt_exception (last_exception : option exn) : pystr :=
  match last_exception with
  | None => py "None"
  | Some e => exn_text e
  end.

(** Lines 68 to 105: [remaining] passes of the [for] loop are left, the next
    one has index [attempt]; then the code after the loop. *)
Fixpoint retry_loop (formatted : pystr) (remaining : nat) (attempt : Z)
    (last_exception : option exn) : M pystr :=
  match remaining with
  | O =>
      set_ai_status offline (py "AI service unavailable: "
                             ++ fmt_exception last_exception ++ py ".") ;;
      ret unavailable_doc
  | S k =>
      o <- try_block formatted ;;
      match o with
      | Returned doc => ret doc
      | Raised e =>
          except_clause e ;;
          sleep (2 ^ attempt) ;;
          retry_loop formatted k (attempt + 1) (Some e)
      end
  end.

(** [generate_code_from_prompt]; [range(retries + 1)] is empty when
    [retries + 1] is not positive. *)
Definition generate_code_from_prompt (prompt : pystr) (api_key : option pystr)
    (model_source : option pystr) (retries : Z) : M pystr :=
  let formatted := format_prompt prompt in
  set_ai_status connecting (py "Connecting to AI service...") ;;
  failure <- configure_and_load api_key ;;
  match failure with
  | Some e =>
      set_ai_status error
        (py "AI service unavailable (no internet connection or invalid API key).") ;;
      logging ERROR (py "Generative AI init failed: " ++ exn_text e) ;;
      ret unavailable_doc
  | None => retry_loop formatted (Z.to_nat (retries + 1)) 0 None
  end.

(** [is_generic] *)
Definition generic_phrases : list pystr :=
  [py "make a website"; py "build ui"; py "create page"; py "webpage";
   py "dashboard"; py "login"; py "landing page"].

Definition is_generic (prompt : pystr) : bool :=
  existsb (str_eqb (strip (py_lower prompt))) generic_phrases.

(** [rule_based_enhancement] *)
Definition modifiers : list pystr :=
  [py "Use semantic HTML5 structure.";
   py "Apply responsive CSS (mobile-first).";
   py "Include clean modular JavaScript with comments."].

Definition rule_based_enhancement (prompt : pystr) : pystr :=
  let prompt := strip prompt in
  prompt ++ nl ++ nl ++ join nl modifiers.

Definition rewrite_prompt (prompt : pystr) : pystr :=
  py "Transform the following vague or minimal UI prompt into a clear, detailed, and professional instruction specifically for frontend web development. "
  ++ py "Focus on HTML, CSS, and JavaScript. Include layout details, components to be included, styling considerations, and any interactivity if relevant. "
  ++ py "Keep the improved prompt concise yet specific. Do not add commentary or formatting:" ++ nl ++ nl
  ++ py "User Prompt: " ++ quoted (strip prompt) ++ nl ++ nl
  ++ py "Refined Prompt:".

(** The [except] clause of [optimize_prompt]. *)
Definition optimize_fallback (prompt : pystr) (e : exn) : M pystr :=
  print (py "[optimize_prompt] Exception: " ++ exn_text e) ;;
  logging ERROR (py "LLM optimization failed: " ++ exn_text e) ;;
  ret (rule_based_enhancement prompt).

(** [optimize_prompt] *)
Definition optimize_prompt (prompt : pystr) (api_key : option pystr)
  : M pystr :=
  print (py "[optimize_prompt] Called with: " ++ prompt) ;;
  if (20 <=? length (strip prompt)) && negb (is_generic prompt) then
    ret prompt
  else
    failure <- configure_and_load api_key ;;
    match failure with
    | Some e => optimize_fallback prompt e
    | None =>
        r <- call_generate (rewrite_prompt prompt) ;;
        match r with
        | Raises e => optimize_fallback prompt e
        | Text response =>
            let improved := strip response in
            match improved with
            | [] =>
                print (py "[optimize_prompt] Empty response, fallback to rule-based enhancement") ;;
                ret (rule_based_enhancement prompt)
            | _ :: _ => ret improved
            end
        end
    end.

(** *** Summaries

    What a block leaves behind, as plain functions of the reply: they are
    related to the blocks themselves in the first lemmas below. *)

(** The status and the result of the [try] block after a reply, by the
    truth value of what was extracted. *)
Definition reply_state (parsed : json) : status :=
  if py_truthy parsed
  then {| st_state := online; st_message := py "AI service is online." |}
  else {| st_state := error; st_message := py "Could not parse AI response." |}.

Definition reply_outcome (parsed : json) : outcome :=
  if py_truthy parsed then
    match splice parsed with
    | inl e => Raised e
    | inr final_code => Returned final_code
    end
  else Returned could_not_parse_doc.

Definition attempt_outcome (r : reply) : outcome :=
  match r with
  | Raises e => Raised e
  | Text response => reply_outcome (extract_json response)
  end.

Definition attempt_status (r : reply) : status :=
  match r with
  | Raises _ => {| st_state := generating; st_message := py "Generating code..." |}
  | Text response => reply_state (extract_json response)
  end.

Definition except_status (e : exn) : status :=
  if is_request_exception e
  then {| st_state := offline;
          st_message := py "Network error, AI service is offline." |}
  else {| st_state := error;
          st_message := py "AI service error: " ++ exn_text e |}.

Definition exhausted_status (last_exception : option exn) : status :=
  {| st_state := offline;
     st_message := py "AI service unavailable: "
                   ++ fmt_exception last_exception ++ py "." |}.

Definition init_failed_status : status :=
  {| st_state := error;
     st_message :=
       py "AI service unavailable (no internet connection or invalid API key)." |}.

End Engine.


(* ------------------------------------------------------------------ *)
(** ** Reading a trace *)
(* ------------------------------------------------------------------ *)

(** The events a computation adds to the trace of the world it starts in. *)
Definition effects {A} (m : M A) (w : world) : list event :=
  skipn (length (events w)) (events (snd (m w))).

(** The part of a trace the properties below speak about: writes of the
    status value, completion calls and delays. *)
Inductive mark : Type :=
| MStatus (s : state)
| MCall
| MSleep (seconds : Z).

Definition mark_of (e : event) : list mark :=
  match e with
  | EStatus s => [MStatus (st_state s)]
  | EGenerate _ => [MCall]
  | ESleep z => [MSleep z]
  | ELog _ _ => []
  | EPrint _ => []
  | EInit _ => []
  end.

Definition timeline (es : list event) : list mark := flat_map mark_of es.

Definition status_writes (es : list event) : list state :=
  flat_map (fun e => match e with EStatus s => [st_state s] | _ => [] end) es.

Definition completion_calls (es : list event) : nat :=
  length (filter (fun e => match e with EGenerate _ => true | _ => false end) es).

Definition sleeps (es : list event) : list Z :=
  flat_map (fun e => match e with ESleep z => [z] | _ => [] end) es.

Definition marked_states (ms : list mark) : list state :=
  flat_map (fun m => match m with MStatus s => [s] | _ => [] end) ms.

Definition marked_calls (ms : list mark) : nat :=
  length (filter (fun m => match m with MCall => true | _ => false end) ms).

Definition marked_sleeps (ms : list mark) : list Z :=
  flat_map (fun m => match m with MSleep z => [z] | _ => [] end) ms.

(** The marks of one pass through the [try] block. *)
Definition attempt_marks (rt : runtime) (r : reply) : list mark :=
  MStatus generating :: MCall ::
  match r with
  | Raises _ => []
  | Text response => [MStatus (st_state (reply_state (extract_json rt response)))]
  end.

(** The marks the [except] clauses and the delay add after a failure. *)
Definition failure_marks (e : exn) (attempt : Z) : list mark :=
  [MStatus (st_state (except_status e)); MSleep (2 ^ attempt)].

(** The loop as a function of the replies: the document returned, the
    status left, and the marks, when the next completion call is the
    [index]-th. *)
Fixpoint loop_summary (rt : runtime) (svc : service) (formatted : pystr)
    (remaining : nat) (attempt : Z) (last_exception : option exn)
    (index : nat) : pystr * status * list mark :=
  match remaining with
  | O => (unavailable_doc, exhausted_status last_exception, [MStatus offline])
  | S k =>
      let r := generate_content svc index formatted in
      match attempt_outcome rt r with
      | Returned doc => (doc, attempt_status rt r, attempt_marks rt r)
      | Raised e =>
          let '(doc, st, ms) :=
            loop_summary rt svc formatted k (attempt + 1) (Some e) (S index) in
          (doc, st, attempt_marks rt r ++ failure_marks e attempt ++ ms)
      end
  end.

(** The marks of a pass whose completion call raises [failure i]; the
    loop started at call [first] with attempt index [attempt]. *)
Definition raise_round (failure : nat -> exn) (first : nat) (attempt : Z)
    (i : nat) : list mark :=
  [MStatus generating; MCall;
   MStatus (if is_request_exception (failure i) then offline else error);
   MSleep (2 ^ (attempt + Z.of_nat (i - first)))].

(** The exception a pass through the [try] block ends with, if any. *)
Definition attempt_failure (rt : runtime) (r : reply) : option exn :=
  match attempt_outcome rt r with
  | Raised e => Some e
  | Returned _ => None
  end.

(** A sequence of states in which each one follows the one before it
    according to [step]. *)
Fixpoint follows (step : state -> state -> bool) (l : list state) : bool :=
  match l with
  | a :: ((b :: _) as t) => step a b && follows step t
  | _ => true
  end.

(** The status transitions the specification lists. *)
Definition spec_step (a b : state) : bool :=
  match a, b with
  | connecting, generating => true
  | connecting, error => true
  | generating, online => true
  | generating, offline => true
  | generating, error => true
  | _, _ => false
  end.

(** The status transitions of the code: a failed pass leaves [offline] or
    [error] and the next pass writes [generating] again; the code after the
    loop writes [offline]; a reply that cannot be spliced is found after
    [online] was written. *)
Definition code_step (a b : state) : bool :=
  match a, b with
  | connecting, generating => true
  | connecting, error => true
  | generating, online => true
  | generating, offline => true
  | generating, error => true
  | online, error => true
  | offline, generating => true
  | offline, offline => true
  | error, generating => true
  | error, offline => true
  | _, _ => false
  end.

(** [s.replace(old, new, 1)]: the first occurrence only, as the
    specification describes the splicing. *)
Fixpoint replace_first (old new s : pystr) : pystr :=
  match s with
  | [] => match old with [] => new | _ :: _ => [] end
  | c :: t =>
      if startswith old s then new ++ skipn (length old) s
      else c :: replace_first old new t
  end.

(** The delays the specification allows a call with [retries] retries whose
    attempts all fail: one between two attempts, none after the last. *)
Definition spec_delays (retries : Z) : list Z :=
  map (fun i => (2 ^ Z.of_nat i)%Z) (seq 0 (Z.to_nat retries)).

(** The delays of the code in that case: one after every failed attempt. *)
Definition code_delays (retries : Z) : list Z :=
  map (fun i => (2 ^ Z.of_nat i)%Z) (seq 0 (Z.to_nat (retries + 1))).

(** *** Concrete runtimes, services and replies to run the model on *)

(** A runtime whose three functions are the simplest possible; what is
    proved below holds for every runtime. *)
Definition plain_runtime : runtime :=
  {| py_str := fun _ => py "?";
     unicode_lower := fun s => s;
     decode_error_text := fun _ => py "Expecting value" |}.

Definition timeout_error : exn :=
  {| is_request_exception := true; exn_text := py "Read timed out." |}.

Definition quota_error : exn :=
  {| is_request_exception := false; exn_text := py "429 quota exceeded" |}.

(** A service that accepts every credential and always answers [r]. *)
Definition always (r : reply) : service :=
  {| init_client := fun _ => None; generate_content := fun _ _ => r |}.

(** A service that rejects every credential. *)
Definition rejecting : service :=
  {| init_client := fun _ => Some quota_error;
     generate_content := fun _ _ => Raises timeout_error |}.

(** A service that answers every completion call with [text]. *)
Definition echo (text : pystr) : service := always (Text text).

(** A service whose first completion call times out and whose later calls
    answer [r]. *)
Definition flaky (r : reply) : service :=
  {| init_client := fun _ => None;
     generate_content := fun n _ =>
       match n with O => Raises timeout_error | S _ => r end |}.

Definition member (k v : String.string) : pystr :=
  quoted (py k) ++ py ":" ++ quoted (py v).

(** The reply of the specification's example. *)
Definition example_reply : pystr :=
  py "{" ++ member "html" "<html><head></head><body></body></html>" ++ py ","
  ++ member "css" "body{color:red}" ++ py ","
  ++ member "js" "console.log(1)" ++ py ","
  ++ member "name" "X" ++ py "}".

(** A reply whose HTML closes the head twice. *)
Definition two_heads_reply : pystr :=
  py "{" ++ member "html" "<head></head></head>" ++ py "}".

(** What [optimize_prompt] returns once it has decided to enhance the
    prompt, when [index] completion calls were made before. *)
Definition enhanced (rt : runtime) (svc : service) (prompt : pystr)
    (api_key : option pystr) (index : nat) : pystr :=
  match init_client svc api_key with
  | Some _ => rule_based_enhancement prompt
  | None =>
      match generate_content svc index (rewrite_prompt prompt) with
      | Raises _ => rule_based_enhancement prompt
      | Text response =>
          match strip response with
          | [] => rule_based_enhancement prompt
          | improved => improved
          end
      end
  end.

(** The test of line 111: the prompt is long enough and not generic. *)
Definition specific_enough (rt : runtime) (prompt : pystr) : bool :=
  (20 <=? length (strip prompt)) && negb (is_generic rt prompt).

(** [old] occurs in [s] at none of the first [n] positions. *)
Definition absent_before (old s : pystr) (n : nat) : Prop :=
  forall i, i < n -> startswith old (skipn i s) = false.

(** *** Notions used to state how the decoder reads its input *)

(** A text whose last character is not white space for [str.strip]. *)
Definition ends_clean (core : pystr) : Prop :=
  exists t c, core = t ++ [c] /\ is_space c = false.

(** A text whose first character is not white space for [str.strip]. *)
Definition starts_clean (core : pystr) : Prop :=
  exists c t, core = c :: t /\ is_space c = false.

(** What may follow a number without changing how it is read: the end of
    the text, or a character that is no digit, dot or exponent mark. *)
Definition delimits (r : pystr) : bool :=
  match r with
  | [] => true
  | c :: _ => negb (is_digit c || is_ch "." c || is_ch "e" c || is_ch "E" c)
  end.

(** A scanning function reads a prefix of its input and nothing of what
    follows it: the prefix can be followed by any text [ok] accepts. *)
Definition reads_locally (f : pystr -> scan json) (ok : pystr -> bool) : Prop :=
  forall s v r,
    f s = Ok v r ->
    exists core,
      s = core ++ r /\ ends_clean core
      /\ forall r', ok r' = true -> f (core ++ r') = Ok v r'.

(** A JSON document wrapped in a Markdown JSON code fence: the opening
    marker, the document and the closing marker, separated and surrounded
    by any white space. *)
Definition fenced (before after_open j before_close after : pystr) : pystr :=
  before ++ py "```json" ++ after_open ++ j ++ before_close ++ py "```" ++ after.

(** The first character, if any, is no digit; is no digit and no dot. *)
Definition not_digit_head (y : pystr) : bool :=
  match y with
  | [] => true
  | c :: _ => negb (is_digit c)
  end.

Definition not_frac_head (y : pystr) : bool :=
  match y with
  | [] => true
  | c :: _ => negb (is_digit c || is_ch "." c)
  end.

(** A text that is empty or ends with a digit. *)
Definition ends_digit (core : pystr) : Prop :=
  exists t c, core = t ++ [c] /\ is_digit c = true.

(** *** Proof steps used more than once *)

(** Character classes are decided by arithmetic on code points. *)
Ltac ord_values :=
  repeat match goal with
         | |- context [ord ?a] =>
             let v := eval vm_compute in (ord a) in change (ord a) with v
         | H : context [ord ?a] |- _ =>
             let v := eval vm_compute in (ord a) in change (ord a) with v in H
         end.

Ltac chars :=
  unfold is_digit, is_ch, is_ws, is_space, dq, bs in *; ord_values;
  repeat (progress
            rewrite ?Bool.negb_true_iff, ?Bool.negb_false_iff,
              ?Bool.andb_true_iff, ?Bool.orb_true_iff,
              ?Bool.andb_false_iff, ?Bool.orb_false_iff,
              ?N.eqb_eq, ?N.eqb_neq, ?N.leb_le, ?N.leb_gt in *);
  lia.

(** Appends are put in right-nested form. *)
Ltac norm_app := repeat first [rewrite <- app_assoc | progress cbn [app]].

(** *** Notions used by the further properties *)

(** The character [a] does not occur in [s]. *)
Definition no_char (a : ascii) (s : pystr) : bool :=
  forallb (fun c => negb (is_ch a c)) s.

(** A text between braces. *)
Definition braced (m : pystr) : pystr := ord "{" :: m ++ [ord "}"].

(** A text wrapped in a Markdown code fence without a language tag. *)
Definition bare_fenced (before after_open j before_close after : pystr) : pystr :=
  before ++ py "```" ++ after_open ++ j ++ before_close ++ py "```" ++ after.

(** What [rule_based_enhancement] appends. *)
Definition guidance : pystr := nl ++ nl ++ join nl modifiers.

(** The sum of the delays of a trace. *)
Definition total_delay (es : list event) : Z := fold_right Z.add 0%Z (sleeps es).

(** A reply that was spliced: the document made from it. *)
Definition spliced_from (rt : runtime) (response doc : pystr) : Prop :=
  exists d h,
    extract_json rt response = JDict d /\ d <> []
    /\ get_or_empty (py "html") d = JStr h
    /\ doc = replace (py "</body>")
               (py "<script>" ++ fmt rt (get_or_empty (py "js") d)
                ++ py "</script></body>")
               (replace (py "</head>")
                  (py "<style>" ++ fmt rt (get_or_empty (py "css") d)
                   ++ py "</style></head>") h).

(** A prose reply around the object of the specification's example. *)
Definition chatty_reply : pystr :=
  py "Here is your app: " ++ example_reply ++ py " Enjoy!".


(** The first powers of two, from [2^from] on: the delays after [n] failed
    attempts in a row. *)
Definition backoff (from : Z) (n : nat) : list Z :=
  map (fun i => (2 ^ (from + Z.of_nat i))%Z) (seq 0 n).

Definition online_status : status :=
  {| st_state := online; st_message := py "AI service is online." |}.

Definition parse_error_status : status :=
  {| st_state := error; st_message := py "Could not parse AI response." |}.

(** How a call that reached the loop can end: the attempts are exhausted,
    or the attempt of index [i] got a reply and the call stopped there,
    the reply being unusable or spliced. *)
Definition ends_exhausted (doc : pystr) (st : status) (ncalls : nat)
    (delays : list Z) (attempts : nat) : Prop :=
  doc = unavailable_doc /\ st_state st = offline
  /\ ncalls = attempts /\ delays = backoff 0 attempts.

Definition ends_at_reply (rt : runtime) (response : pystr) (i : nat)
    (doc : pystr) (st : status) (ncalls : nat) (delays : list Z) : Prop :=
  ncalls = S i /\ delays = backoff 0 i
  /\ (py_truthy (extract_json rt response) = false
      /\ st = parse_error_status /\ doc = could_not_parse_doc
      \/ st = online_status /\ spliced_from rt response doc).

(** A reply without the key [html], and one whose HTML has no closing
    tags. *)
Definition nameless_reply : pystr := py "{" ++ member "name" "X" ++ py "}".

Definition fragment_reply : pystr :=
  py "{" ++ member "html" "<p>Hi</p>" ++ py "," ++ member "css" "p{}" ++ py "}".


(** The record [set_ai_status] logs for a status. *)
Definition status_record (s : status) : pystr :=
  py "AI Status Updated: " ++ state_name (st_state s) ++ py " - " ++ st_message s.

(** In a trace, every write of the status is followed at once by its
    record in the log. *)
Fixpoint status_logged (d : list event) : Prop :=
  match d with
  | [] => True
  | EStatus s :: t =>
      match t with
      | ELog INFO msg :: t' => msg = status_record s /\ status_logged t'
      | _ => False
      end
  | _ :: t => status_logged t
  end.

(** The status a reader finds after a trace, [s0] being the status before. *)
Definition last_status (d : list event) (s0 : status) : status :=
  fold_left (fun s e => match e with EStatus s' => s' | _ => s end) d s0.

(** What [generate_code_from_prompt] may do for an instruction and a
    credential: send that instruction, initialise the client with that
    credential, write the status, log and wait; it does not print. *)
Definition generation_event (formatted : pystr) (api_key : option pystr)
    (e : event) : Prop :=
  match e with
  | EGenerate p => p = formatted
  | EInit k => k = api_key
  | EPrint _ => False
  | _ => True
  end.

(** A computation whose events all satisfy [P], which logs every status it
    writes, and which leaves the last status it wrote. *)
Definition traced (P : event -> Prop) {A} (m : M A) : Prop :=
  forall w, exists d,
    events (snd (m w)) = events w ++ d
    /\ Forall P d /\ status_logged d
    /\ ai_status (snd (m w)) = last_status d (ai_status w).

Definition is_status_event (e : event) : bool :=
  match e with EStatus _ => true | _ => false end.


(** Two objects in one reply. *)
Definition twin_reply : pystr :=
  py "{" ++ member "a" "1" ++ py "} and {" ++ member "b" "2" ++ py "}".


(** *** JSON texts as RFC 8259 writes them

    The grammar of the standard, each text with the value it stands for.
    It is written within the limits of the interpreter, which are not part
    of the decoder above: CPython converts at most 4300 digits to an [int]
    unless told otherwise, and its decoder recurses once for every array or
    object that is open. *)

Definition max_str_digits : nat := 4300.


(** [int = zero / ( digit1-9 *DIGIT )] *)
Definition is_int_digits (ds : pystr) : bool :=
  match ds with
  | [] => false
  | c :: t =>
      if is_ch "0" c then match t with [] => true | _ :: _ => false end
      else is_digit c && forallb is_digit t
  end.

(** [1*DIGIT] *)
Definition is_digits1 (ds : pystr) : bool :=
  match ds with
  | [] => false
  | _ :: _ => forallb is_digit ds
  end.

(** [minus], [frac = decimal-point 1*DIGIT] and
    [exp = e [ minus / plus ] 1*DIGIT], each of them optional. *)
Definition minus_text (neg : bool) : pystr := if neg then py "-" else [].

Definition frac_text (frac : option pystr) : pystr :=
  match frac with
  | Some fs => ord "." :: fs
  | None => []
  end.

Definition exp_text (exp : option (N * pystr * pystr)) : pystr :=
  match exp with
  | Some (mark, sign, es) => mark :: sign ++ es
  | None => []
  end.

Definition is_frac (frac : option pystr) : bool :=
  match frac with
  | Some fs => is_digits1 fs
  | None => true
  end.

Definition is_exp (exp : option (N * pystr * pystr)) : bool :=
  match exp with
  | Some (mark, sign, es) =>
      (is_ch "e" mark || is_ch "E" mark)
      && (str_eqb sign [] || str_eqb sign (py "+") || str_eqb sign (py "-"))
      && is_digits1 es
  | None => true
  end.

(** The power of ten an exponent stands for. *)
Definition exp_value (exp : option (N * pystr * pystr)) : Z :=
  match exp with
  | Some (_, sign, es) =>
      if str_eqb sign (py "-") then (- Z.of_N (digits_value es))%Z
      else Z.of_N (digits_value es)
  | None => 0%Z
  end.

Definition frac_digits (frac : option pystr) : pystr :=
  match frac with
  | Some fs => fs
  | None => []
  end.

(** The text after a backslash-u escape starts with another one, for a low
    surrogate. *)
Definition low_escape_head (t : pystr) : bool :=
  match t with
  | b :: u :: l1 :: l2 :: l3 :: l4 :: _ =>
      (b =? bs)%N && is_ch "u" u
      && match hex4 l1 l2 l3 l4 with
         | Some lo => is_low_surrogate lo
         | None => false
         end
  | _ => false
  end.

Definition unicode_escape (h1 h2 h3 h4 : N) : pystr :=
  [bs; ord "u"; h1; h2; h3; h4].

(** What stands between the quotes of a string, and the characters it
    stands for: unescaped characters, the two-character escapes, and the
    backslash-u escapes, where a high surrogate followed at once by a low
    one stands for one character. *)
Inductive string_body : pystr -> pystr -> Prop :=
| body_end : string_body [] []
| body_char (c : N) (t v : pystr) :
    (32 <= c)%N -> c <> dq -> c <> bs ->
    string_body t v -> string_body (c :: t) (c :: v)
| body_escape (e ch : N) (t v : pystr) :
    backslash e = Some ch ->
    string_body t v -> string_body (bs :: e :: t) (ch :: v)
| body_unicode (h1 h2 h3 h4 u : N) (t v : pystr) :
    hex4 h1 h2 h3 h4 = Some u ->
    (is_high_surrogate u = true -> low_escape_head t = false) ->
    string_body t v ->
    string_body (unicode_escape h1 h2 h3 h4 ++ t) (u :: v)
| body_pair (h1 h2 h3 h4 l1 l2 l3 l4 hi lo : N) (t v : pystr) :
    hex4 h1 h2 h3 h4 = Some hi -> is_high_surrogate hi = true ->
    hex4 l1 l2 l3 l4 = Some lo -> is_low_surrogate lo = true ->
    string_body t v ->
    string_body (unicode_escape h1 h2 h3 h4 ++ unicode_escape l1 l2 l3 l4 ++ t)
                (join_surrogates hi lo :: v).

(** [json_text d t v]: the text [t] is a JSON value with arrays and objects
    nested at most [d] deep, and stands for [v].  The elements of an array
    and the members of an object are separated by commas and may be
    surrounded by white space. *)
Inductive json_text : nat -> pystr -> json -> Prop :=
| text_null (d : nat) : json_text d (py "null") JNull
| text_true (d : nat) : json_text d (py "true") (JBool true)
| text_false (d : nat) : json_text d (py "false") (JBool false)
| text_int (d : nat) (neg : bool) (ids : pystr) :
    is_int_digits ids = true -> length ids <= max_str_digits ->
    json_text d (minus_text neg ++ ids)
      (JInt (if neg then - Z.of_N (digits_value ids)
             else Z.of_N (digits_value ids)))
| text_float (d : nat) (neg : bool) (ids : pystr) (frac : option pystr)
    (exp : option (N * pystr * pystr)) :
    is_int_digits ids = true -> is_frac frac = true -> is_exp exp = true ->
    (frac = None -> exp = None -> False) ->
    json_text d (minus_text neg ++ ids ++ frac_text frac ++ exp_text exp)
      (JFloat (FDec neg (digits_value (ids ++ frac_digits frac))
                 (exp_value exp - Z.of_nat (length (frac_digits frac)))))
| text_string (d : nat) (t s : pystr) :
    string_body t s -> json_text d (quoted t) (JStr s)
| text_empty_array (d : nat) (w : pystr) :
    forallb is_ws w = true ->
    json_text (S d) (ord "[" :: w ++ [ord "]"]) (JList [])
| text_array (d : nat) (t : pystr) (vs : list json) :
    json_items d t vs ->
    json_text (S d) (ord "[" :: t ++ [ord "]"]) (JList vs)
| text_empty_object (d : nat) (w : pystr) :
    forallb is_ws w = true -> json_text (S d) (braced w) (JDict [])
| text_object (d : nat) (t : pystr) (pairs : list (pystr * json)) :
    json_members d t pairs ->
    json_text (S d) (braced t) (JDict (py_dict pairs))

with json_items : nat -> pystr -> list json -> Prop :=
| items_last (d : nat) (a t b : pystr) (v : json) :
    forallb is_ws a = true -> forallb is_ws b = true ->
    json_text d t v -> json_items d (a ++ t ++ b) [v]
| items_more (d : nat) (a t b rest : pystr) (v : json) (vs : list json) :
    forallb is_ws a = true -> forallb is_ws b = true ->
    json_text d t v -> json_items d rest vs ->
    json_items d (a ++ t ++ b ++ ord "," :: rest) (v :: vs)

with json_members : nat -> pystr -> list (pystr * json) -> Prop :=
| members_last (d : nat) (a k b c t e key : pystr) (v : json) :
    forallb is_ws a = true -> forallb is_ws b = true ->
    forallb is_ws c = true -> forallb is_ws e = true ->
    string_body k key -> json_text d t v ->
    json_members d (a ++ quoted k ++ b ++ ord ":" :: c ++ t ++ e) [(key, v)]
| members_more (d : nat) (a k b c t e key rest : pystr) (v : json)
    (pairs : list (pystr * json)) :
    forallb is_ws a = true -> forallb is_ws b = true ->
    forallb is_ws c = true -> forallb is_ws e = true ->
    string_body k key -> json_text d t v -> json_members d rest pairs ->
    json_members d (a ++ quoted k ++ b ++ ord ":" :: c ++ t ++ e
                    ++ ord "," :: rest)
      ((key, v) :: pairs).

Scheme json_text_mut := Minimality for json_text Sort Prop
  with json_items_mut := Minimality for json_items Sort Prop
  with json_members_mut := Minimality for json_members Sort Prop.

Combined Scheme json_text_mutind
  from json_text_mut, json_items_mut, json_members_mut.








(* ------------------------------------------------------------------ *)
(** * Properties *)
(* ------------------------------------------------------------------ *)

(** ** Traces *)

Lemma effects_of_append {A} (m : M A) (w : world) (d : list event) :
  events (snd (m w)) = events w ++ d -> effects m w = d.
Proof.
  intros H. unfold effects. rewrite H. generalize (events w) as es.
  induction es as [|e es IH]; simpl; auto.
Qed.

Lemma timeline_app (a b : list event) :
  timeline (a ++ b) = timeline a ++ timeline b.
Proof. unfold timeline. apply flat_map_app. Qed.

Lemma status_writes_timeline (es : list event) :
  status_writes es = marked_states (timeline es).
Proof.
  induction es as [|e es IH]; simpl; auto.
  destruct e; simpl; rewrite IH; reflexivity.
Qed.

Lemma completion_calls_timeline (es : list event) :
  completion_calls es = marked_calls (timeline es).
Proof.
  unfold completion_calls, marked_calls.
  induction es as [|e es IH]; simpl; auto.
  destruct e; simpl; rewrite IH; reflexivity.
Qed.

Lemma sleeps_timeline (es : list event) :
  sleeps es = marked_sleeps (timeline es).
Proof.
  induction es as [|e es IH]; simpl; auto.
  destruct e; simpl; rewrite IH; reflexivity.
Qed.

Lemma marked_states_app (a b : list mark) :
  marked_states (a ++ b) = marked_states a ++ marked_states b.
Proof. unfold marked_states. apply flat_map_app. Qed.

Lemma marked_sleeps_app (a b : list mark) :
  marked_sleeps (a ++ b) = marked_sleeps a ++ marked_sleeps b.
Proof. unfold marked_sleeps. apply flat_map_app. Qed.

Lemma marked_calls_app (a b : list mark) :
  marked_calls (a ++ b) = marked_calls a + marked_calls b.
Proof. unfold marked_calls. rewrite filter_app, length_app. reflexivity. Qed.

(** ** What each block of [generate_code_from_prompt] does *)

Section Blocks.

Context (rt : runtime) (svc : service).

Lemma emit_all_run (es : list event) (w : world) :
  emit_all es w =
  (tt, {| ai_status := ai_status w; calls := calls w;
          events := events w ++ es |}).
Proof.
  revert w. induction es as [|e es IH]; intros w; simpl.
  - unfold ret. rewrite app_nil_r. destruct w; reflexivity.
  - unfold bind, emit. simpl. rewrite IH. simpl.
    rewrite <- app_assoc. reflexivity.
Qed.

Lemma set_ai_status_run (st : state) (message : pystr) (w : world) :
  set_ai_status st message w =
  (tt, {| ai_status := {| st_state := st; st_message := message |};
          calls := calls w;
          events := events w ++
            [EStatus {| st_state := st; st_message := message |};
             ELog INFO (py "AI Status Updated: " ++ state_name st
                        ++ py " - " ++ message)] |}).
Proof.
  unfold set_ai_status, bind, write_status, logging, emit. simpl.
  rewrite <- app_assoc. reflexivity.
Qed.

Lemma extract_json_records (response : pystr) :
  timeline (fst (extract_json_run rt response)) = [].
Proof.
  unfold extract_json_run.
  destruct (json_loads (clean response)); [reflexivity|].
  destruct (re_search_braces (clean response)) as [g|]; [|reflexivity].
  destruct (json_loads g); reflexivity.
Qed.

Lemma use_reply_run (response : pystr) (w : world) :
  exists d,
    use_reply rt response w =
    (reply_outcome rt (extract_json rt response),
     {| ai_status := reply_state (extract_json rt response);
        calls := calls w; events := events w ++ d |})
    /\ timeline d = [MStatus (st_state (reply_state (extract_json rt response)))].
Proof.
  pose proof (extract_json_records response) as Hr.
  unfold use_reply, extract_json, reply_outcome, reply_state.
  destruct (extract_json_run rt response) as [records parsed].
  cbn [fst snd] in *.
  unfold bind at 1. unfold logging at 1, emit at 1.
  unfold bind at 1. rewrite emit_all_run.
  unfold bind at 1. unfold logging at 1, emit at 1. cbn [ai_status calls events].
  destruct (py_truthy parsed); cbn [negb].
  - unfold bind at 1. rewrite set_ai_status_run. cbn [ai_status calls events].
    destruct (splice rt parsed) as [e|final_code].
    + eexists. split.
      * unfold ret. rewrite <- !app_assoc. reflexivity.
      * rewrite !timeline_app, Hr. reflexivity.
    + unfold bind, logging, emit, ret. cbn [ai_status calls events].
      eexists. split.
      * rewrite <- !app_assoc. reflexivity.
      * rewrite !timeline_app, Hr. reflexivity.
  - unfold bind at 1. rewrite set_ai_status_run. cbn [ai_status calls events].
    eexists. split.
    + unfold ret. rewrite <- !app_assoc. reflexivity.
    + rewrite !timeline_app, Hr. reflexivity.
Qed.

Lemma try_block_run (formatted : pystr) (w : world) :
  let r := generate_content svc (calls w) formatted in
  exists d,
    try_block rt svc formatted w =
    (attempt_outcome rt r,
     {| ai_status := attempt_status rt r; calls := S (calls w);
        events := events w ++ d |})
    /\ timeline d = attempt_marks rt r.
Proof.
  intros r. unfold try_block.
  unfold bind at 1. rewrite set_ai_status_run.
  unfold bind at 1. unfold call_generate. cbn [ai_status calls events].
  fold r. destruct r as [e|response]; cbn [attempt_outcome attempt_status attempt_marks].
  - eexists. split.
    + unfold ret. rewrite <- !app_assoc. reflexivity.
    + reflexivity.
  - match goal with |- context [use_reply rt response ?w0] =>
      destruct (use_reply_run response w0) as (d & Hd & Ht) end.
    rewrite Hd. cbn [ai_status calls events].
    eexists. split.
    + rewrite <- !app_assoc. reflexivity.
    + rewrite !timeline_app, Ht. reflexivity.
Qed.

Lemma except_clause_run (e : exn) (w : world) :
  exists d,
    except_clause e w =
    (tt, {| ai_status := except_status e; calls := calls w;
            events := events w ++ d |})
    /\ timeline d = [MStatus (st_state (except_status e))].
Proof.
  unfold except_clause, except_status.
  destruct (is_request_exception e);
    unfold bind; rewrite set_ai_status_run;
    unfold logging, emit; cbn [ai_status calls events];
    (eexists; split; [rewrite <- !app_assoc; reflexivity | reflexivity]).
Qed.

Lemma retry_loop_run (formatted : pystr) (remaining : nat) :
  forall (attempt : Z) (last_exception : option exn) (w : world),
  let '(doc, st, ms) :=
    loop_summary rt svc formatted remaining attempt last_exception (calls w) in
  exists d,
    retry_loop rt svc formatted remaining attempt last_exception w =
    (doc, {| ai_status := st; calls := calls w + marked_calls ms;
             events := events w ++ d |})
    /\ timeline d = ms.
Proof.
  induction remaining as [|k IH]; intros attempt last_exception w.
  - cbn [loop_summary retry_loop]. unfold bind. rewrite set_ai_status_run.
    unfold ret. cbn [ai_status calls events marked_calls filter length].
    rewrite Nat.add_0_r. eexists. split; reflexivity.
  - cbn [loop_summary retry_loop].
    destruct (try_block_run formatted w) as (d1 & H1 & T1).
    unfold bind at 1. rewrite H1.
    set (r := generate_content svc (calls w) formatted) in *.
    assert (Hc : marked_calls (attempt_marks rt r) = 1).
    { destruct r; reflexivity. }
    destruct (attempt_outcome rt r) as [doc|e].
    + unfold ret. rewrite Hc. exists d1. split; [|exact T1].
      rewrite Nat.add_1_r. reflexivity.
    + specialize (IH (attempt + 1)%Z (Some e)).
      destruct (loop_summary rt svc formatted k (attempt + 1) (Some e) (S (calls w)))
        as [[doc st] ms] eqn:Es.
      unfold bind at 1.
      match goal with |- context [except_clause e ?w0] =>
        destruct (except_clause_run e w0) as (d2 & H2 & T2) end.
      rewrite H2. cbn [ai_status calls events].
      unfold bind at 1. unfold sleep, emit. cbn [ai_status calls events].
      match goal with |- context [retry_loop rt svc formatted k _ _ ?w0] =>
        specialize (IH w0) end.
      cbn [calls] in IH. rewrite Es in IH.
      destruct IH as (d3 & H3 & T3). rewrite H3. cbn [ai_status calls events].
      eexists. split.
      * rewrite <- !app_assoc. f_equal. f_equal.
        rewrite !marked_calls_app, Hc. unfold failure_marks. cbn. lia.
      * rewrite !timeline_app, T1, T2, T3. reflexivity.
Qed.

End Blocks.

(** ** The whole call, as a summary *)

Section Call.

Context (rt : runtime) (svc : service).

Lemma generate_code_run (prompt : pystr) (api_key model_source : option pystr)
    (retries : Z) (w : world) :
  let run := generate_code_from_prompt rt svc prompt api_key model_source retries in
  match init_client svc api_key with
  | Some e =>
      fst (run w) = unavailable_doc
      /\ ai_status (snd (run w)) = init_failed_status
      /\ calls (snd (run w)) = calls w
      /\ timeline (effects run w) = [MStatus connecting; MStatus error]
  | None =>
      let '(doc, st, ms) :=
        loop_summary rt svc (format_prompt prompt) (Z.to_nat (retries + 1)) 0
                     None (calls w) in
      fst (run w) = doc
      /\ ai_status (snd (run w)) = st
      /\ calls (snd (run w)) = calls w + marked_calls ms
      /\ timeline (effects run w) = MStatus connecting :: ms
  end.
Proof.
  intros run. subst run. unfold generate_code_from_prompt.
  destruct (init_client svc api_key) as [e|] eqn:Ei.
  - assert (H : exists d,
      generate_code_from_prompt rt svc prompt api_key model_source retries w =
      (unavailable_doc, {| ai_status := init_failed_status; calls := calls w;
                           events := events w ++ d |})
      /\ timeline d = [MStatus connecting; MStatus error]).
    { unfold generate_code_from_prompt, bind at 1. rewrite set_ai_status_run.
      unfold bind at 1. unfold configure_and_load, bind at 1, emit, ret.
      cbn [ai_status calls events]. rewrite Ei.
      unfold bind. rewrite set_ai_status_run. unfold logging, emit.
      cbn [ai_status calls events].
      eexists. split; [rewrite <- !app_assoc; reflexivity | reflexivity]. }
    destruct H as (d & H & T). unfold generate_code_from_prompt in H.
    rewrite (@effects_of_append _ _ w d); rewrite H; auto.
  - pose proof (fun w0 => retry_loop_run rt svc (format_prompt prompt)
                  (Z.to_nat (retries + 1)) 0 None w0) as L.
    set (w1 := {| ai_status := {| st_state := connecting;
                                   st_message := py "Connecting to AI service..." |};
                  calls := calls w;
                  events := (events w ++
                    [EStatus {| st_state := connecting;
                                st_message := py "Connecting to AI service..." |};
                     ELog INFO (py "AI Status Updated: " ++ state_name connecting
                                ++ py " - " ++ py "Connecting to AI service...")])
                    ++ [EInit api_key] |}).
    specialize (L w1). cbn [calls w1] in L.
    destruct (loop_summary rt svc (format_prompt prompt) (Z.to_nat (retries + 1))
                0 None (calls w)) as [[doc st] ms].
    destruct L as (d & H & T).
    assert (H' : generate_code_from_prompt rt svc prompt api_key model_source retries w =
                 (doc, {| ai_status := st; calls := calls w + marked_calls ms;
                          events := events w1 ++ d |})).
    { unfold generate_code_from_prompt, bind at 1. rewrite set_ai_status_run.
      unfold bind at 1. unfold configure_and_load, bind at 1, emit, ret.
      cbn [ai_status calls events]. rewrite Ei. exact H. }
    unfold generate_code_from_prompt in H'.
    rewrite (@effects_of_append _ _ w
               ([EStatus {| st_state := connecting;
                                st_message := py "Connecting to AI service..." |};
                      ELog INFO (py "AI Status Updated: " ++ state_name connecting
                                 ++ py " - " ++ py "Connecting to AI service...");
                      EInit api_key] ++ d)).
    + rewrite H'. cbn [fst snd ai_status calls]. repeat split.
      rewrite timeline_app, T. reflexivity.
    + rewrite H'. cbn [snd events w1]. rewrite <- !app_assoc. reflexivity.
Qed.

(** The loop makes at most as many completion calls as it has passes. *)
Lemma loop_calls_bound (formatted : pystr) (remaining : nat) :
  forall attempt last_exception index,
  marked_calls (snd (loop_summary rt svc formatted remaining attempt
                                  last_exception index)) <= remaining.
Proof.
  induction remaining as [|k IH]; intros attempt last_exception index.
  - cbn. lia.
  - cbn [loop_summary].
    assert (Hc : marked_calls (attempt_marks rt (generate_content svc index formatted)) = 1).
    { destruct (generate_content svc index formatted); reflexivity. }
    destruct (attempt_outcome rt (generate_content svc index formatted)) as [doc|e].
    + cbn [snd]. lia.
    + specialize (IH (attempt + 1)%Z (Some e) (S index)).
      destruct (loop_summary rt svc formatted k (attempt + 1) (Some e) (S index))
        as [[doc st] ms].
      cbn [snd] in *. rewrite !marked_calls_app, Hc. cbn. lia.
Qed.

(** When every pass ends with an exception the loop runs to its end. *)
Lemma loop_exhausted (formatted : pystr) (failure : nat -> exn) (remaining : nat) :
  forall attempt last_exception index,
  (forall i, i < remaining ->
     attempt_failure rt (generate_content svc (index + i) formatted)
     = Some (failure i)) ->
  let '(doc, st, ms) :=
    loop_summary rt svc formatted remaining attempt last_exception index in
  doc = unavailable_doc
  /\ st = exhausted_status
            (match remaining with
             | O => last_exception
             | S k => Some (failure k)
             end)
  /\ marked_calls ms = remaining.
Proof.
  revert failure.
  induction remaining as [|k IH]; intros failure attempt last_exception index H.
  - cbn. auto.
  - cbn [loop_summary].
    assert (Hc : marked_calls (attempt_marks rt (generate_content svc index formatted)) = 1).
    { destruct (generate_content svc index formatted); reflexivity. }
    pose proof (H 0 ltac:(lia)) as H0. rewrite Nat.add_0_r in H0.
    unfold attempt_failure in H0.
    destruct (attempt_outcome rt (generate_content svc index formatted)) as [doc|e];
      [discriminate|]. injection H0 as H0.
    specialize (IH (fun i => failure (S i)) (attempt + 1)%Z (Some e) (S index)).
    destruct (loop_summary rt svc formatted k (attempt + 1) (Some e) (S index))
      as [[doc st] ms].
    destruct IH as (D & St & C).
    { intros i Hi. rewrite <- (H (S i)) by lia. do 2 f_equal. lia. }
    repeat split; auto.
    + rewrite St. destruct k; [rewrite H0|]; reflexivity.
    + rewrite !marked_calls_app, Hc, C. reflexivity.
Qed.

(** When every completion call raises, the marks of the loop are known. *)
Lemma loop_all_raise (formatted : pystr) (failure : nat -> exn) (remaining : nat) :
  forall attempt last_exception index,
  (forall i, i < remaining ->
     generate_content svc (index + i) formatted = Raises (failure (index + i))) ->
  snd (loop_summary rt svc formatted remaining attempt last_exception index)
  = flat_map (raise_round failure index attempt) (seq index remaining)
    ++ [MStatus offline].
Proof.
  induction remaining as [|k IH]; intros attempt last_exception index H.
  - reflexivity.
  - cbn [loop_summary].
    pose proof (H 0 ltac:(lia)) as H0. rewrite Nat.add_0_r in H0. rewrite H0.
    cbn [attempt_outcome].
    specialize (IH (attempt + 1)%Z (Some (failure index)) (S index)).
    destruct (loop_summary rt svc formatted k (attempt + 1)
                (Some (failure index)) (S index)) as [[doc st] ms].
    cbn [snd] in *. rewrite IH.
    + cbn [seq flat_map attempt_marks failure_marks]. unfold raise_round at 2.
      rewrite Nat.sub_diag, Z.add_0_r. unfold except_status.
      replace (flat_map (raise_round failure (S index) (attempt + 1)) (seq (S index) k))
        with (flat_map (raise_round failure index attempt) (seq (S index) k)).
      * unfold attempt_marks, failure_marks, except_status.
        destruct (is_request_exception (failure index));
          cbn [app st_state]; rewrite <- ?app_assoc; reflexivity.
      * rewrite !flat_map_concat_map. f_equal. apply map_ext_in.
        intros i Hi. apply in_seq in Hi.
        unfold raise_round.
        replace (attempt + 1 + Z.of_nat (i - S index))%Z
          with (attempt + Z.of_nat (i - index))%Z by lia.
        reflexivity.
    + intros i Hi. replace (S index + i) with (index + S i) by lia.
      apply H. lia.
Qed.

(** The delays of the loop are the first powers of two, one after each
    pass that ended with an exception. *)
Lemma loop_sleeps (formatted : pystr) (remaining : nat) :
  forall attempt last_exception index,
  exists m,
    m <= remaining
    /\ marked_sleeps (snd (loop_summary rt svc formatted remaining attempt
                                        last_exception index))
       = map (fun i => (2 ^ (attempt + Z.of_nat i))%Z) (seq 0 m).
Proof.
  induction remaining as [|k IH]; intros attempt last_exception index.
  - exists 0. split; [lia | reflexivity].
  - cbn [loop_summary].
    assert (Hs : marked_sleeps (attempt_marks rt (generate_content svc index formatted)) = []).
    { destruct (generate_content svc index formatted); reflexivity. }
    destruct (attempt_outcome rt (generate_content svc index formatted)) as [doc|e].
    + exists 0. split; [lia | exact Hs].
    + destruct (IH (attempt + 1)%Z (Some e) (S index)) as (m & Hm & E).
      destruct (loop_summary rt svc formatted k (attempt + 1) (Some e) (S index))
        as [[doc st] ms].
      cbn [snd] in *. exists (S m). split; [lia|].
      rewrite !marked_sleeps_app, Hs, E. cbn [seq map app].
      unfold failure_marks. cbn [marked_sleeps flat_map app].
      rewrite Z.add_0_r. f_equal. rewrite <- seq_shift, map_map.
      apply map_ext. intros i. f_equal. lia.
Qed.

End Call.

(** ** The status transitions of the loop *)

Section Transitions.

Context (rt : runtime) (svc : service).

(** The exceptions raised while a reply is used are attribute errors: they
    are raised after [online] was written and are not network errors. *)
Lemma reply_outcome_raised (parsed : json) (e : exn) :
  reply_outcome rt parsed = Raised e ->
  py_truthy parsed = true /\ is_request_exception e = false.
Proof.
  unfold reply_outcome. destruct (py_truthy parsed); [|discriminate].
  unfold splice. intros H. split; [reflexivity|].
  destruct parsed; try (injection H as <-; reflexivity).
  destruct (get_or_empty (py "html") d); try (injection H as <-; reflexivity).
  discriminate.
Qed.

Lemma loop_follows (formatted : pystr) (remaining : nat) :
  forall attempt last_exception index p,
  p = offline \/ p = error \/ (p = connecting /\ remaining <> 0) ->
  follows code_step
    (p :: marked_states
            (snd (loop_summary rt svc formatted remaining attempt
                               last_exception index))) = true.
Proof.
  induction remaining as [|k IH]; intros attempt last_exception index p Hp.
  - cbn. destruct Hp as [->|[->|[_ H]]]; [reflexivity|reflexivity|congruence].
  - cbn [loop_summary].
    assert (Hg : code_step p generating = true).
    { destruct Hp as [->|[->|[-> _]]]; reflexivity. }
    destruct (generate_content svc index formatted) as [e|response].
    + cbn [attempt_outcome].
      specialize (IH (attempt + 1)%Z (Some e) (S index)
                    (st_state (except_status e))).
      destruct (loop_summary rt svc formatted k (attempt + 1) (Some e) (S index))
        as [[doc st] ms].
      cbn [snd] in *. rewrite !marked_states_app.
      unfold attempt_marks, failure_marks.
      cbn [marked_states flat_map app follows].
      rewrite Hg. cbn [andb].
      change (flat_map (fun m => match m with MStatus s => [s] | _ => [] end) ms)
        with (marked_states ms).
      assert (Hx : follows code_step (st_state (except_status e) :: marked_states ms) = true).
      { apply IH. unfold except_status.
        destruct (is_request_exception e); cbn; auto. }
      cbn [follows] in Hx |- *. rewrite Hx.
      unfold except_status. destruct (is_request_exception e); reflexivity.
    + cbn [attempt_outcome].
      destruct (reply_outcome rt (extract_json rt response)) as [doc|e] eqn:Eo.
      * unfold attempt_marks.
        cbn [snd marked_states flat_map app follows].
        rewrite Hg. unfold reply_state.
        destruct (py_truthy (extract_json rt response)); reflexivity.
      * apply reply_outcome_raised in Eo. destruct Eo as [Ht Hn].
        specialize (IH (attempt + 1)%Z (Some e) (S index) error).
        destruct (loop_summary rt svc formatted k (attempt + 1) (Some e) (S index))
          as [[doc st] ms].
        cbn [snd] in *. rewrite !marked_states_app.
        unfold attempt_marks, failure_marks, reply_state, except_status.
        rewrite Ht, Hn.
        cbn [attempt_marks failure_marks marked_states flat_map app follows st_state].
        rewrite Hg. cbn [andb code_step].
        change (flat_map (fun m => match m with MStatus s => [s] | _ => [] end) ms)
          with (marked_states ms).
        assert (Hx : follows code_step (error :: marked_states ms) = true)
          by (apply IH; auto).
        cbn [follows] in Hx. exact Hx.
Qed.

(** Every call ends with the status [online], [offline] or [error]. *)
Lemma loop_final_state (formatted : pystr) (remaining : nat) :
  forall attempt last_exception index,
  In (st_state (snd (fst (loop_summary rt svc formatted remaining attempt
                                       last_exception index))))
     [online; offline; error].
Proof.
  induction remaining as [|k IH]; intros attempt last_exception index.
  - cbn. auto.
  - cbn [loop_summary].
    destruct (generate_content svc index formatted) as [e|response].
    + cbn [attempt_outcome].
      specialize (IH (attempt + 1)%Z (Some e) (S index)).
      destruct (loop_summary rt svc formatted k (attempt + 1) (Some e) (S index))
        as [[doc st] ms]. exact IH.
    + cbn [attempt_outcome].
      destruct (reply_outcome rt (extract_json rt response)) as [doc|e].
      * cbn [fst snd attempt_status]. unfold reply_state.
        destruct (py_truthy (extract_json rt response)); cbn; auto.
      * specialize (IH (attempt + 1)%Z (Some e) (S index)).
        destruct (loop_summary rt svc formatted k (attempt + 1) (Some e) (S index))
          as [[doc st] ms]. exact IH.
Qed.

End Transitions.

(* ------------------------------------------------------------------ *)
(** * The claims *)
(* ------------------------------------------------------------------ *)

(** C5.  When the remote client cannot be initialised,
    [generate_code_from_prompt] leaves the status [error], returns the
    canned document saying that the AI service is currently unavailable,
    and makes no completion call and no retry: the only status writes are
    [connecting] and [error], and there is no delay. *)
Theorem init_failure_is_final (rt : runtime) (svc : service)
    (prompt : pystr) (api_key model_source : option pystr) (retries : Z)
    (w : world) (e : exn) :
  init_client svc api_key = Some e ->
  let run := generate_code_from_prompt rt svc prompt api_key model_source retries in
  fst (run w) = unavailable_doc
  /\ ai_status (snd (run w))
     = {| st_state := error;
          st_message :=
            py "AI service unavailable (no internet connection or invalid API key)." |}
  /\ status_writes (effects run w) = [connecting; error]
  /\ completion_calls (effects run w) = 0
  /\ calls (snd (run w)) = calls w
  /\ sleeps (effects run w) = [].
Proof.
  intros Hi run.
  pose proof (generate_code_run rt svc prompt api_key model_source retries w) as H.
  cbv zeta in H. rewrite Hi in H. destruct H as (D & St & C & T).
  subst run. rewrite status_writes_timeline, completion_calls_timeline,
    sleeps_timeline, T, D, St, C.
  repeat split.
Qed.

Lemma init_failure_is_final_witness :
  init_client rejecting None = Some quota_error
  /\ fst (generate_code_from_prompt plain_runtime rejecting (py "a clock")
            None None 2 initial_world) = unavailable_doc.
Proof.
  split; [reflexivity|].
  apply (init_failure_is_final plain_runtime rejecting (py "a clock") None None
           2 initial_world (e := quota_error)).
  reflexivity.
Defined.

(** C3.  After a successful initialisation, a call with [retries] retries
    (a count, so not negative) makes at most [retries + 1] completion
    calls; and when every attempt ends with an exception, it makes exactly
    that many, leaves the status [offline] with the text of the last
    exception in its message, and returns the canned document of the
    unavailable service: the call returns a document, no exception is left
    to the caller. *)
Theorem exhausted_retries_go_offline (rt : runtime) (svc : service)
    (prompt : pystr) (api_key model_source : option pystr) (retries : Z)
    (w : world) :
  (0 <= retries)%Z ->
  init_client svc api_key = None ->
  let run := generate_code_from_prompt rt svc prompt api_key model_source retries in
  (Z.of_nat (completion_calls (effects run w)) <= retries + 1)%Z
  /\ forall failure : nat -> exn,
       (forall i, (Z.of_nat i <= retries)%Z ->
          attempt_failure rt (generate_content svc (calls w + i) (format_prompt prompt))
          = Some (failure i)) ->
       fst (run w) = unavailable_doc
       /\ ai_status (snd (run w))
          = {| st_state := offline;
               st_message := py "AI service unavailable: "
                             ++ exn_text (failure (Z.to_nat retries)) ++ py "." |}
       /\ Z.of_nat (completion_calls (effects run w)) = (retries + 1)%Z.
Proof.
  intros Hr Hi run.
  pose proof (generate_code_run rt svc prompt api_key model_source retries w) as H.
  cbv zeta in H. rewrite Hi in H.
  pose proof (loop_calls_bound rt svc (format_prompt prompt) (Z.to_nat (retries + 1))
                0 None (calls w)) as B.
  pose proof (fun f => @loop_exhausted rt svc (format_prompt prompt) f
                (Z.to_nat (retries + 1)) 0 None (calls w)) as X.
  destruct (loop_summary rt svc (format_prompt prompt) (Z.to_nat (retries + 1)) 0
              None (calls w)) as [[doc st] ms].
  destruct H as (D & St & C & T). cbn [snd] in B.
  subst run. rewrite completion_calls_timeline, T, D, St.
  change (marked_calls (MStatus connecting :: ms)) with (marked_calls ms).
  split; [lia|].
  intros failure Hf. destruct (X failure) as (X1 & X2 & X3).
  { intros i Hlt. apply Hf. lia. }
  repeat split; auto; [|lia].
  rewrite X2. replace (Z.to_nat (retries + 1)) with (S (Z.to_nat retries)) by lia.
  reflexivity.
Qed.

Lemma exhausted_retries_go_offline_witness :
  (0 <= 2)%Z
  /\ init_client (always (Raises timeout_error)) None = None
  /\ (Z.of_nat (completion_calls
        (effects (generate_code_from_prompt plain_runtime
                    (always (Raises timeout_error)) (py "a clock") None None 2)
                 initial_world)) <= 2 + 1)%Z.
Proof.
  split; [lia|]. split; [reflexivity|].
  apply (exhausted_retries_go_offline plain_runtime (always (Raises timeout_error))
           (py "a clock") None None (retries := 2) initial_world);
    [lia | reflexivity].
Defined.

(** C4, as the specification words it, fails: a call with no retry whose
    only attempt times out still waits one time unit before it gives up,
    where the specification allows no delay after the final attempt. *)
Lemma delay_after_final_attempt :
  sleeps (effects (generate_code_from_prompt plain_runtime
                     (always (Raises timeout_error)) (py "a clock") None None 0)
                  initial_world) = [1%Z]
  /\ spec_delays 0 = [].
Proof. split; vm_compute; reflexivity. Qed.

(** C4, amended.  The [except] clauses set the status [offline] for a
    network error and [error] for any other, and log.  The delays of a call
    are [2^0, 2^1, ...], one after each attempt that ended with an
    exception and none else.  When the completion call of every attempt
    raises, the call writes [generating], makes the completion call, writes
    [offline] or [error] and waits [2^i] time units after the attempt of
    index [i], and this for each of the [retries + 1] attempts in turn, the
    last one included; only then it writes [offline].  The delays of an
    exhausted call are therefore [2^0, ..., 2^retries]. *)
Theorem backoff_after_every_failure (rt : runtime) (svc : service)
    (prompt : pystr) (api_key model_source : option pystr) (retries : Z)
    (w : world) :
  (0 <= retries)%Z ->
  init_client svc api_key = None ->
  let run := generate_code_from_prompt rt svc prompt api_key model_source retries in
  (forall e w0,
     st_state (except_status e)
     = (if is_request_exception e then offline else error)
     /\ exists info record,
          effects (except_clause e) w0
          = [EStatus (except_status e); ELog INFO info; ELog ERROR record])
  /\ (exists m, Z.of_nat m <= retries + 1
                /\ sleeps (effects run w)
                   = map (fun i => 2 ^ Z.of_nat i) (seq 0 m))%Z
  /\ forall failure : nat -> exn,
       (forall i, (Z.of_nat i <= retries)%Z ->
          generate_content svc (calls w + i) (format_prompt prompt)
          = Raises (failure (calls w + i))) ->
       timeline (effects run w)
       = MStatus connecting
         :: flat_map (raise_round failure (calls w) 0)
                     (seq (calls w) (Z.to_nat (retries + 1)))
         ++ [MStatus offline]
       /\ sleeps (effects run w) = code_delays retries.
Proof.
  intros Hr Hi run. split; [|split].
  { intros e w0. split; [unfold except_status; destruct (is_request_exception e); reflexivity|].
    unfold except_clause, except_status.
    destruct (is_request_exception e); do 2 eexists;
      (erewrite effects_of_append;
       [reflexivity
       | unfold bind; rewrite set_ai_status_run; unfold logging, emit;
         cbn [snd events]; rewrite <- app_assoc; reflexivity]). }
  { pose proof (generate_code_run rt svc prompt api_key model_source retries w) as H.
    cbv zeta in H. rewrite Hi in H.
    destruct (loop_sleeps rt svc (format_prompt prompt) (Z.to_nat (retries + 1))
                0 None (calls w)) as (m & Hm & E).
    destruct (loop_summary rt svc (format_prompt prompt) (Z.to_nat (retries + 1)) 0
                None (calls w)) as [[doc st] ms].
    destruct H as (_ & _ & _ & T). cbn [snd] in E.
    exists m. split; [lia|]. subst run. rewrite sleeps_timeline, T.
    exact E. }
  intros failure Hf.
  pose proof (generate_code_run rt svc prompt api_key model_source retries w) as H.
  cbv zeta in H. rewrite Hi in H.
  pose proof (@loop_all_raise rt svc (format_prompt prompt) failure
                (Z.to_nat (retries + 1)) 0 None (calls w)) as A.
  destruct (loop_summary rt svc (format_prompt prompt) (Z.to_nat (retries + 1)) 0
              None (calls w)) as [[doc st] ms].
  destruct H as (D & St & C & T). cbn [snd] in A.
  assert (Hms : ms = flat_map (raise_round failure (calls w) 0)
                       (seq (calls w) (Z.to_nat (retries + 1))) ++ [MStatus offline]).
  { apply A. intros i Hlt. apply Hf. lia. }
  subst run. rewrite sleeps_timeline, T, Hms. split; [reflexivity|].
  unfold code_delays. generalize (Z.to_nat (retries + 1)) as n.
  change (marked_sleeps (MStatus connecting :: ?l)) with (marked_sleeps l).
  intros n. rewrite marked_sleeps_app. cbn [marked_sleeps flat_map].
  rewrite app_nil_r.
  rewrite <- (Nat.add_0_r (calls w)) at 2. generalize 0 as j.
  induction n as [|n IH]; intros j; [reflexivity|].
  cbn [seq flat_map map]. rewrite marked_sleeps_app.
  replace (S (calls w + j)) with (calls w + S j) by lia. rewrite IH.
  unfold raise_round. cbn. do 3 f_equal. lia.
Qed.

Lemma backoff_after_every_failure_witness :
  (0 <= 2)%Z
  /\ init_client (always (Raises timeout_error)) None = None
  /\ sleeps (effects (generate_code_from_prompt plain_runtime
               (always (Raises timeout_error)) (py "a clock") None None 2)
               initial_world) = code_delays 2.
Proof.
  split; [lia|]. split; [reflexivity|].
  apply (proj2 (proj2 (backoff_after_every_failure plain_runtime
                         (always (Raises timeout_error))
                         (py "a clock") None None (retries := 2) initial_world
                         ltac:(lia) eq_refl)) (fun _ => timeout_error)).
  reflexivity.
Defined.

(** The loop and its summary, read through [effects]. *)
Lemma retry_loop_effects (rt : runtime) (svc : service) (formatted : pystr)
    (remaining : nat) (attempt : Z) (last_exception : option exn) (w : world) :
  let run := retry_loop rt svc formatted remaining attempt last_exception in
  let '(doc, st, ms) :=
    loop_summary rt svc formatted remaining attempt last_exception (calls w) in
  fst (run w) = doc /\ ai_status (snd (run w)) = st
  /\ timeline (effects run w) = ms.
Proof.
  intros run.
  pose proof (retry_loop_run rt svc formatted remaining attempt last_exception w) as H.
  destruct (loop_summary rt svc formatted remaining attempt last_exception (calls w))
    as [[doc st] ms].
  destruct H as (d & H & T). subst run.
  rewrite (@effects_of_append _ _ w d); rewrite H; auto.
Qed.

(** C8, as the specification words it, fails: when the first attempt times
    out the status goes from [offline] back to [generating] within the same
    call, so [offline] is not final for the call. *)
Lemma retry_leaves_offline :
  status_writes
    (effects (generate_code_from_prompt plain_runtime
                (flaky (Text example_reply)) (py "a clock") None None 1)
             initial_world)
  = [connecting; generating; offline; generating; online]
  /\ follows spec_step [connecting; generating; offline; generating; online]
     = false.
Proof. split; vm_compute; reflexivity. Qed.

(** C8, amended.  During one call with a non-negative number of retries the
    first status written is [connecting] and every later write follows the
    one before it by one of: connecting to generating or error; generating
    to online, offline or error; offline or error to generating (the next
    attempt) or to offline (the attempts are exhausted); online to error
    (the reply could not be spliced).  The call ends with the status
    online, offline or error. *)
Theorem status_writes_follow_code_step (rt : runtime) (svc : service)
    (prompt : pystr) (api_key model_source : option pystr) (retries : Z)
    (w : world) :
  (0 <= retries)%Z ->
  let run := generate_code_from_prompt rt svc prompt api_key model_source retries in
  hd_error (status_writes (effects run w)) = Some connecting
  /\ follows code_step (status_writes (effects run w)) = true
  /\ In (st_state (ai_status (snd (run w)))) [online; offline; error].
Proof.
  intros Hr run.
  pose proof (generate_code_run rt svc prompt api_key model_source retries w) as H.
  cbv zeta in H. subst run. rewrite status_writes_timeline.
  destruct (init_client svc api_key) as [e|].
  - destruct H as (D & St & C & T). rewrite T, St.
    repeat split. unfold init_failed_status. cbn. auto.
  - pose proof (loop_follows rt svc (format_prompt prompt)
                  (remaining := Z.to_nat (retries + 1)) 0 None (calls w)
                  (p := connecting)) as F.
    pose proof (loop_final_state rt svc (format_prompt prompt)
                  (Z.to_nat (retries + 1)) 0 None (calls w)) as L.
    destruct (loop_summary rt svc (format_prompt prompt) (Z.to_nat (retries + 1))
                0 None (calls w)) as [[doc st] ms].
    destruct H as (D & St & C & T). rewrite T, St. cbn [fst snd] in *.
    repeat split; auto.
    apply F. right. right. split; [reflexivity | lia].
Qed.

Lemma status_writes_follow_code_step_witness :
  (0 <= 1)%Z
  /\ follows code_step
       (status_writes
          (effects (generate_code_from_prompt plain_runtime
                      (flaky (Text example_reply)) (py "a clock") None None 1)
                   initial_world)) = true.
Proof.
  split; [lia|].
  apply (status_writes_follow_code_step plain_runtime (flaky (Text example_reply))
           (py "a clock") None None (retries := 1) initial_world).
  lia.
Defined.

(** C1, as the specification words it, fails: the reply [{}] is extracted
    as an object, not as null, and still the call stops with the status
    [error] and the document saying the reply could not be parsed. *)
Lemma empty_object_is_not_parsed :
  extract_json plain_runtime (py "{}") = JDict []
  /\ JDict [] <> JNull
  /\ fst (generate_code_from_prompt plain_runtime (always (Text (py "{}")))
            (py "a clock") None None 2 initial_world) = could_not_parse_doc
  /\ st_state (ai_status (snd (generate_code_from_prompt plain_runtime
                 (always (Text (py "{}"))) (py "a clock") None None 2
                 initial_world))) = error.
Proof. repeat split; try discriminate; vm_compute; reflexivity. Qed.

(** C1, amended.  In a pass of the loop whose completion call gives a reply
    text, the call stops with the document saying the reply could not be
    parsed, having written [error] and made no further attempt, exactly
    when the value extracted from the reply is false in Python's sense
    (null, false, zero, or an empty string, array or object).  For every
    extracted object that is not empty it writes [online]; and when the
    value of [html] is a string, or [html] is absent, it returns the
    spliced document, the values of [html], [css] and [js] being the empty
    string when the key is absent. *)
Theorem reply_stops_iff_falsy (rt : runtime) (svc : service)
    (formatted response : pystr) (k : nat) (attempt : Z)
    (last_exception : option exn) (w : world) :
  generate_content svc (calls w) formatted = Text response ->
  let parsed := extract_json rt response in
  let run := retry_loop rt svc formatted (S k) attempt last_exception in
  ((fst (run w) = could_not_parse_doc
    /\ timeline (effects run w) = [MStatus generating; MCall; MStatus error])
   <-> py_truthy parsed = false)
  /\ (py_truthy parsed = false ->
      ai_status (snd (run w))
      = {| st_state := error; st_message := py "Could not parse AI response." |})
  /\ (forall d, parsed = JDict d -> d <> [] ->
      (exists rest,
         timeline (effects run w)
         = MStatus generating :: MCall :: MStatus online :: rest)
      /\ forall h, get_or_empty (py "html") d = JStr h ->
         fst (run w)
         = replace (py "</body>")
             (py "<script>" ++ fmt rt (get_or_empty (py "js") d)
              ++ py "</script></body>")
             (replace (py "</head>")
                (py "<style>" ++ fmt rt (get_or_empty (py "css") d)
                 ++ py "</style></head>") h)
         /\ ai_status (snd (run w))
            = {| st_state := online; st_message := py "AI service is online." |}
         /\ timeline (effects run w)
            = [MStatus generating; MCall; MStatus online])
  /\ (forall key d, dict_get key d = None -> get_or_empty key d = JStr []).
Proof.
  intros Hg parsed run.
  pose proof (retry_loop_effects rt svc formatted (S k) attempt last_exception w) as H.
  cbv zeta in H. cbn [loop_summary] in H. rewrite Hg in H.
  cbn [attempt_outcome attempt_status] in H. fold parsed in H.
  unfold attempt_marks in H. fold parsed in H.
  unfold reply_outcome, reply_state in H.
  fold run in H.
  destruct (py_truthy parsed) eqn:Et.
  - assert (Hm : exists rest,
              timeline (effects run w)
              = MStatus generating :: MCall :: MStatus online :: rest).
    { destruct (splice rt parsed) as [e|final].
      - destruct (loop_summary rt svc formatted k (attempt + 1) (Some e) (S (calls w)))
          as [[doc st] ms].
        destruct H as (_ & _ & T). rewrite T. eexists. reflexivity.
      - destruct H as (_ & _ & T). rewrite T. eexists. reflexivity. }
    split; [|split; [|split]].
    + split; [|discriminate]. intros [_ T]. destruct Hm as (rest & Hm).
      rewrite Hm in T. discriminate.
    + discriminate.
    + intros d Hd Hne. split; [exact Hm|]. intros h Hh.
      unfold splice in H. rewrite Hd, Hh in H. exact H.
    + intros key d Hk. unfold get_or_empty. rewrite Hk. reflexivity.
  - destruct H as (D & St & T).
    split; [|split; [|split]].
    + split; auto.
    + intros _. exact St.
    + intros d Hd Hne. rewrite Hd in Et. destruct d; [congruence|discriminate].
    + intros key d Hk. unfold get_or_empty. rewrite Hk. reflexivity.
Qed.

Lemma reply_stops_iff_falsy_witness :
  generate_content (always (Text example_reply)) (calls initial_world)
    (format_prompt (py "a clock")) = Text example_reply
  /\ ((fst (retry_loop plain_runtime (always (Text example_reply))
              (format_prompt (py "a clock")) 3 0 None initial_world)
       = could_not_parse_doc
       /\ timeline (effects (retry_loop plain_runtime (always (Text example_reply))
                               (format_prompt (py "a clock")) 3 0 None)
                            initial_world)
          = [MStatus generating; MCall; MStatus error])
      <-> py_truthy (extract_json plain_runtime example_reply) = false).
Proof.
  split; [reflexivity|].
  apply (reply_stops_iff_falsy plain_runtime (always (Text example_reply))
           (format_prompt (py "a clock")) (response := example_reply) 2 0 None
           initial_world).
  reflexivity.
Defined.

(** ** [optimize_prompt] *)

Lemma optimize_prompt_run (rt : runtime) (svc : service) (prompt : pystr)
    (api_key : option pystr) (w : world) :
  let called := EPrint (py "[optimize_prompt] Called with: " ++ prompt) in
  if specific_enough rt prompt then
    optimize_prompt rt svc prompt api_key w
    = (prompt, {| ai_status := ai_status w; calls := calls w;
                  events := events w ++ [called] |})
  else
    exists c d,
      optimize_prompt rt svc prompt api_key w
      = (enhanced rt svc prompt api_key (calls w),
         {| ai_status := ai_status w; calls := c;
            events := events w ++ called :: EInit api_key :: d |})
      /\ status_writes d = [].
Proof.
  intros called. unfold optimize_prompt, specific_enough, enhanced.
  unfold bind at 1. unfold print at 1, emit at 1.
  destruct ((20 <=? length (strip prompt)) && negb (is_generic rt prompt)).
  - reflexivity.
  - cbv [bind configure_and_load emit ret call_generate optimize_fallback
         print logging].
    cbn [ai_status calls events].
    destruct (init_client svc api_key) as [e|]; cbn [ai_status calls events];
      [|destruct (generate_content svc (calls w) (rewrite_prompt prompt))
          as [e|response]; [|destruct (strip response) as [|c0 t]]];
      cbn [ai_status calls events]; rewrite <- ?app_assoc; cbn [app];
      do 2 eexists; (split; [reflexivity|]); reflexivity.
Qed.

(** C9.  Whatever the prompt, the credential and the behaviour of the
    remote service, [optimize_prompt] leaves [ai_status] as it found it and
    writes it at no point; [rule_based_enhancement] is a function of its
    argument alone; [generate_code_from_prompt] does write it, first of all
    with [connecting]. *)
Theorem optimize_prompt_keeps_status (rt : runtime) (svc : service)
    (prompt : pystr) (api_key : option pystr) (w : world) :
  ai_status (snd (optimize_prompt rt svc prompt api_key w)) = ai_status w
  /\ status_writes (effects (optimize_prompt rt svc prompt api_key) w) = []
  /\ snd (ret (rule_based_enhancement prompt) w) = w
  /\ forall model_source retries,
       status_writes
         (effects (generate_code_from_prompt rt svc prompt api_key
                     model_source retries) w) <> [].
Proof.
  pose proof (optimize_prompt_run rt svc prompt api_key w) as H. cbv zeta in H.
  split; [|split; [|split]].
  - destruct (specific_enough rt prompt).
    + rewrite H. reflexivity.
    + destruct H as (c & d & H & _). rewrite H. reflexivity.
  - destruct (specific_enough rt prompt).
    + erewrite effects_of_append; [|rewrite H; reflexivity]. reflexivity.
    + destruct H as (c & d & H & S).
      erewrite effects_of_append; [|rewrite H; reflexivity]. exact S.
  - reflexivity.
  - intros model_source retries.
    pose proof (generate_code_run rt svc prompt api_key model_source retries w) as G.
    cbv zeta in G. rewrite status_writes_timeline.
    destruct (init_client svc api_key).
    + destruct G as (_ & _ & _ & T). rewrite T. discriminate.
    + destruct (loop_summary rt svc (format_prompt prompt) (Z.to_nat (retries + 1))
                  0 None (calls w)) as [[doc st] ms].
      destruct G as (_ & _ & _ & T). rewrite T. discriminate.
Qed.

(** ** [rule_based_enhancement] and the decision of [optimize_prompt] *)

Lemma dropwhile_head (p : N -> bool) (s : pystr) (c : N) (t : pystr) :
  dropwhile p s = c :: t -> p c = false.
Proof.
  induction s as [|a s IH]; simpl; [discriminate|].
  destruct (p a) eqn:Ea; [exact IH|]. intros H. injection H as -> _. exact Ea.
Qed.

(** The guidance is appended, so the result is never the prompt itself. *)
Lemma rule_based_enhancement_changes (prompt : pystr) :
  rule_based_enhancement prompt <> prompt.
Proof.
  unfold rule_based_enhancement. intros H.
  set (tail := nl ++ nl ++ join nl modifiers) in *.
  assert (Hr : rstrip prompt = prompt).
  { rewrite <- H at 1. unfold rstrip. rewrite rev_app_distr.
    replace (dropwhile is_space (rev tail ++ rev (strip prompt)))
      with (rev tail ++ rev (strip prompt)) by (vm_compute rev at 2; reflexivity).
    rewrite rev_app_distr, !rev_involutive. exact H. }
  assert (Hs : strip prompt = lstrip prompt).
  { unfold strip. rewrite Hr. reflexivity. }
  destruct (strip prompt) as [|c t] eqn:Es.
  - rewrite <- H in Hs. vm_compute in Hs. discriminate.
  - pose proof Hs as Hh. symmetry in Hh. apply dropwhile_head in Hh.
    rewrite <- H in Hs. unfold lstrip in Hs. cbn [app dropwhile] in Hs.
    rewrite Hh in Hs. injection Hs as Hs.
    apply (f_equal (@length N)) in Hs. rewrite length_app in Hs.
    vm_compute (length tail) in Hs. lia.
Qed.

(** C7, as the specification words it, fails: if the service answers the
    prompt [ok] with the text [ok], [optimize_prompt] returns [ok], the
    input unchanged, although the prompt is shorter than 20 characters. *)
Lemma echoed_prompt_is_returned :
  fst (optimize_prompt plain_runtime (echo (py "ok")) (py "ok") None initial_world)
  = py "ok"
  /\ length (strip (py "ok")) = 2.
Proof. split; vm_compute; reflexivity. Qed.

(** C7, amended.  [optimize_prompt] returns at once, with the prompt
    unchanged and without reaching for the remote service, if and only if
    the trimmed prompt has at least 20 characters and the prompt is not one
    of the generic phrases.  Otherwise it always attempts the enhancement:
    it initialises the remote client and returns either the trimmed
    rewrite of the service, when there is one that is not empty, or the
    rule-based enhancement, which always differs from the prompt; so the
    result can then equal the prompt only when the service answers with
    the prompt itself.  The prompt [ok] is in the second case. *)
Theorem optimize_prompt_decision (rt : runtime) (svc : service)
    (prompt : pystr) (api_key : option pystr) (w : world) :
  let run := optimize_prompt rt svc prompt api_key in
  let specific :=
    (20 <=? length (strip prompt)) && negb (is_generic rt prompt) in
  (specific = true <->
   effects run w = [EPrint (py "[optimize_prompt] Called with: " ++ prompt)])
  /\ (specific = true -> fst (run w) = prompt)
  /\ (specific = false ->
      In (EInit api_key) (effects run w)
      /\ (fst (run w) = rule_based_enhancement prompt
          \/ exists response,
               init_client svc api_key = None
               /\ generate_content svc (calls w) (rewrite_prompt prompt)
                  = Text response
               /\ strip response <> []
               /\ fst (run w) = strip response)
      /\ (fst (run w) = prompt ->
          exists response,
            generate_content svc (calls w) (rewrite_prompt prompt) = Text response
            /\ strip response = prompt))
  /\ rule_based_enhancement prompt <> prompt
  /\ (20 <=? length (strip (py "ok"))) && negb (is_generic rt (py "ok")) = false.
Proof.
  intros run specific.
  pose proof (optimize_prompt_run rt svc prompt api_key w) as H. cbv zeta in H.
  fold (specific_enough rt prompt) in specific. subst run.
  assert (Hc : forall r,
            enhanced rt svc prompt api_key (calls w) = r ->
            r = rule_based_enhancement prompt
            \/ exists response,
                 init_client svc api_key = None
                 /\ generate_content svc (calls w) (rewrite_prompt prompt)
                    = Text response
                 /\ strip response <> [] /\ r = strip response).
  { intros r <-. unfold enhanced.
    destruct (init_client svc api_key); [left; reflexivity|].
    destruct (generate_content svc (calls w) (rewrite_prompt prompt))
      as [e|response]; [left; reflexivity|].
    destruct (strip response) as [|c t] eqn:Es; [left; reflexivity|].
    right. exists response. rewrite Es. repeat split. discriminate. }
  subst specific. destruct (specific_enough rt prompt).
  - split; [|split; [|split; [|split]]].
    + split; [intros _|reflexivity].
      erewrite effects_of_append; [|rewrite H; reflexivity]. reflexivity.
    + intros _. rewrite H. reflexivity.
    + discriminate.
    + apply rule_based_enhancement_changes.
    + reflexivity.
  - destruct H as (c & d & H & _).
    assert (He : effects (optimize_prompt rt svc prompt api_key) w
                 = EPrint (py "[optimize_prompt] Called with: " ++ prompt)
                   :: EInit api_key :: d).
    { erewrite effects_of_append; [|rewrite H; reflexivity]. reflexivity. }
    split; [|split; [|split; [|split]]].
    + split; [discriminate|]. rewrite He. discriminate.
    + discriminate.
    + intros _. rewrite He, H. cbn [fst]. split; [right; left; reflexivity|].
      split.
      * apply Hc. reflexivity.
      * intros Hp. destruct (Hc _ Hp) as [Hrb|(response & _ & Hg & _ & Hs)].
        -- symmetry in Hrb. apply rule_based_enhancement_changes in Hrb.
           contradiction.
        -- exists response. auto.
    + apply rule_based_enhancement_changes.
    + reflexivity.
Qed.

Lemma optimize_prompt_decision_witness :
  (20 <=? length (strip (py "ok"))) && negb (is_generic plain_runtime (py "ok"))
  = false
  /\ In (EInit None)
        (effects (optimize_prompt plain_runtime (echo (py "ok")) (py "ok") None)
                 initial_world).
Proof.
  split; [reflexivity|].
  apply (proj1 (proj2 (proj2 (optimize_prompt_decision plain_runtime
                                (echo (py "ok")) (py "ok") None initial_world)))).
  reflexivity.
Defined.

(** ** [str.replace] and the splicing *)

Lemma startswith_app (old b : pystr) : startswith old (old ++ b) = true.
Proof.
  induction old as [|c old IH]; simpl; [reflexivity|].
  rewrite N.eqb_refl. exact IH.
Qed.

Lemma replace_from_skip (old new x b : pystr) :
  replace_from old new (length x) (x ++ b) = replace_from old new 0 b.
Proof.
  induction x as [|c x IH]; simpl; [|exact IH].
  destruct b; reflexivity.
Qed.

Lemma replace_from_first (old new a b : pystr) :
  old <> [] ->
  absent_before old (a ++ old ++ b) (length a) ->
  replace_from old new 0 (a ++ old ++ b)
  = a ++ new ++ replace_from old new 0 b.
Proof.
  intros Hne. induction a as [|c a IH]; intros Ha.
  - destruct old as [|o old]; [congruence|].
    cbn [app replace_from].
    rewrite (startswith_app (o :: old) b : startswith (o :: old) (o :: old ++ b) = true).
    replace (length (o :: old) - 1) with (length old) by (simpl; lia).
    rewrite replace_from_skip. reflexivity.
  - cbn [app replace_from]. pose proof (Ha 0 ltac:(simpl; lia)) as H0.
    cbn [skipn app] in H0. rewrite H0. f_equal. apply IH.
    intros i Hi. apply (Ha (S i)). simpl. lia.
Qed.

Lemma replace_from_absent (old new s : pystr) :
  absent_before old s (length s) -> replace_from old new 0 s = s.
Proof.
  induction s as [|c s IH]; intros Ha; [reflexivity|].
  cbn [replace_from]. pose proof (Ha 0 ltac:(simpl; lia)) as H0.
  cbn [skipn] in H0. rewrite H0. f_equal. apply IH.
  intros i Hi. apply (Ha (S i)). simpl. lia.
Qed.

(** The first reply, when it is an object that is not empty and whose
    [html] is a string, is spliced and returned. *)
Lemma first_reply_spliced (rt : runtime) (svc : service)
    (prompt : pystr) (api_key model_source : option pystr) (retries : Z)
    (w : world) (response : pystr) (d : list (pystr * json)) (h : pystr) :
  (0 <= retries)%Z ->
  init_client svc api_key = None ->
  generate_content svc (calls w) (format_prompt prompt) = Text response ->
  extract_json rt response = JDict d ->
  d <> [] ->
  get_or_empty (py "html") d = JStr h ->
  fst (generate_code_from_prompt rt svc prompt api_key model_source retries w)
  = replace (py "</body>")
      (py "<script>" ++ fmt rt (get_or_empty (py "js") d) ++ py "</script></body>")
      (replace (py "</head>")
         (py "<style>" ++ fmt rt (get_or_empty (py "css") d) ++ py "</style></head>")
         h).
Proof.
  intros Hr Hi Hg Hd Hne Hh.
  pose proof (generate_code_run rt svc prompt api_key model_source retries w) as H.
  cbv zeta in H. rewrite Hi in H.
  replace (Z.to_nat (retries + 1)) with (S (Z.to_nat retries)) in H by lia.
  cbn [loop_summary] in H. rewrite Hg in H. cbn [attempt_outcome] in H.
  unfold reply_outcome, splice in H. rewrite Hd, Hh in H.
  destruct d as [|kv d']; [congruence|]. cbn [py_truthy] in H.
  destruct H as (D & _). exact D.
Qed.

(** The same in whichever pass of the loop the reply arrives. *)
Lemma pass_reply_spliced (rt : runtime) (svc : service) (formatted : pystr)
    (k : nat) (attempt : Z) (last_exception : option exn) (w : world)
    (response : pystr) (d : list (pystr * json)) (h : pystr) :
  generate_content svc (calls w) formatted = Text response ->
  extract_json rt response = JDict d ->
  d <> [] ->
  get_or_empty (py "html") d = JStr h ->
  fst (retry_loop rt svc formatted (S k) attempt last_exception w)
  = replace (py "</body>")
      (py "<script>" ++ fmt rt (get_or_empty (py "js") d) ++ py "</script></body>")
      (replace (py "</head>")
         (py "<style>" ++ fmt rt (get_or_empty (py "css") d) ++ py "</style></head>")
         h).
Proof.
  intros Hg Hd Hne Hh.
  pose proof (retry_loop_effects rt svc formatted (S k) attempt last_exception w) as H.
  cbv zeta in H. cbn [loop_summary] in H. rewrite Hg in H.
  cbn [attempt_outcome] in H. unfold reply_outcome, splice in H.
  rewrite Hd, Hh in H. destruct d as [|kv d']; [congruence|].
  cbn [py_truthy] in H. destruct H as (D & _). exact D.
Qed.

(** C2, as the specification words it, fails: when the HTML of the reply
    closes the head twice, the style block is inserted before both closing
    tags, where a replacement of the first occurrence would insert it
    once. *)
Lemma every_occurrence_is_replaced :
  fst (generate_code_from_prompt plain_runtime (always (Text two_heads_reply))
         (py "a clock") None None 2 initial_world)
  = py "<head><style></style></head><style></style></head>"
  /\ replace_first (py "</body>") (py "<script></script></body>")
       (replace_first (py "</head>") (py "<style></style></head>")
          (py "<head></head></head>"))
     = py "<head><style></style></head></head>"
  /\ py "<head><style></style></head><style></style></head>"
     <> py "<head><style></style></head></head>".
Proof. repeat split; try (vm_compute; reflexivity). vm_compute. discriminate. Qed.

(** C2, amended.  In whichever pass of the loop a reply arrives that is
    extracted as an object with some key and a string as [html], the
    document returned is that string in which every occurrence of the
    closing head tag, taken from left to right without overlap, is
    replaced by the style block followed by the tag, and then every
    occurrence of the closing body tag by the script block followed by the
    tag.  A replacement puts the new text where the first occurrence was
    and goes on in the same way after it; it changes nothing when there is
    no occurrence.  For the reply of the specification's example the call
    returns the document given there. *)
Theorem splice_replaces_every_occurrence :
  (forall (rt : runtime) (svc : service) (formatted : pystr) (k : nat)
          (attempt : Z) (last_exception : option exn) (w : world)
          (response : pystr) (d : list (pystr * json)) (h : pystr),
     generate_content svc (calls w) formatted = Text response ->
     extract_json rt response = JDict d ->
     d <> [] ->
     get_or_empty (py "html") d = JStr h ->
     fst (retry_loop rt svc formatted (S k) attempt last_exception w)
     = replace (py "</body>")
         (py "<script>" ++ fmt rt (get_or_empty (py "js") d)
          ++ py "</script></body>")
         (replace (py "</head>")
            (py "<style>" ++ fmt rt (get_or_empty (py "css") d)
             ++ py "</style></head>") h))
  /\ (forall old new a b : pystr,
        old <> [] ->
        absent_before old (a ++ old ++ b) (length a) ->
        replace old new (a ++ old ++ b) = a ++ new ++ replace old new b)
  /\ (forall old new s : pystr,
        old <> [] ->
        absent_before old s (length s) ->
        replace old new s = s)
  /\ (forall (rt : runtime) (svc : service) (prompt : pystr)
             (api_key model_source : option pystr) (retries : Z) (w : world),
        (0 <= retries)%Z ->
        init_client svc api_key = None ->
        generate_content svc (calls w) (format_prompt prompt)
        = Text example_reply ->
        fst (generate_code_from_prompt rt svc prompt api_key model_source
               retries w)
        = py "<html><head><style>body{color:red}</style></head><body><script>console.log(1)</script></body></html>").
Proof.
  split; [|split; [|split]].
  - intros. apply pass_reply_spliced with (response := response); assumption.
  - intros old new a b Hne Ha. destruct old as [|o old]; [congruence|].
    unfold replace. apply replace_from_first; [discriminate | exact Ha].
  - intros old new s Hne Ha. destruct old as [|o old]; [congruence|].
    unfold replace. apply replace_from_absent. exact Ha.
  - intros rt svc prompt api_key model_source retries w Hr Hi Hg.
    assert (He : extract_json rt example_reply
                 = JDict [(py "html", JStr (py "<html><head></head><body></body></html>"));
                          (py "css", JStr (py "body{color:red}"));
                          (py "js", JStr (py "console.log(1)"));
                          (py "name", JStr (py "X"))]).
    { unfold extract_json, extract_json_run.
      replace (json_loads (clean example_reply))
        with (Some (JDict [(py "html", JStr (py "<html><head></head><body></body></html>"));
                           (py "css", JStr (py "body{color:red}"));
                           (py "js", JStr (py "console.log(1)"));
                           (py "name", JStr (py "X"))]))
        by (vm_compute; reflexivity).
      reflexivity. }
    rewrite (@first_reply_spliced rt svc prompt api_key model_source retries w
               example_reply _ (py "<html><head></head><body></body></html>")
               Hr Hi Hg He);
      [vm_compute; reflexivity | discriminate | vm_compute; reflexivity].
Qed.

Lemma splice_replaces_every_occurrence_witness :
  (0 <= 2)%Z
  /\ init_client (always (Text example_reply)) None = None
  /\ fst (generate_code_from_prompt plain_runtime (always (Text example_reply))
            (py "a clock") None None 2 initial_world)
     = py "<html><head><style>body{color:red}</style></head><body><script>console.log(1)</script></body></html>".
Proof.
  split; [lia|]. split; [reflexivity|].
  apply (proj2 (proj2 (proj2 splice_replaces_every_occurrence)));
    [lia | reflexivity | reflexivity].
Defined.

(* ------------------------------------------------------------------ *)
(** * The decoder reads its input locally *)
(* ------------------------------------------------------------------ *)

Lemma digit_not_space (c : N) : is_digit c = true -> is_space c = false.
Proof. intros H. chars. Qed.

Lemma ws_is_space (c : N) : is_ws c = true -> is_space c = true.
Proof. intros H. chars. Qed.

(** ** [dropwhile] and [strip] *)

Lemma dropwhile_all (p : N -> bool) (a s : pystr) :
  forallb p a = true -> dropwhile p (a ++ s) = dropwhile p s.
Proof.
  induction a as [|c a IH]; simpl; [reflexivity|].
  intros H. apply andb_prop in H. destruct H as [Hc Ha].
  rewrite Hc. auto.
Qed.

Lemma dropwhile_split (p : N -> bool) (s : pystr) :
  exists a, s = a ++ dropwhile p s /\ forallb p a = true.
Proof.
  induction s as [|c s (a & Hs & Ha)]; simpl.
  - exists []. auto.
  - destruct (p c) eqn:Ec.
    + exists (c :: a). simpl. rewrite Ec, Ha. split; [f_equal; exact Hs | reflexivity].
    + exists []. auto.
Qed.

Lemma forallb_ws_space (a : pystr) :
  forallb is_ws a = true -> forallb is_space a = true.
Proof.
  induction a as [|c a IH]; simpl; [reflexivity|].
  intros H. apply andb_prop in H. destruct H as [Hc Ha].
  rewrite (ws_is_space _ Hc), IH; auto.
Qed.

Lemma forallb_rev_true (p : N -> bool) (a : pystr) :
  forallb p a = true -> forallb p (rev a) = true.
Proof.
  induction a as [|c a IH]; simpl; [reflexivity|].
  intros H. apply andb_prop in H. destruct H as [Hc Ha].
  rewrite forallb_app, IH by exact Ha. simpl. rewrite Hc. reflexivity.
Qed.

(** Stripping removes white space around a text with clean ends, and
    nothing else. *)
Lemma strip_core (a core b : pystr) :
  forallb is_space a = true -> forallb is_space b = true ->
  starts_clean core -> ends_clean core ->
  strip (a ++ core ++ b) = core.
Proof.
  intros Ha Hb (c & t & Hc & Hcs) (t' & c' & Hc' & Hcs').
  unfold strip, rstrip, lstrip.
  rewrite app_assoc, rev_app_distr.
  rewrite dropwhile_all by (apply forallb_rev_true; exact Hb).
  assert (Hr : dropwhile is_space (rev (a ++ core)) = rev (a ++ core)).
  { rewrite rev_app_distr, Hc', rev_app_distr. simpl. rewrite Hcs'. reflexivity. }
  rewrite Hr, rev_involutive, dropwhile_all by exact Ha.
  rewrite Hc. simpl. rewrite Hcs. reflexivity.
Qed.

(** ** White space and digits *)

Lemma skip_ws_local (s : pystr) (c : N) (r : pystr) :
  skip_ws s = c :: r ->
  exists a, s = a ++ c :: r /\ forallb is_ws a = true /\ is_ws c = false
            /\ forall r', skip_ws (a ++ c :: r') = c :: r'.
Proof.
  intros H. unfold skip_ws in *.
  destruct (dropwhile_split is_ws s) as (a & Hs & Ha). rewrite H in Hs.
  exists a. pose proof (dropwhile_head _ _ H) as Hc.
  repeat split; auto.
  intros r'. rewrite dropwhile_all by exact Ha. simpl. rewrite Hc. reflexivity.
Qed.

Lemma skip_ws_nil (s : pystr) : skip_ws s = [] -> forallb is_ws s = true.
Proof.
  intros H. destruct (dropwhile_split is_ws s) as (a & Hs & Ha).
  unfold skip_ws in H. rewrite H, app_nil_r in Hs. subst a. exact Ha.
Qed.

Lemma span_digits_spec (s ds r : pystr) :
  span_digits s = (ds, r) ->
  s = ds ++ r /\ forallb is_digit ds = true
  /\ match r with [] => True | c :: _ => is_digit c = false end.
Proof.
  revert ds r. induction s as [|c s IH]; intros ds r; simpl.
  - intros H. injection H as <- <-. auto.
  - destruct (is_digit c) eqn:Ec.
    + destruct (span_digits s) as [ds' r'] eqn:Es. intros H. injection H as <- <-.
      destruct (IH _ _ eq_refl) as (-> & Hd & Hr). simpl. rewrite Ec. auto.
    + intros H. injection H as <- <-. simpl. rewrite Ec. auto.
Qed.

Lemma span_digits_app (ds r : pystr) :
  forallb is_digit ds = true ->
  match r with [] => True | c :: _ => is_digit c = false end ->
  span_digits (ds ++ r) = (ds, r).
Proof.
  intros Hd Hr. induction ds as [|c ds IH]; simpl in *.
  - destruct r as [|c r]; [reflexivity|]. simpl. rewrite Hr. reflexivity.
  - apply andb_prop in Hd. destruct Hd as [Hc Hd]. rewrite Hc, IH; auto.
Qed.

(** ** Strings *)

Lemma scanstring_local_bounded (n : nat) :
  forall s acc hi v r,
    length s <= n ->
    scanstring s acc hi = Some (v, r) ->
    exists t, s = (t ++ [dq]) ++ r
              /\ forall r', scanstring ((t ++ [dq]) ++ r') acc hi = Some (v, r').
Proof.
  induction n as [|n IH]; intros s acc hi v r Hn H.
  - destruct s; [discriminate | simpl in Hn; lia].
  - destruct s as [|c t]; [discriminate|]. cbn [scanstring] in H.
    destruct (c =? dq)%N eqn:Eq.
    { injection H as <- <-. apply N.eqb_eq in Eq. subst c.
      exists []. split; [reflexivity|]. intros r'. reflexivity. }
    destruct (c =? bs)%N eqn:Eb.
    + destruct t as [|e t1]; [discriminate|].
      destruct (is_ch "u" e) eqn:Eu.
      * destruct t1 as [|h1 [|h2 [|h3 [|h4 t2]]]]; try discriminate.
        destruct (hex4 h1 h2 h3 h4) as [u|] eqn:Eh; [|discriminate].
        assert (Hl : length t2 <= n) by (simpl in Hn; lia).
        destruct acc as [|h acc'];
          [|destruct (hi && is_low_surrogate u) eqn:Ep];
          destruct (IH _ _ _ _ _ Hl H) as (t0 & -> & Hall);
          exists (c :: e :: h1 :: h2 :: h3 :: h4 :: t0);
          (split; [reflexivity|]); intros r';
          cbn [app scanstring]; rewrite Eq, Eb, Eu, Eh, ?Ep; apply Hall.
      * destruct (backslash e) as [ch|] eqn:Ek; [|discriminate].
        assert (Hl : length t1 <= n) by (simpl in Hn; lia).
        destruct (IH _ _ _ _ _ Hl H) as (t0 & -> & Hall).
        exists (c :: e :: t0). split; [reflexivity|]. intros r'.
        cbn [app scanstring]. rewrite Eq, Eb, Eu, Ek. apply Hall.
    + destruct (c <=? 31)%N eqn:Ec; [discriminate|].
      assert (Hl : length t <= n) by (simpl in Hn; lia).
      destruct (IH _ _ _ _ _ Hl H) as (t0 & -> & Hall).
      exists (c :: t0). split; [reflexivity|]. intros r'.
      cbn [app scanstring]. rewrite Eq, Eb, Ec. apply Hall.
Qed.

Lemma scanstring_local (s acc : pystr) (hi : bool) (v r : pystr) :
  scanstring s acc hi = Some (v, r) ->
  exists t, s = (t ++ [dq]) ++ r
            /\ forall r', scanstring ((t ++ [dq]) ++ r') acc hi = Some (v, r').
Proof. apply scanstring_local_bounded with (n := length s). lia. Qed.

(** ** Constants *)

Lemma startswith_split (p s : pystr) :
  startswith p s = true -> s = p ++ skipn (length p) s.
Proof.
  revert s. induction p as [|a p IH]; intros s; simpl; [reflexivity|].
  destruct s as [|b s]; [discriminate|]. intros H.
  apply andb_prop in H. destruct H as [Hab Hp]. apply N.eqb_eq in Hab.
  subst b. f_equal. apply IH. exact Hp.
Qed.

Lemma match_constant_local (s : pystr) (v : json) (r : pystr) :
  match_constant s = Some (v, r) ->
  exists core, s = core ++ r /\ starts_clean core /\ ends_clean core
               /\ forall r', match_constant (core ++ r') = Some (v, r').
Proof.
  unfold match_constant. intros H.
  repeat match type of H with
  | (if startswith ?p s then _ else _) = _ =>
      destruct (startswith p s) eqn:?E;
      [ injection H as <- <-; apply startswith_split in E;
        exists p; split; [exact E|];
        split; [eexists; eexists; split; [reflexivity | reflexivity]|];
        split; [exists (removelast p), (last p 0%N);
                split; [reflexivity | reflexivity]|];
        intros r'; reflexivity
      | clear E ]
  end.
  discriminate.
Qed.

(** ** Numbers *)

Lemma not_digit_head_spec (y : pystr) :
  not_digit_head y = true ->
  match y with [] => True | c :: _ => is_digit c = false end.
Proof.
  destruct y as [|c y]; simpl; [auto|]. intros H.
  apply Bool.negb_true_iff in H. exact H.
Qed.

Lemma ends_digit_app (a b : pystr) : ends_digit b -> ends_digit (a ++ b).
Proof.
  intros (t & c & -> & Hc). exists (a ++ t), c.
  rewrite app_assoc. auto.
Qed.

Lemma ends_digit_all (ds : pystr) :
  ds <> [] -> forallb is_digit ds = true -> ends_digit ds.
Proof.
  intros Hne Hd. destruct (exists_last Hne) as (t & c & ->).
  exists t, c. split; [reflexivity|].
  rewrite forallb_app in Hd. apply andb_prop in Hd. destruct Hd as [_ Hc].
  simpl in Hc. rewrite andb_true_r in Hc. exact Hc.
Qed.

Lemma match_int_part_local (s ids r : pystr) :
  match_int_part s = Some (ids, r) ->
  s = ids ++ r /\ ids <> [] /\ forallb is_digit ids = true
  /\ forall y, not_digit_head y = true ->
               match_int_part (ids ++ y) = Some (ids, y).
Proof.
  unfold match_int_part. destruct s as [|c t]; [discriminate|].
  destruct (is_ch "0" c) eqn:E0.
  - intros H. injection H as <- <-.
    assert (Hd : is_digit c = true) by chars.
    repeat split; [discriminate | simpl; rewrite Hd; reflexivity |].
    intros y _. simpl. rewrite E0. reflexivity.
  - destruct (is_digit c) eqn:Ed; [|discriminate].
    destruct (span_digits t) as [ds r0] eqn:Es. intros H. injection H as <- <-.
    destruct (span_digits_spec _ Es) as (-> & Hds & _).
    repeat split; [discriminate | simpl; rewrite Ed; exact Hds |].
    intros y Hy. cbn [app]. rewrite E0, Ed.
    rewrite span_digits_app;
      [reflexivity | exact Hds | apply not_digit_head_spec; exact Hy].
Qed.

Lemma match_frac_local (s : pystr) (frac : option pystr) (r : pystr) :
  match_frac s = (frac, r) ->
  exists core,
    s = core ++ r
    /\ (core = [] /\ frac = None
        \/ (exists t, core = ord "." :: t) /\ ends_digit core)
    /\ forall y, not_frac_head y = true -> match_frac (core ++ y) = (frac, y).
Proof.
  unfold match_frac.
  assert (Hnone : forall y, not_frac_head y = true ->
            match y with
            | d :: f :: t =>
                if is_ch "." d && is_digit f
                then let (fs, r0) := span_digits t in (Some (f :: fs), r0)
                else (None, y)
            | _ => (@None pystr, y)
            end = (None, y)).
  { intros [|d [|f t]] Hy; try reflexivity.
    simpl in Hy. destruct (is_ch "." d) eqn:Ed; [|reflexivity].
    rewrite orb_true_r in Hy. discriminate. }
  destruct s as [|d [|f t]].
  - intros H. injection H as <- <-. exists []. repeat split; auto.
  - intros H. injection H as <- <-. exists []. repeat split; auto.
  - destruct (is_ch "." d && is_digit f) eqn:E.
    + destruct (span_digits t) as [fs r0] eqn:Es. intros H. injection H as <- <-.
      destruct (span_digits_spec _ Es) as (-> & Hfs & _).
      apply andb_prop in E. destruct E as [Edot Ef].
      assert (d = ord ".") by (apply N.eqb_eq; exact Edot). subst d.
      exists (ord "." :: f :: fs). split; [reflexivity|]. split.
      * right. split; [eexists; reflexivity|].
        apply (ends_digit_app [ord "."]). apply ends_digit_all; [discriminate|].
        simpl. rewrite Ef. exact Hfs.
      * intros y Hy. cbn [app]. rewrite Edot, Ef. cbn [andb].
        rewrite span_digits_app; [reflexivity | exact Hfs |].
        destruct y as [|c y]; [exact I|]. simpl in Hy.
        apply Bool.negb_true_iff, Bool.orb_false_iff in Hy. tauto.
    + intros H. injection H as <- <-. exists []. repeat split; auto.
Qed.

Lemma match_exp_local (s : pystr) (exp : option (bool * pystr)) (r : pystr) :
  match_exp s = (exp, r) ->
  exists core,
    s = core ++ r
    /\ (core = [] /\ exp = None
        \/ (exists c t, core = c :: t /\ is_digit c = false /\ is_ch "." c = false)
           /\ ends_digit core)
    /\ forall y, delimits y = true -> match_exp (core ++ y) = (exp, y).
Proof.
  assert (Hnone : forall y, delimits y = true -> match_exp y = (None, y)).
  { intros [|c y] Hy; [reflexivity|]. unfold match_exp. simpl in Hy.
    apply Bool.negb_true_iff in Hy.
    destruct (is_ch "e" c || is_ch "E" c) eqn:E; [|reflexivity].
    rewrite <- !orb_assoc in Hy. apply Bool.orb_false_iff in Hy.
    destruct Hy as [_ Hy]. apply Bool.orb_false_iff in Hy.
    destruct Hy as [_ Hy]. congruence. }
  unfold match_exp at 1. destruct s as [|e t].
  { intros H. injection H as <- <-. exists []. repeat split; auto. }
  destruct (is_ch "e" e || is_ch "E" e) eqn:Ee.
  2:{ intros H. injection H as <- <-. exists []. repeat split; auto. }
  assert (Hsplit : exists sg sgn t',
            t = sg ++ t'
            /\ match t with
               | g :: u =>
                   if is_ch "-" g then (true, u)
                   else if is_ch "+" g then (false, u) else (false, t)
               | [] => (false, t)
               end = (sgn, t')
            /\ (sg = [] \/ exists g, sg = [g] /\ (is_ch "-" g || is_ch "+" g) = true)
            /\ forall es y, es <> [] -> forallb is_digit es = true ->
                 t' = es ++ skipn (length es) t' ->
                 match sg ++ es ++ y with
                 | g :: u =>
                     if is_ch "-" g then (true, u)
                     else if is_ch "+" g then (false, u) else (false, sg ++ es ++ y)
                 | [] => (false, sg ++ es ++ y)
                 end = (sgn, es ++ y)).
  { destruct t as [|g u].
    - exists [], false, []. repeat split; auto.
      intros es y Hne. destruct es; [congruence|]. simpl. discriminate.
    - destruct (is_ch "-" g) eqn:Em.
      + exists [g], true, u. repeat split.
        * right. exists g. rewrite Em. auto.
        * intros es y _ _ _. cbn [app]. rewrite Em. reflexivity.
      + destruct (is_ch "+" g) eqn:Ep.
        * exists [g], false, u. repeat split.
          -- right. exists g. rewrite Ep, orb_true_r. auto.
          -- intros es y _ _ _. cbn [app]. rewrite Em, Ep. reflexivity.
        * exists [], false, (g :: u). repeat split; auto.
          intros es y Hne Hd Ht. destruct es as [|d es]; [congruence|].
          cbn [app] in *. injection Ht as <- _. rewrite Em, Ep. reflexivity. }
  destruct Hsplit as (sg & sgn & t' & -> & Hsign & Hsg & Hbuild).
  rewrite Hsign. destruct (span_digits t') as [es r0] eqn:Es.
  destruct (span_digits_spec _ Es) as (Ht' & Hes & _).
  destruct es as [|d es].
  { intros H. injection H as <- <-. exists []. repeat split; auto. }
  intros H. injection H as <- <-.
  exists (e :: sg ++ d :: es). split.
  { subst t'. cbn [app]. rewrite <- app_assoc. reflexivity. }
  split.
  - right. split.
    + exists e, (sg ++ d :: es). split; [reflexivity|].
      apply Bool.orb_true_iff in Ee. split; chars.
    + apply (ends_digit_app (e :: sg)). apply ends_digit_all; [discriminate | exact Hes].
  - intros y Hy. unfold match_exp. cbn [app]. rewrite Ee.
    rewrite <- app_assoc.
    rewrite (Hbuild (d :: es) y); [|discriminate | exact Hes |].
    + rewrite span_digits_app; [reflexivity | exact Hes |].
      destruct y as [|c y]; [exact I|]. simpl in Hy.
      apply Bool.negb_true_iff in Hy. rewrite <- !orb_assoc in Hy.
      apply Bool.orb_false_iff in Hy. tauto.
    + rewrite Ht'. rewrite skipn_app, Nat.sub_diag, skipn_all. reflexivity.
Qed.

Lemma delimits_not_frac (y : pystr) : delimits y = true -> not_frac_head y = true.
Proof.
  destruct y as [|c y]; simpl; [auto|]. intros H.
  apply Bool.negb_true_iff in H. apply Bool.negb_true_iff.
  rewrite <- !orb_assoc in H. apply Bool.orb_false_iff in H.
  destruct H as [Hd H]. apply Bool.orb_false_iff in H. destruct H as [Hp _].
  rewrite Hd, Hp. reflexivity.
Qed.

Lemma not_frac_not_digit (y : pystr) :
  not_frac_head y = true -> not_digit_head y = true.
Proof.
  destruct y as [|c y]; simpl; [auto|]. intros H.
  apply Bool.negb_true_iff, Bool.orb_false_iff in H. destruct H as [Hd _].
  rewrite Hd. reflexivity.
Qed.

Lemma ends_digit_clean (core : pystr) : ends_digit core -> ends_clean core.
Proof.
  intros (t & c & -> & Hc). exists t, c. auto using digit_not_space.
Qed.

Lemma digit_not_minus (d : N) : is_digit d = true -> is_ch "-" d = false.
Proof. intros H. chars. Qed.

Lemma match_number_local (s : pystr) (v : json) (r : pystr) :
  match_number s = Some (v, r) ->
  exists core,
    s = core ++ r /\ starts_clean core /\ ends_clean core
    /\ forall r', delimits r' = true -> match_number (core ++ r') = Some (v, r').
Proof.
  unfold match_number.
  assert (Hsign : exists sign neg s1,
            s = sign ++ s1
            /\ match s with
               | c :: t => if is_ch "-" c then (true, t) else (false, s)
               | [] => (false, s)
               end = (neg, s1)
            /\ (sign = [] \/ sign = [ord "-"])
            /\ forall d z, is_digit d = true ->
                 match sign ++ d :: z with
                 | c :: t => if is_ch "-" c then (true, t) else (false, sign ++ d :: z)
                 | [] => (false, sign ++ d :: z)
                 end = (neg, d :: z)).
  { destruct s as [|c t].
    - exists [], false, []. repeat split; auto.
      intros d z Hd. cbn [app]. rewrite (digit_not_minus _ Hd).
      reflexivity.
    - destruct (is_ch "-" c) eqn:Em.
      + exists [c], true, t. repeat split.
        * right. f_equal. apply N.eqb_eq. exact Em.
        * intros d z _. cbn [app]. rewrite Em. reflexivity.
      + exists [], false, (c :: t). repeat split; auto.
        intros d z Hd. cbn [app]. rewrite (digit_not_minus _ Hd).
        reflexivity. }
  destruct Hsign as (sign & neg & s1 & -> & -> & Hsg & Hbuild).
  destruct (match_int_part s1) as [[ids r1]|] eqn:Ei; [|discriminate].
  destruct (match_frac r1) as [frac r2] eqn:Ef.
  destruct (match_exp r2) as [exp r3] eqn:Ee.
  intros H. injection H as <- <-.
  destruct (match_int_part_local _ Ei) as (-> & Hne & Hids & Bi).
  destruct (match_frac_local _ Ef) as (fcore & -> & Hf & Bf).
  destruct (match_exp_local _ Ee) as (ecore & -> & He & Be).
  exists (sign ++ ids ++ fcore ++ ecore). split.
  { rewrite <- !app_assoc. reflexivity. }
  destruct ids as [|d ids]; [congruence|].
  assert (Hd : is_digit d = true).
  { simpl in Hids. apply andb_prop in Hids. tauto. }
  split; [|split].
  - destruct Hsg as [->| ->].
    + exists d, (ids ++ fcore ++ ecore). split; [reflexivity|].
      apply digit_not_space. exact Hd.
    + eexists. eexists. split; [reflexivity | reflexivity].
  - apply ends_digit_clean. apply ends_digit_app.
    destruct He as [[-> _]|[_ He]].
    + rewrite app_nil_r. destruct Hf as [[-> _]|[_ Hf]].
      * rewrite app_nil_r. apply ends_digit_all; [discriminate | exact Hids].
      * apply ends_digit_app. exact Hf.
    + rewrite app_assoc. apply ends_digit_app. exact He.
  - intros r' Hr.
    assert (Hy2 : not_frac_head (ecore ++ r') = true).
    { destruct He as [[-> _]|[(c & t & -> & Hcd & Hcp) _]].
      - apply delimits_not_frac. exact Hr.
      - simpl. rewrite Hcd, Hcp. reflexivity. }
    assert (Hy1 : not_digit_head (fcore ++ ecore ++ r') = true).
    { destruct Hf as [[-> _]|[(t & ->) _]].
      - apply not_frac_not_digit. exact Hy2.
      - reflexivity. }
    rewrite <- !app_assoc. cbn [app]. rewrite (Hbuild d _ Hd).
    change (d :: ids ++ fcore ++ ecore ++ r')
      with ((d :: ids) ++ fcore ++ ecore ++ r').
    rewrite (Bi _ Hy1), (Bf _ Hy2), (Be _ Hr). reflexivity.
Qed.

(** ** Values *)

Lemma starts_clean_cons (c : N) (t : pystr) :
  is_space c = false -> starts_clean (c :: t).
Proof. intros H. exists c, t. auto. Qed.

Lemma ends_clean_last (t : pystr) (c : N) :
  is_space c = false -> ends_clean (t ++ [c]).
Proof. intros H. exists t, c. auto. Qed.

Lemma ends_clean_app (a b : pystr) : ends_clean b -> ends_clean (a ++ b).
Proof.
  intros (t & c & -> & Hc). exists (a ++ t), c. rewrite app_assoc. auto.
Qed.

Lemma skip_ws_prefix (a : pystr) (c : N) (x : pystr) :
  forallb is_ws a = true -> is_ws c = false -> skip_ws (a ++ c :: x) = c :: x.
Proof.
  intros Ha Hc. unfold skip_ws. rewrite dropwhile_all by exact Ha.
  simpl. rewrite Hc. reflexivity.
Qed.

(** White space is skipped up to a text that was found after it. *)
Lemma skip_ws_core (x core y : pystr) :
  skip_ws x = core ++ y -> ends_clean core ->
  exists a, x = a ++ core ++ y /\ forallb is_ws a = true
            /\ forall z, skip_ws (a ++ core ++ z) = core ++ z.
Proof.
  intros H (t & c & Hc & _).
  destruct core as [|c0 core']; [destruct t; discriminate|].
  cbn [app] in H. destruct (skip_ws_local _ H) as (a & Hx & Ha & Hc0 & _).
  exists a. repeat split; auto. intros z. cbn [app].
  apply skip_ws_prefix; assumption.
Qed.

Lemma delimits_after_ws (a : pystr) (c : N) (x : pystr) :
  forallb is_ws a = true ->
  is_ch "}" c || is_ch "," c || is_ch "]" c = true ->
  delimits (a ++ c :: x) = true.
Proof.
  intros Ha Hc. destruct a as [|w a]; simpl.
  - apply Bool.negb_true_iff. chars.
  - simpl in Ha. apply andb_prop in Ha. destruct Ha as [Hw _].
    apply Bool.negb_true_iff. chars.
Qed.

Lemma array_loop_eq (n : nat) (s : pystr) (acc : list json) :
  array_loop (S n) s acc =
  match scan_once n s with
  | Ok v r =>
      match skip_ws r with
      | c :: r1 =>
          if is_ch "]" c then Ok (JList (rev (v :: acc))) r1
          else if is_ch "," c then array_loop n (skip_ws r1) (v :: acc)
          else Fail
      | [] => Fail
      end
  | Fail => Fail
  | OutOfFuel => OutOfFuel
  end.
Proof. reflexivity. Qed.

Lemma array_step_local (n : nat) :
  reads_locally (scan_once n) delimits ->
  (forall acc, reads_locally (fun s => array_loop n s acc) (fun _ => true)) ->
  forall acc, reads_locally (fun s => array_loop (S n) s acc) (fun _ => true).
Proof.
  intros IHs IHa acc s v r. rewrite array_loop_eq.
  destruct (scan_once n s) as [v1 r1| |] eqn:E1; try discriminate.
  destruct (IHs _ _ _ E1) as (core1 & -> & Hc1 & B1).
  destruct (skip_ws r1) as [|c r2] eqn:E2; [discriminate|].
  destruct (skip_ws_local _ E2) as (a & -> & Ha & Hc & B2).
  destruct (is_ch "]" c) eqn:Eb.
  - intros H. injection H as <- <-.
    exists (core1 ++ a ++ [c]). split; [rewrite <- !app_assoc; reflexivity|].
    split.
    + rewrite app_assoc. apply ends_clean_last. chars.
    + intros r' _. rewrite array_loop_eq, <- !app_assoc. cbn [app].
      rewrite B1 by (apply delimits_after_ws; [exact Ha | rewrite Eb, !orb_true_r; reflexivity]).
      rewrite B2, Eb. reflexivity.
  - destruct (is_ch "," c) eqn:Ec; [|discriminate]. intros H.
    destruct (IHa _ _ _ _ H) as (core3 & E3 & Hc3 & B3).
    destruct (@skip_ws_core _ _ _ E3 Hc3) as (a2 & -> & Ha2 & B4).
    exists (core1 ++ a ++ c :: a2 ++ core3). split.
    { rewrite <- !app_assoc. cbn [app]. rewrite <- !app_assoc. reflexivity. }
    split.
    + rewrite app_assoc. apply (ends_clean_app (core1 ++ a)).
      apply (ends_clean_app (c :: a2)). exact Hc3.
    + intros r' _. rewrite array_loop_eq, <- !app_assoc. cbn [app].
      rewrite B1 by (apply delimits_after_ws; [exact Ha | rewrite Ec, orb_true_r; reflexivity]).
      rewrite B2, Eb, Ec, <- app_assoc, B4. apply B3. reflexivity.
Qed.

Lemma scanstring_key (s key r : pystr) :
  scanstring s [] false = Some (key, r) ->
  exists t, s = t ++ dq :: r
            /\ forall r', scanstring (t ++ dq :: r') [] false = Some (key, r').
Proof.
  intros H. destruct (scanstring_local _ _ _ H) as (t & -> & B).
  exists t. split; [norm_app; reflexivity|].
  intros r'. specialize (B r'). rewrite <- app_assoc in B. exact B.
Qed.

Lemma object_loop_eq (n : nat) (s : pystr) (pairs : list (pystr * json)) :
  object_loop (S n) s pairs =
  match scanstring s [] false with
  | None => Fail
  | Some (key, r) =>
      match skip_ws r with
      | c :: r1 =>
          if is_ch ":" c then
            match scan_once n (skip_ws r1) with
            | Ok v r2 =>
                match skip_ws r2 with
                | c2 :: r3 =>
                    if is_ch "}" c2
                    then Ok (JDict (py_dict (rev ((key, v) :: pairs)))) r3
                    else if is_ch "," c2 then
                      match skip_ws r3 with
                      | q :: r4 =>
                          if (q =? dq)%N
                          then object_loop n r4 ((key, v) :: pairs)
                          else Fail
                      | [] => Fail
                      end
                    else Fail
                | [] => Fail
                end
            | Fail => Fail
            | OutOfFuel => OutOfFuel
            end
          else Fail
      | [] => Fail
      end
  end.
Proof. reflexivity. Qed.

Lemma object_step_local (n : nat) :
  reads_locally (scan_once n) delimits ->
  (forall pairs, reads_locally (fun s => object_loop n s pairs) (fun _ => true)) ->
  forall pairs, reads_locally (fun s => object_loop (S n) s pairs) (fun _ => true).
Proof.
  intros IHs IHo pairs s v r. rewrite object_loop_eq.
  destruct (scanstring s [] false) as [[key r0]|] eqn:Ek; [|discriminate].
  destruct (scanstring_key _ Ek) as (t0 & -> & Bk).
  destruct (skip_ws r0) as [|c r1] eqn:E0; [discriminate|].
  destruct (skip_ws_local _ E0) as (a & -> & Ha & Hc & B0).
  destruct (is_ch ":" c) eqn:Ecol; [|discriminate].
  destruct (scan_once n (skip_ws r1)) as [v1 r2| |] eqn:E1; try discriminate.
  destruct (IHs _ _ _ E1) as (core2 & E2 & Hc2 & B2).
  destruct (@skip_ws_core _ _ _ E2 Hc2) as (a1 & -> & Ha1 & B1).
  destruct (skip_ws r2) as [|c2 r3] eqn:E3; [discriminate|].
  destruct (skip_ws_local _ E3) as (a3 & -> & Ha3 & Hc3 & B3).
  destruct (is_ch "}" c2) eqn:Eb.
  - intros H. injection H as <- <-.
    exists (t0 ++ dq :: a ++ c :: a1 ++ core2 ++ a3 ++ [c2]).
    split; [norm_app; reflexivity|]. split.
    + rewrite !app_comm_cons, !app_assoc. apply ends_clean_last. chars.
    + intros r' _. rewrite object_loop_eq. norm_app.
      rewrite Bk, B0, Ecol, B1.
      rewrite B2 by (apply delimits_after_ws; [exact Ha3 | rewrite Eb; reflexivity]).
      rewrite B3, Eb. reflexivity.
  - destruct (is_ch "," c2) eqn:Ecom; [|discriminate].
    destruct (skip_ws r3) as [|q r4] eqn:E4; [discriminate|].
    destruct (skip_ws_local _ E4) as (a4 & -> & Ha4 & Hq & B4).
    destruct (q =? dq)%N eqn:Eq; [|discriminate]. intros H.
    destruct (IHo _ _ _ _ H) as (core4 & -> & Hc4 & B5).
    exists (t0 ++ dq :: a ++ c :: a1 ++ core2 ++ a3 ++ c2 :: a4 ++ q :: core4).
    split; [norm_app; reflexivity|]. split.
    + apply (ends_clean_app t0). apply (ends_clean_app (dq :: a)).
      apply (ends_clean_app (c :: a1)). apply (ends_clean_app core2).
      apply (ends_clean_app a3). apply (ends_clean_app (c2 :: a4)).
      apply (ends_clean_app [q]). exact Hc4.
    + intros r' _. rewrite object_loop_eq. norm_app.
      rewrite Bk, B0, Ecol, B1.
      rewrite B2 by (apply delimits_after_ws;
                     [exact Ha3 | rewrite Ecom, orb_true_r; reflexivity]).
      rewrite B3, Eb, Ecom, B4, Eq. apply B5. reflexivity.
Qed.

Lemma startswith_heads (p s : pystr) :
  startswith p s = true ->
  match p, s with
  | k :: p', c :: s' =>
      k = c /\ match p', s' with
               | k' :: _, c' :: _ => k' = c'
               | _ :: _, [] => False
               | [], _ => True
               end
  | _ :: _, [] => False
  | [], _ => True
  end.
Proof.
  destruct p as [|k p]; [exact (fun _ => I)|].
  destruct s as [|c s]; [discriminate|].
  cbn [startswith]. intros H.
  apply andb_prop in H. destruct H as [H1 H]. apply N.eqb_eq in H1.
  split; [exact H1|].
  destruct p as [|k' p]; [exact I|]. destruct s as [|c' s]; [discriminate|].
  cbn [startswith] in H. apply andb_prop in H. destruct H as [H2 _].
  apply N.eqb_eq. exact H2.
Qed.

(** A text that starts with a number does not start with a constant. *)
Lemma number_not_constant (s : pystr) (v : json) (r : pystr) :
  match_number s = Some (v, r) -> match_constant s = None.
Proof.
  unfold match_number. intros H.
  assert (Hs : exists d t, is_digit d = true
                           /\ (s = d :: t \/ s = ord "-" :: d :: t)).
  { assert (Hi : forall s1, match_int_part s1 <> None ->
                   exists d t, s1 = d :: t /\ is_digit d = true).
    { intros [|d t] Hn; [elim Hn; reflexivity|]. exists d, t. split; [reflexivity|].
      unfold match_int_part in Hn. destruct (is_ch "0" d) eqn:E0; [chars|].
      destruct (is_digit d); [reflexivity | elim Hn; reflexivity]. }
    destruct s as [|c t]; [discriminate|].
    destruct (is_ch "-" c) eqn:Em.
    - destruct (match_int_part t) eqn:Et; [|discriminate].
      destruct (Hi t) as (d & t' & -> & Hd); [congruence|].
      exists d, t'. split; [exact Hd|]. right. f_equal. apply N.eqb_eq. exact Em.
    - destruct (match_int_part (c :: t)) eqn:Et; [|discriminate].
      destruct (Hi (c :: t)) as (d & t' & E & Hd); [congruence|].
      exists d, t'. split; [exact Hd|]. left. exact E. }
  assert (Hno : forall p, In p [py "null"; py "true"; py "false"; py "NaN";
                                 py "Infinity"; py "-Infinity"] ->
                     startswith p s = false).
  { intros p Hp. destruct (startswith p s) eqn:E; [exfalso|reflexivity].
    apply startswith_heads in E.
    destruct Hs as (d & t & Hd & [-> | ->]);
      repeat (destruct Hp as [<-|Hp];
              [vm_compute in E; destruct E as [E1 E2];
               try discriminate; subst; vm_compute in Hd; discriminate|]);
      destruct Hp. }
  unfold match_constant. rewrite !Hno; simpl; auto 10.
Qed.

Lemma scan_once_eq (n : nat) (c : N) (t : pystr) :
  scan_once (S n) (c :: t) =
  if (c =? dq)%N then
    match scanstring t [] false with
    | Some (str, r) => Ok (JStr str) r
    | None => Fail
    end
  else if is_ch "{" c then
    match skip_ws t with
    | q :: r =>
        if is_ch "}" q then Ok (JDict []) r
        else if (q =? dq)%N then object_loop n r []
        else Fail
    | [] => Fail
    end
  else if is_ch "[" c then
    match skip_ws t with
    | q :: r =>
        if is_ch "]" q then Ok (JList []) r
        else array_loop n (q :: r) []
    | [] => Fail
    end
  else
    match match_constant (c :: t) with
    | Some (v, r) => Ok v r
    | None =>
        match match_number (c :: t) with
        | Some (v, r) => Ok v r
        | None => Fail
        end
    end.
Proof. reflexivity. Qed.

Lemma scan_step_local (n : nat) :
  (forall pairs, reads_locally (fun s => object_loop n s pairs) (fun _ => true)) ->
  (forall acc, reads_locally (fun s => array_loop n s acc) (fun _ => true)) ->
  reads_locally (scan_once (S n)) delimits.
Proof.
  intros IHo IHa s v r. destruct s as [|c t]; [discriminate|].
  rewrite scan_once_eq.
  destruct (c =? dq)%N eqn:Eq.
  { destruct (scanstring t [] false) as [[str r0]|] eqn:Es; [|discriminate].
    intros H. injection H as <- <-.
    destruct (scanstring_key _ Es) as (t0 & -> & B).
    exists (c :: t0 ++ [dq]). split; [norm_app; reflexivity|]. split.
    - apply (ends_clean_last (c :: t0)). reflexivity.
    - intros r' _. norm_app. rewrite scan_once_eq, Eq, B. reflexivity. }
  destruct (is_ch "{" c) eqn:Eo.
  { destruct (skip_ws t) as [|q r0] eqn:E0; [discriminate|].
    destruct (skip_ws_local _ E0) as (a & -> & Ha & Hq & B0).
    destruct (is_ch "}" q) eqn:Eb.
    - intros H. injection H as <- <-.
      exists (c :: a ++ [q]). split; [norm_app; reflexivity|]. split.
      + apply (ends_clean_last (c :: a)). chars.
      + intros r' _. norm_app. rewrite scan_once_eq, Eq, Eo, B0, Eb. reflexivity.
    - destruct (q =? dq)%N eqn:Eqq; [|discriminate]. intros H.
      destruct (IHo _ _ _ _ H) as (core & -> & Hc & B).
      exists (c :: a ++ q :: core). split; [norm_app; reflexivity|]. split.
      + apply (ends_clean_app (c :: a ++ [q])) in Hc.
        revert Hc. norm_app. auto.
      + intros r' _. norm_app. rewrite scan_once_eq, Eq, Eo, B0, Eb, Eqq.
        apply B. reflexivity. }
  destruct (is_ch "[" c) eqn:Ea.
  { destruct (skip_ws t) as [|q r0] eqn:E0; [discriminate|].
    destruct (skip_ws_local _ E0) as (a & -> & Ha & Hq & B0).
    destruct (is_ch "]" q) eqn:Eb.
    - intros H. injection H as <- <-.
      exists (c :: a ++ [q]). split; [norm_app; reflexivity|]. split.
      + apply (ends_clean_last (c :: a)). chars.
      + intros r' _. norm_app.
        rewrite scan_once_eq, Eq, Eo, Ea, B0, Eb. reflexivity.
    - intros H. destruct (IHa _ _ _ _ H) as (core & E & Hc & B).
      destruct core as [|q' core'].
      { destruct Hc as (t' & c' & Ht & _). destruct t'; discriminate. }
      cbn [app] in E. injection E as <- ->.
      exists (c :: a ++ q :: core'). split; [norm_app; reflexivity|]. split.
      + apply (ends_clean_app (c :: a)) in Hc. exact Hc.
      + intros r' _. norm_app. rewrite scan_once_eq, Eq, Eo, Ea, B0, Eb.
        apply (B r'). reflexivity. }
  destruct (match_constant (c :: t)) as [[v0 r0]|] eqn:Ec.
  { intros H. injection H as <- <-.
    destruct (match_constant_local _ Ec) as (core & E & Hs & He & B).
    destruct core as [|c' core']; [destruct Hs as (? & ? & ? & _); discriminate|].
    cbn [app] in E. injection E as <- ->.
    exists (c :: core'). split; [reflexivity|]. split; [exact He|].
    intros r' _. cbn [app]. rewrite scan_once_eq, Eq, Eo, Ea.
    change (c :: core' ++ r') with ((c :: core') ++ r'). rewrite B. reflexivity. }
  destruct (match_number (c :: t)) as [[v0 r0]|] eqn:En; [|discriminate].
  intros H. injection H as <- <-.
  destruct (match_number_local _ En) as (core & E & Hs & He & B).
  destruct core as [|c' core']; [destruct Hs as (? & ? & ? & _); discriminate|].
  cbn [app] in E. injection E as <- ->.
  exists (c :: core'). split; [reflexivity|]. split; [exact He|].
  intros r' Hr. cbn [app]. rewrite scan_once_eq, Eq, Eo, Ea.
  change (c :: core' ++ r') with ((c :: core') ++ r').
  rewrite (number_not_constant _ (B r' Hr)), (B r' Hr). reflexivity.
Qed.

(** The decoder reads a value, and nothing of what follows it. *)
Lemma decoder_local (n : nat) :
  reads_locally (scan_once n) delimits
  /\ (forall pairs, reads_locally (fun s => object_loop n s pairs) (fun _ => true))
  /\ (forall acc, reads_locally (fun s => array_loop n s acc) (fun _ => true)).
Proof.
  induction n as [|n (IHs & IHo & IHa)].
  - repeat split; intros; intros s v r H; discriminate.
  - split; [|split].
    + apply scan_step_local; assumption.
    + apply object_step_local; assumption.
    + apply array_step_local; assumption.
Qed.

(** A value starts with a character that is not white space. *)
Lemma scan_once_head (n : nat) (c : N) (t : pystr) (v : json) (r : pystr) :
  scan_once n (c :: t) = Ok v r -> is_space c = false.
Proof.
  destruct n as [|n]; [discriminate|]. rewrite scan_once_eq.
  destruct (c =? dq)%N eqn:Eq; [intros _; chars|].
  destruct (is_ch "{" c) eqn:Eo; [intros _; chars|].
  destruct (is_ch "[" c) eqn:Ea; [intros _; chars|].
  destruct (match_constant (c :: t)) as [[v0 r0]|] eqn:Ec.
  { intros _. destruct (match_constant_local _ Ec) as (core & E & Hs & _).
    destruct Hs as (c' & t' & -> & Hc'). cbn [app] in E. injection E as -> _.
    exact Hc'. }
  destruct (match_number (c :: t)) as [[v0 r0]|] eqn:En; [|discriminate].
  intros _. destruct (match_number_local _ En) as (core & E & Hs & _).
  destruct Hs as (c' & t' & -> & Hc'). cbn [app] in E. injection E as -> _.
  exact Hc'.
Qed.

(* ------------------------------------------------------------------ *)
(** * The fuel of the decoder always suffices *)
(* ------------------------------------------------------------------ *)

Lemma ends_clean_length (core r : pystr) :
  ends_clean core -> length r < length (core ++ r).
Proof.
  intros (t & c & -> & _). rewrite !length_app. simpl. lia.
Qed.

Lemma scan_once_shorter (n : nat) (s : pystr) (v : json) (r : pystr) :
  scan_once n s = Ok v r -> length r < length s.
Proof.
  intros H. destruct (proj1 (decoder_local n) _ _ _ H) as (core & -> & Hc & _).
  apply ends_clean_length. exact Hc.
Qed.

Lemma skip_ws_length (s : pystr) : length (skip_ws s) <= length s.
Proof.
  destruct (dropwhile_split is_ws s) as (a & Hs & _).
  unfold skip_ws. rewrite Hs at 2. rewrite length_app. lia.
Qed.

Lemma skip_ws_shorter (s : pystr) (c : N) (r : pystr) :
  skip_ws s = c :: r -> length r < length s.
Proof.
  intros H. pose proof (skip_ws_length s) as L. rewrite H in L. simpl in L. lia.
Qed.

Lemma scanstring_shorter (s key r : pystr) :
  scanstring s [] false = Some (key, r) -> length r < length s.
Proof.
  intros H. destruct (scanstring_key _ H) as (t & -> & _).
  rewrite length_app. simpl. lia.
Qed.

(** With fuel above twice the length of the text the decoder ends. *)
Lemma decoder_ends (n : nat) :
  (forall s, 2 * length s < n -> scan_once n s <> OutOfFuel)
  /\ (forall s pairs, 2 * length s + 1 < n -> object_loop n s pairs <> OutOfFuel)
  /\ (forall s acc, 2 * length s + 1 < n -> array_loop n s acc <> OutOfFuel).
Proof.
  induction n as [|n (IHs & IHo & IHa)].
  - repeat split; intros; lia.
  - split; [|split].
    + intros [|c t] Hn; [discriminate|]. rewrite scan_once_eq.
      cbn [length] in Hn.
      destruct (c =? dq)%N.
      { destruct (scanstring t [] false) as [[? ?]|]; discriminate. }
      destruct (is_ch "{" c).
      { destruct (skip_ws t) as [|q r] eqn:E; [discriminate|].
        apply skip_ws_shorter in E.
        destruct (is_ch "}" q); [discriminate|].
        destruct (q =? dq)%N; [|discriminate]. apply IHo. lia. }
      destruct (is_ch "[" c).
      { destruct (skip_ws t) as [|q r] eqn:E; [discriminate|].
        apply skip_ws_shorter in E.
        destruct (is_ch "]" q); [discriminate|]. apply IHa. simpl. lia. }
      destruct (match_constant (c :: t)) as [[? ?]|]; [discriminate|].
      destruct (match_number (c :: t)) as [[? ?]|]; discriminate.
    + intros s pairs Hn. rewrite object_loop_eq.
      destruct (scanstring s [] false) as [[key r0]|] eqn:Ek; [|discriminate].
      apply scanstring_shorter in Ek.
      destruct (skip_ws r0) as [|c r1] eqn:E0; [discriminate|].
      apply skip_ws_shorter in E0.
      destruct (is_ch ":" c); [|discriminate].
      pose proof (skip_ws_length r1) as L1.
      destruct (scan_once n (skip_ws r1)) as [v1 r2| |] eqn:E1;
        [| discriminate | exfalso; revert E1; apply IHs; lia].
      apply scan_once_shorter in E1.
      destruct (skip_ws r2) as [|c2 r3] eqn:E3; [discriminate|].
      apply skip_ws_shorter in E3.
      destruct (is_ch "}" c2); [discriminate|].
      destruct (is_ch "," c2); [|discriminate].
      destruct (skip_ws r3) as [|q r4] eqn:E4; [discriminate|].
      apply skip_ws_shorter in E4.
      destruct (q =? dq)%N; [|discriminate]. apply IHo. lia.
    + intros s acc Hn. rewrite array_loop_eq.
      destruct (scan_once n s) as [v1 r1| |] eqn:E1;
        [| discriminate | exfalso; revert E1; apply IHs; lia].
      apply scan_once_shorter in E1.
      destruct (skip_ws r1) as [|c r2] eqn:E2; [discriminate|].
      apply skip_ws_shorter in E2.
      destruct (is_ch "]" c); [discriminate|].
      destruct (is_ch "," c); [|discriminate].
      pose proof (skip_ws_length r2) as L2. apply IHa. lia.
Qed.

(** More fuel does not change what the decoder returns. *)
Lemma decoder_fuel (n : nat) :
  (forall m s, n <= m -> scan_once n s <> OutOfFuel ->
               scan_once m s = scan_once n s)
  /\ (forall m s pairs, n <= m -> object_loop n s pairs <> OutOfFuel ->
                        object_loop m s pairs = object_loop n s pairs)
  /\ (forall m s acc, n <= m -> array_loop n s acc <> OutOfFuel ->
                      array_loop m s acc = array_loop n s acc).
Proof.
  induction n as [|n (IHs & IHo & IHa)].
  - repeat split; intros; exfalso; auto.
  - split; [|split].
    + intros [|m] s Hm; [lia|]. destruct s as [|c t]; [reflexivity|].
      rewrite !scan_once_eq.
      destruct (c =? dq)%N; [reflexivity|].
      destruct (is_ch "{" c).
      { destruct (skip_ws t) as [|q r]; [reflexivity|].
        destruct (is_ch "}" q); [reflexivity|].
        destruct (q =? dq)%N; [|reflexivity]. apply IHo. lia. }
      destruct (is_ch "[" c); [|reflexivity].
      destruct (skip_ws t) as [|q r]; [reflexivity|].
      destruct (is_ch "]" q); [reflexivity|]. apply IHa. lia.
    + intros [|m] s pairs Hm; [lia|]. rewrite !object_loop_eq.
      destruct (scanstring s [] false) as [[key r0]|]; [|reflexivity].
      destruct (skip_ws r0) as [|c r1]; [reflexivity|].
      destruct (is_ch ":" c); [|reflexivity].
      intros H.
      rewrite (IHs m (skip_ws r1)) by
        (try lia; intros E; rewrite E in H; apply H; reflexivity).
      destruct (scan_once n (skip_ws r1)) as [v1 r2| |]; try reflexivity.
      destruct (skip_ws r2) as [|c2 r3]; [reflexivity|].
      destruct (is_ch "}" c2); [reflexivity|].
      destruct (is_ch "," c2); [|reflexivity].
      destruct (skip_ws r3) as [|q r4]; [reflexivity|].
      destruct (q =? dq)%N; [|reflexivity]. apply IHo; [lia | exact H].
    + intros [|m] s acc Hm; [lia|]. rewrite !array_loop_eq. intros H.
      rewrite (IHs m s) by
        (try lia; intros E; rewrite E in H; apply H; reflexivity).
      destruct (scan_once n s) as [v1 r1| |]; try reflexivity.
      destruct (skip_ws r1) as [|c r2]; [reflexivity|].
      destruct (is_ch "]" c); [reflexivity|].
      destruct (is_ch "," c); [|reflexivity]. apply IHa; [lia | exact H].
Qed.

(** [json.loads] never runs out of fuel: when it gives no value, the text
    is not a JSON document. *)
Lemma json_loads_fuel (s : pystr) :
  scan_once (fuel_for (skip_ws s)) (skip_ws s) <> OutOfFuel.
Proof. apply (proj1 (decoder_ends _)). unfold fuel_for. lia. Qed.

(* ------------------------------------------------------------------ *)
(** * JSON inside a code fence *)
(* ------------------------------------------------------------------ *)

Lemma not_space_not_ws (c : N) : is_space c = false -> is_ws c = false.
Proof.
  intros H. destruct (is_ws c) eqn:E; [|reflexivity].
  apply ws_is_space in E. congruence.
Qed.

(** A JSON document is a value between white space, and the value alone
    is a document with the same meaning. *)
Lemma json_loads_core (j : pystr) (v : json) :
  json_loads j = Some v ->
  exists a core b,
    j = a ++ core ++ b
    /\ forallb is_space a = true /\ forallb is_space b = true
    /\ starts_clean core /\ ends_clean core
    /\ json_loads core = Some v.
Proof.
  unfold json_loads. intros H.
  destruct (dropwhile_split is_ws j) as (a & Hj & Ha).
  fold (skip_ws j) in Hj. set (s1 := skip_ws j) in *.
  destruct (scan_once (fuel_for s1) s1) as [v1 r| |] eqn:E; try discriminate.
  destruct (skip_ws r) eqn:Er; [|discriminate]. injection H as ->.
  destruct (proj1 (decoder_local _) _ _ _ E) as (core & Hs & Hc & B).
  assert (Hst : starts_clean core).
  { destruct core as [|c core'].
    - destruct Hc as (t & c & Ht & _). destruct t; discriminate.
    - apply starts_clean_cons. rewrite Hs in E. cbn [app] in E.
      apply (scan_once_head _ _ _ E). }
  exists a, core, r. split; [rewrite Hj, Hs; reflexivity|].
  split; [apply forallb_ws_space; exact Ha|].
  split; [apply forallb_ws_space, skip_ws_nil; exact Er|].
  split; [exact Hst|]. split; [exact Hc|].
  assert (Hsk : skip_ws core = core).
  { destruct Hst as (c & t & -> & Hsp). unfold skip_ws. simpl.
    rewrite (not_space_not_ws _ Hsp). reflexivity. }
  rewrite Hsk.
  specialize (B [] eq_refl). rewrite app_nil_r in B.
  assert (F : scan_once (fuel_for core) core = Ok v []).
  { rewrite <- B. symmetry. apply (proj1 (decoder_fuel _)).
    - unfold fuel_for. rewrite Hs, length_app. lia.
    - rewrite <- Hsk. apply json_loads_fuel. }
  rewrite F. reflexivity.
Qed.

(** The cleaning of [extract_json] recovers the value inside a fence. *)
Lemma clean_fenced (before after_open j before_close after a core b : pystr) :
  forallb is_space before = true -> forallb is_space after_open = true ->
  forallb is_space before_close = true -> forallb is_space after = true ->
  j = a ++ core ++ b ->
  forallb is_space a = true -> forallb is_space b = true ->
  starts_clean core -> ends_clean core ->
  clean (fenced before after_open j before_close after) = core.
Proof.
  intros H1 H2 H3 H4 -> Ha Hb Hs He. unfold clean, fenced.
  set (open := py "```json"). set (close := py "```").
  assert (Hspace : forall x y, forallb is_space x = true ->
                     forallb is_space y = true -> forallb is_space (x ++ y) = true).
  { intros x y Hx Hy. rewrite forallb_app, Hx, Hy. reflexivity. }
  assert (S1 : strip (before ++ open ++ after_open ++ (a ++ core ++ b)
                      ++ before_close ++ close ++ after)
               = open ++ after_open ++ (a ++ core ++ b) ++ before_close ++ close).
  { replace (before ++ open ++ after_open ++ (a ++ core ++ b)
             ++ before_close ++ close ++ after)
      with (before ++ (open ++ after_open ++ (a ++ core ++ b)
                       ++ before_close ++ close) ++ after)
      by (norm_app; reflexivity).
    apply strip_core; auto.
    - apply starts_clean_cons. reflexivity.
    - rewrite !app_assoc. apply (ends_clean_app _ (b := close)).
      exists (firstn 2 close), (ord "`"). split; reflexivity. }
  rewrite S1. rewrite startswith_app.
  assert (S2 : strip (slice_from (length open)
                        (open ++ after_open ++ (a ++ core ++ b)
                         ++ before_close ++ close))
               = core ++ (b ++ before_close) ++ close).
  { unfold slice_from. rewrite skipn_app, Nat.sub_diag, skipn_all. cbn [skipn app].
    replace (after_open ++ (a ++ core ++ b) ++ before_close ++ close)
      with ((after_open ++ a) ++ (core ++ (b ++ before_close) ++ close) ++ [])
      by (rewrite app_nil_r; norm_app; reflexivity).
    apply strip_core; auto.
    - destruct Hs as (c & t & -> & Hc). apply starts_clean_cons. exact Hc.
    - rewrite !app_assoc. apply (ends_clean_app _ (b := close)).
      exists (firstn 2 close), (ord "`"). split; reflexivity. }
  rewrite S2.
  assert (S3 : endswith close (core ++ (b ++ before_close) ++ close) = true).
  { unfold endswith. rewrite !app_assoc, rev_app_distr. apply startswith_app. }
  rewrite S3. unfold slice_to_neg.
  rewrite !app_assoc, length_app, Nat.add_sub, firstn_app, Nat.sub_diag, firstn_all.
  cbn [firstn]. rewrite app_nil_r.
  replace ((core ++ b) ++ before_close) with ([] ++ core ++ (b ++ before_close))
    by (norm_app; reflexivity).
  apply strip_core; auto.
Qed.

(** C6.  For every valid JSON document wrapped in a Markdown JSON code
    fence (the opening marker, the document and the closing marker, with
    any white space between and around them), [extract_json] returns the
    value that strict parsing of the document alone returns. *)
Theorem fenced_json_is_extracted (rt : runtime)
    (before after_open j before_close after : pystr) (v : json) :
  forallb is_space before = true ->
  forallb is_space after_open = true ->
  forallb is_space before_close = true ->
  forallb is_space after = true ->
  json_loads j = Some v ->
  extract_json rt (fenced before after_open j before_close after) = v.
Proof.
  intros H1 H2 H3 H4 Hj.
  destruct (json_loads_core _ Hj) as (a & core & b & E & Ha & Hb & Hs & He & Hv).
  unfold extract_json, extract_json_run.
  rewrite (@clean_fenced before after_open j before_close after a core b
             H1 H2 H3 H4 E Ha Hb Hs He).
  rewrite Hv. reflexivity.
Qed.

Lemma fenced_json_is_extracted_witness :
  json_loads example_reply
  = Some (JDict [(py "html", JStr (py "<html><head></head><body></body></html>"));
                 (py "css", JStr (py "body{color:red}"));
                 (py "js", JStr (py "console.log(1)"));
                 (py "name", JStr (py "X"))])
  /\ extract_json plain_runtime (fenced [] nl example_reply nl nl)
     = JDict [(py "html", JStr (py "<html><head></head><body></body></html>"));
              (py "css", JStr (py "body{color:red}"));
              (py "js", JStr (py "console.log(1)"));
              (py "name", JStr (py "X"))].
Proof.
  split; [vm_compute; reflexivity|].
  apply (fenced_json_is_extracted plain_runtime [] nl example_reply nl nl);
    reflexivity.
Defined.

(* ------------------------------------------------------------------ *)
(** * Further properties of the module *)
(* ------------------------------------------------------------------ *)

(** ** More on [strip] *)

Lemma forallb_app_true (p : N -> bool) (x y : pystr) :
  forallb p x = true -> forallb p y = true -> forallb p (x ++ y) = true.
Proof. intros Hx Hy. rewrite forallb_app, Hx, Hy. reflexivity. Qed.

(** Stripping removes white space at both ends and nothing else. *)
Lemma strip_split (s : pystr) :
  exists a b, s = a ++ strip s ++ b
              /\ forallb is_space a = true /\ forallb is_space b = true.
Proof.
  unfold strip, lstrip, rstrip.
  destruct (dropwhile_split is_space (rev s)) as (b' & Hb & Hb').
  destruct (dropwhile_split is_space (rev (dropwhile is_space (rev s))))
    as (a & Ha & Ha').
  exists a, (rev b'). split; [|split; [exact Ha' | apply forallb_rev_true; exact Hb']].
  rewrite app_assoc, <- Ha, <- rev_app_distr, <- Hb, rev_involutive. reflexivity.
Qed.

Lemma strip_all_space (s : pystr) : forallb is_space s = true -> strip s = [].
Proof.
  intros H. unfold strip, rstrip, lstrip.
  assert (E : dropwhile is_space (rev s) = []).
  { rewrite <- (app_nil_r (rev s)), dropwhile_all by (apply forallb_rev_true; exact H).
    reflexivity. }
  rewrite E. reflexivity.
Qed.

(** What is left has no white space at either end. *)
Lemma strip_ends (s : pystr) :
  strip s = [] \/ (starts_clean (strip s) /\ ends_clean (strip s)).
Proof.
  unfold strip, lstrip, rstrip.
  set (r := dropwhile is_space (rev s)).
  destruct (dropwhile is_space (rev r)) as [|c t] eqn:E; [left; reflexivity|].
  right. split.
  - apply starts_clean_cons. apply (dropwhile_head _ _ E).
  - destruct (dropwhile_split is_space (rev r)) as (a & Ha & _). rewrite E in Ha.
    destruct r as [|c' r'] eqn:Er.
    + destruct a; discriminate.
    + assert (Hc' : is_space c' = false) by (apply (dropwhile_head _ _ Er)).
      cbn [rev] in Ha.
      assert (Hl : exists t', c :: t = t' ++ [c']).
      { destruct (exists_last (l := c :: t) ltac:(discriminate)) as (t' & x & Hx).
        exists t'. rewrite Hx in *. rewrite app_assoc in Ha.
        apply app_inj_tail in Ha. destruct Ha as [_ ->]. reflexivity. }
      destruct Hl as (t' & ->). apply ends_clean_last. exact Hc'.
Qed.

(** White space around a text does not change what stripping leaves. *)
Lemma strip_absorb (a s b : pystr) :
  forallb is_space a = true -> forallb is_space b = true ->
  strip (a ++ s ++ b) = strip s.
Proof.
  intros Ha Hb. destruct (strip_split s) as (a0 & b0 & Hs & Ha0 & Hb0).
  destruct (strip_ends s) as [E|[Hst Hen]].
  - rewrite E in *. cbn [app] in Hs. apply strip_all_space. rewrite Hs.
    repeat apply forallb_app_true; assumption.
  - rewrite Hs at 1.
    replace (a ++ (a0 ++ strip s ++ b0) ++ b)
      with ((a ++ a0) ++ strip s ++ (b0 ++ b)) by (norm_app; reflexivity).
    apply strip_core; auto using forallb_app_true.
Qed.

Lemma forallb_strip (p : N -> bool) (s : pystr) :
  forallb p s = true -> forallb p (strip s) = true.
Proof.
  intros H. destruct (strip_split s) as (a & b & Hs & _). rewrite Hs in H.
  rewrite !forallb_app in H. apply andb_prop in H. destruct H as [_ H].
  apply andb_prop in H. tauto.
Qed.

Lemma forallb_skipn (p : N -> bool) (n : nat) (s : pystr) :
  forallb p s = true -> forallb p (skipn n s) = true.
Proof.
  intros H. rewrite <- (firstn_skipn n s), forallb_app in H.
  apply andb_prop in H. tauto.
Qed.

Lemma forallb_firstn (p : N -> bool) (n : nat) (s : pystr) :
  forallb p s = true -> forallb p (firstn n s) = true.
Proof.
  intros H. rewrite <- (firstn_skipn n s), forallb_app in H.
  apply andb_prop in H. tauto.
Qed.

Lemma forallb_clean (p : N -> bool) (response : pystr) :
  forallb p response = true -> forallb p (clean response) = true.
Proof.
  intros H. unfold clean, slice_from, slice_to_neg.
  repeat match goal with
         | |- context [if ?b then _ else _] => destruct b
         end;
    repeat first [apply forallb_strip | apply forallb_skipn | apply forallb_firstn];
    exact H.
Qed.

(** ** The brace span *)

Lemma dropwhile_none (p : N -> bool) (s : pystr) :
  forallb p s = true -> dropwhile p s = [].
Proof.
  intros H. rewrite <- (app_nil_r s), dropwhile_all by exact H. reflexivity.
Qed.

Lemma re_search_braces_span (pre m post : pystr) :
  no_char "{" pre = true -> no_char "}" post = true ->
  re_search_braces (pre ++ braced m ++ post) = Some (braced m).
Proof.
  intros Hpre Hpost. unfold re_search_braces, braced.
  rewrite dropwhile_all by exact Hpre. cbn [app dropwhile].
  replace (negb (is_ch "{" (ord "{"))) with false by reflexivity.
  rewrite rev_app_distr, rev_app_distr.
  rewrite dropwhile_all by (apply forallb_rev_true; exact Hpost).
  cbn [rev app dropwhile].
  replace (negb (is_ch "}" (ord "}"))) with false by reflexivity.
  cbn [rev]. rewrite rev_involutive. reflexivity.
Qed.

Lemma re_search_braces_none (s : pystr) :
  no_char "{" s = true \/ no_char "}" s = true -> re_search_braces s = None.
Proof.
  unfold re_search_braces, no_char. intros [H|H].
  - rewrite dropwhile_none by exact H. reflexivity.
  - destruct (dropwhile_split (fun c => negb (is_ch "{" c)) s) as (a & Hs & _).
    destruct (dropwhile (fun c => negb (is_ch "{" c)) s) as [|b t]; [reflexivity|].
    rewrite Hs, forallb_app in H. apply andb_prop in H. destruct H as [_ H].
    cbn [forallb] in H. apply andb_prop in H. destruct H as [_ H].
    rewrite dropwhile_none by (apply forallb_rev_true; exact H). reflexivity.
Qed.

Lemma brace_span_extracted (rt : runtime) (response pre m post : pystr) (v : json) :
  clean response = pre ++ braced m ++ post ->
  no_char "{" pre = true -> no_char "}" post = true ->
  json_loads (clean response) = None ->
  json_loads (braced m) = Some v ->
  extract_json rt response = v.
Proof.
  intros Hc Hpre Hpost Hn Hv. unfold extract_json, extract_json_run.
  rewrite Hn, Hc, re_search_braces_span, Hv by assumption. reflexivity.
Qed.

(** X1.  When strict parsing of the cleaned reply fails and the reply is
    prose without an opening brace, then a text between braces that is a
    JSON document, then prose without a closing brace, [extract_json]
    returns the value of the text between the braces. *)
Theorem prose_around_object (rt : runtime) (response pre m post : pystr)
    (v : json) :
  clean response = pre ++ braced m ++ post ->
  no_char "{" pre = true -> no_char "}" post = true ->
  json_loads (clean response) = None ->
  json_loads (braced m) = Some v ->
  extract_json rt response = v.
Proof. apply brace_span_extracted. Qed.

Lemma prose_around_object_witness :
  json_loads (clean chatty_reply) = None
  /\ extract_json plain_runtime chatty_reply
     = JDict [(py "html", JStr (py "<html><head></head><body></body></html>"));
              (py "css", JStr (py "body{color:red}"));
              (py "js", JStr (py "console.log(1)"));
              (py "name", JStr (py "X"))].
Proof.
  split; [vm_compute; reflexivity|].
  apply (@prose_around_object plain_runtime chatty_reply
           (py "Here is your app: ") (removelast (tl example_reply))
           (py " Enjoy!"));
    vm_compute; reflexivity.
Defined.

(** X3.  White space before and after the reply does not change what
    [extract_json] returns. *)
Theorem extract_json_ignores_outer_space (rt : runtime) (a response b : pystr) :
  forallb is_space a = true -> forallb is_space b = true ->
  extract_json rt (a ++ response ++ b) = extract_json rt response.
Proof.
  intros Ha Hb.
  assert (Hc : clean (a ++ response ++ b) = clean response).
  { unfold clean. rewrite strip_absorb by assumption. reflexivity. }
  unfold extract_json, extract_json_run. rewrite Hc.
  destruct (json_loads (clean response)); [reflexivity|].
  destruct (re_search_braces (clean response)) as [g|]; [|reflexivity].
  destruct (json_loads g); reflexivity.
Qed.

Lemma extract_json_ignores_outer_space_witness :
  forallb is_space nl = true
  /\ extract_json plain_runtime (nl ++ py "[1, 2]" ++ nl ++ nl)
     = extract_json plain_runtime (py "[1, 2]").
Proof.
  split; [reflexivity|].
  apply (extract_json_ignores_outer_space plain_runtime nl (py "[1, 2]") (nl ++ nl));
    reflexivity.
Defined.

(** X4.  A reply that strict parsing rejects and that has no opening brace,
    or no closing brace, gives [None]. *)
Theorem no_brace_no_value (rt : runtime) (response : pystr) :
  json_loads (clean response) = None ->
  no_char "{" response = true \/ no_char "}" response = true ->
  extract_json rt response = JNull.
Proof.
  intros Hn Hb. unfold extract_json, extract_json_run. rewrite Hn.
  rewrite re_search_braces_none; [reflexivity|].
  destruct Hb as [H|H]; [left|right]; apply forallb_clean; exact H.
Qed.

Lemma no_brace_no_value_witness :
  json_loads (clean (py "Sorry, I cannot help with that.")) = None
  /\ extract_json plain_runtime (py "Sorry, I cannot help with that.") = JNull.
Proof.
  split; [vm_compute; reflexivity|].
  apply (no_brace_no_value plain_runtime (py "Sorry, I cannot help with that."));
    [vm_compute; reflexivity | left; vm_compute; reflexivity].
Defined.

(** ** A fence without a language tag *)

Lemma startswith_common (p q z : pystr) :
  startswith (p ++ q) (p ++ z) = startswith q z.
Proof.
  induction p as [|c p IH]; [reflexivity|].
  cbn [app startswith]. rewrite N.eqb_refl. exact IH.
Qed.

Lemma space_not_brace (a : ascii) (s : pystr) :
  is_space (ord a) = false -> forallb is_space s = true -> no_char a s = true.
Proof.
  intros Ha Hs. unfold no_char. induction s as [|c s IH]; [reflexivity|].
  cbn [forallb] in *. apply andb_prop in Hs. destruct Hs as [Hc Hs].
  rewrite IH by exact Hs. rewrite andb_true_r.
  destruct (is_ch a c) eqn:E; [|reflexivity].
  apply N.eqb_eq in E. subst c. congruence.
Qed.

(** Only the closing marker of such a fence is removed. *)
Lemma clean_bare_fenced (before after_open m before_close after : pystr) :
  forallb is_space before = true -> forallb is_space after_open = true ->
  forallb is_space before_close = true -> forallb is_space after = true ->
  clean (bare_fenced before after_open (braced m) before_close after)
  = (py "```" ++ after_open) ++ braced m ++ [].
Proof.
  intros H1 H2 H3 H4. unfold clean, bare_fenced.
  set (tick := py "```").
  assert (Hend : ends_clean tick).
  { exists (firstn 2 tick), (ord "`"). split; reflexivity. }
  assert (S1 : strip (before ++ tick ++ after_open ++ braced m
                      ++ before_close ++ tick ++ after)
               = tick ++ after_open ++ braced m ++ before_close ++ tick).
  { replace (before ++ tick ++ after_open ++ braced m ++ before_close ++ tick ++ after)
      with (before ++ (tick ++ after_open ++ braced m ++ before_close ++ tick) ++ after)
      by (norm_app; reflexivity).
    apply strip_core; auto.
    - apply starts_clean_cons. reflexivity.
    - rewrite !app_assoc. apply ends_clean_app. exact Hend. }
  rewrite S1.
  assert (S2 : startswith (py "```json")
                 (tick ++ after_open ++ braced m ++ before_close ++ tick) = false).
  { change (py "```json") with (tick ++ py "json"). rewrite startswith_common.
    destruct after_open as [|c t]; [reflexivity|].
    cbn [forallb] in H2. apply andb_prop in H2. destruct H2 as [Hc _].
    cbn [app]. change (py "json") with (ord "j" :: py "son"). cbn [startswith].
    replace (ord "j" =? c)%N with false; [reflexivity|].
    symmetry. apply N.eqb_neq. intros <-. discriminate. }
  rewrite S2.
  assert (S3 : endswith tick (tick ++ after_open ++ braced m ++ before_close ++ tick)
               = true).
  { unfold endswith. rewrite !app_assoc, rev_app_distr. apply startswith_app. }
  rewrite S3. unfold slice_to_neg.
  rewrite !app_assoc, length_app, Nat.add_sub, firstn_app, Nat.sub_diag, firstn_all.
  cbn [firstn]. rewrite app_nil_r.
  replace (((tick ++ after_open) ++ braced m) ++ before_close)
    with ([] ++ ((tick ++ after_open) ++ braced m) ++ before_close)
    by reflexivity.
  rewrite strip_core; auto.
  - rewrite app_nil_r. reflexivity.
  - apply starts_clean_cons. reflexivity.
  - apply ends_clean_app. unfold braced.
    apply (ends_clean_last (ord "{" :: m)). reflexivity.
Qed.

(** A text that starts with a backtick is no JSON document. *)
Lemma backtick_not_json (t : pystr) : json_loads (ord "`" :: t) = None.
Proof. reflexivity. Qed.

(** X2.  A JSON object in a code fence that has no language tag is still
    extracted: the opening marker is not removed, strict parsing fails, and
    the span between the braces is parsed instead. *)
Theorem bare_fence_object (rt : runtime)
    (before after_open m before_close after : pystr) (v : json) :
  forallb is_space before = true ->
  forallb is_space after_open = true ->
  forallb is_space before_close = true ->
  forallb is_space after = true ->
  json_loads (braced m) = Some v ->
  extract_json rt (bare_fenced before after_open (braced m) before_close after)
  = v.
Proof.
  intros H1 H2 H3 H4 Hv.
  pose proof (@clean_bare_fenced before after_open m before_close after
                H1 H2 H3 H4) as Hc.
  apply brace_span_extracted with (pre := py "```" ++ after_open) (m := m) (post := []).
  - exact Hc.
  - unfold no_char. rewrite forallb_app. apply andb_true_intro. split;
      [reflexivity | apply (space_not_brace "{"); [reflexivity | exact H2]].
  - reflexivity.
  - rewrite Hc. apply backtick_not_json.
  - exact Hv.
Qed.

Lemma bare_fence_object_witness :
  json_loads (braced (removelast (tl example_reply)))
  = Some (JDict [(py "html", JStr (py "<html><head></head><body></body></html>"));
                 (py "css", JStr (py "body{color:red}"));
                 (py "js", JStr (py "console.log(1)"));
                 (py "name", JStr (py "X"))])
  /\ extract_json plain_runtime
       (bare_fenced [] nl (braced (removelast (tl example_reply))) nl nl)
     = JDict [(py "html", JStr (py "<html><head></head><body></body></html>"));
              (py "css", JStr (py "body{color:red}"));
              (py "js", JStr (py "console.log(1)"));
              (py "name", JStr (py "X"))].
Proof.
  split; [vm_compute; reflexivity|].
  apply (bare_fence_object plain_runtime [] nl (removelast (tl example_reply)) nl nl);
    reflexivity.
Defined.

(** ** How a call ends *)

Section Ends.

Context (rt : runtime) (svc : service).

Lemma splice_inr (parsed : json) (doc : pystr) :
  py_truthy parsed = true -> splice rt parsed = inr doc ->
  exists d h,
    parsed = JDict d /\ d <> [] /\ get_or_empty (py "html") d = JStr h
    /\ doc = replace (py "</body>")
               (py "<script>" ++ fmt rt (get_or_empty (py "js") d)
                ++ py "</script></body>")
               (replace (py "</head>")
                  (py "<style>" ++ fmt rt (get_or_empty (py "css") d)
                   ++ py "</style></head>") h).
Proof.
  intros Ht H. unfold splice in H. destruct parsed; try discriminate.
  destruct (get_or_empty (py "html") d) as [| | | |h| |] eqn:Eh; try discriminate.
  injection H as <-. exists d, h. repeat split; auto.
  destruct d; [discriminate Ht | discriminate].
Qed.

Lemma backoff_shift (from : Z) (n : nat) :
  (2 ^ from)%Z :: backoff (from + 1) n = backoff from (S n).
Proof.
  unfold backoff. cbn [seq map]. rewrite Z.add_0_r. f_equal.
  rewrite <- seq_shift, map_map. apply map_ext. intros i. f_equal. lia.
Qed.

(** The loop ends in one of three ways, and the way tells the document,
    the status, the number of completion calls and the delays. *)
Lemma loop_outcome (formatted : pystr) (remaining : nat) :
  forall attempt last_exception index,
  let '(doc, st, ms) :=
    loop_summary rt svc formatted remaining attempt last_exception index in
  (doc = unavailable_doc /\ st_state st = offline
   /\ marked_calls ms = remaining
   /\ marked_sleeps ms = backoff attempt remaining)
  \/ exists i response,
       i < remaining
       /\ generate_content svc (index + i) formatted = Text response
       /\ marked_calls ms = S i
       /\ marked_sleeps ms = backoff attempt i
       /\ (py_truthy (extract_json rt response) = false
           /\ st = parse_error_status /\ doc = could_not_parse_doc
           \/ st = online_status /\ spliced_from rt response doc).
Proof.
  induction remaining as [|k IH]; intros attempt last_exception index.
  - cbn. left. repeat split.
  - cbn [loop_summary].
    assert (Hc : marked_calls (attempt_marks rt (generate_content svc index formatted)) = 1).
    { destruct (generate_content svc index formatted); reflexivity. }
    assert (Hs : marked_sleeps (attempt_marks rt (generate_content svc index formatted)) = []).
    { destruct (generate_content svc index formatted); reflexivity. }
    destruct (attempt_outcome rt (generate_content svc index formatted))
      as [doc|e] eqn:Eo.
    + right. destruct (generate_content svc index formatted) as [e|response] eqn:Eg;
        [discriminate|].
      exists 0, response. rewrite Nat.add_0_r.
      split; [lia|]. split; [exact Eg|]. split; [exact Hc|]. split; [exact Hs|].
      cbn [attempt_outcome attempt_status] in *.
      unfold reply_outcome, reply_state in *.
      destruct (py_truthy (extract_json rt response)) eqn:Et.
      * right. split; [reflexivity|].
        destruct (splice rt (extract_json rt response)) as [e|f] eqn:Es;
          [discriminate|]. injection Eo as <-.
        destruct (splice_inr _ Et Es) as (d & h & Hd & Hne & Hh & Hdoc).
        exists d, h. auto.
      * left. injection Eo as <-. auto.
    + specialize (IH (attempt + 1)%Z (Some e) (S index)).
      destruct (loop_summary rt svc formatted k (attempt + 1) (Some e) (S index))
        as [[doc st] ms].
      assert (Hf : marked_sleeps (failure_marks e attempt) = [(2 ^ attempt)%Z])
        by reflexivity.
      assert (Hfc : marked_calls (failure_marks e attempt) = 0) by reflexivity.
      destruct IH as [(D & St & C & Sl)|(i & response & Hi & Hg & C & Sl & Hend)].
      * left. repeat split; auto.
        -- rewrite !marked_calls_app, Hc, Hfc, C. reflexivity.
        -- rewrite !marked_sleeps_app, Hs, Hf, Sl. apply backoff_shift.
      * right. exists (S i), response. split; [lia|].
        split; [rewrite <- Hg; f_equal; lia|].
        split; [rewrite !marked_calls_app, Hc, Hfc, C; reflexivity|].
        split; [|exact Hend].
        rewrite !marked_sleeps_app, Hs, Hf, Sl. apply backoff_shift.
Qed.

End Ends.

(** X5.  A call ends in exactly one of these ways, told by the status it
    leaves.  [offline]: every attempt ended with an exception; the
    document is the one of the unavailable service, [retries + 1]
    completion calls were made (none if that is not positive) and each
    was followed by its delay.  [error]: either the client could not be
    initialised (no completion call, unavailable document) or the attempt
    of some index [i] got a reply whose extracted value is false in
    Python's sense (could-not-parse document).  [online]: the attempt of
    some index [i] got a reply that was spliced into the document.  In
    the last two cases [i + 1] completion calls were made and the delays
    are [2^0, ..., 2^(i-1)]. *)
Theorem call_ends_three_ways (rt : runtime) (svc : service)
    (prompt : pystr) (api_key model_source : option pystr) (retries : Z)
    (w : world) :
  let run := generate_code_from_prompt rt svc prompt api_key model_source retries in
  let doc := fst (run w) in
  let st := ai_status (snd (run w)) in
  let ncalls := completion_calls (effects run w) in
  let delays := sleeps (effects run w) in
  match st_state st with
  | offline =>
      init_client svc api_key = None
      /\ ends_exhausted doc st ncalls delays (Z.to_nat (retries + 1))
  | error =>
      (init_client svc api_key <> None /\ doc = unavailable_doc /\ ncalls = 0
       /\ delays = [])
      \/ (init_client svc api_key = None
          /\ exists i response,
               generate_content svc (calls w + i) (format_prompt prompt)
               = Text response
               /\ py_truthy (extract_json rt response) = false
               /\ ends_at_reply rt response i doc st ncalls delays)
  | online =>
      init_client svc api_key = None
      /\ exists i response,
           generate_content svc (calls w + i) (format_prompt prompt)
           = Text response
           /\ spliced_from rt response doc
           /\ ends_at_reply rt response i doc st ncalls delays
  | connecting => False
  | generating => False
  end.
Proof.
  intros run doc st ncalls delays.
  pose proof (generate_code_run rt svc prompt api_key model_source retries w) as H.
  cbv zeta in H. subst doc st ncalls delays.
  rewrite completion_calls_timeline, sleeps_timeline. subst run.
  destruct (init_client svc api_key) as [e|] eqn:Ei.
  - destruct H as (D & St & C & T). rewrite D, St, T. cbn.
    left. repeat split. discriminate.
  - pose proof (loop_outcome rt svc (format_prompt prompt) (Z.to_nat (retries + 1))
                  0 None (calls w)) as L.
    destruct (loop_summary rt svc (format_prompt prompt) (Z.to_nat (retries + 1))
                0 None (calls w)) as [[doc st] ms].
    destruct H as (D & St & C & T). rewrite D, St, T.
    change (marked_calls (MStatus connecting :: ms)) with (marked_calls ms).
    change (marked_sleeps (MStatus connecting :: ms)) with (marked_sleeps ms).
    destruct L as [(Hd & Hst & Hc & Hs)|(i & response & Hi & Hg & Hc & Hs & Hend)].
    + rewrite Hst. split; [reflexivity|]. repeat split; assumption.
    + destruct Hend as [(Hf & -> & ->)|(-> & Hsp)]; cbn [st_state parse_error_status online_status].
      * right. split; [reflexivity|]. exists i, response.
        repeat split; auto.
      * split; [reflexivity|]. exists i, response.
        repeat split; auto.
Qed.

(** ** The time a call spends waiting *)

Lemma backoff_sum (n : nat) :
  fold_right Z.add 0%Z (backoff 0 n) = (2 ^ Z.of_nat n - 1)%Z.
Proof.
  unfold backoff. induction n as [|n IH]; [reflexivity|].
  rewrite seq_S, map_app, fold_right_app. cbn [map fold_right Nat.add].
  assert (G : forall l z, fold_right Z.add z l = (fold_right Z.add 0 l + z)%Z).
  { induction l as [|x l IHl]; intros z; cbn [fold_right]; [lia|].
    rewrite IHl. lia. }
  rewrite G, IH. rewrite Nat2Z.inj_succ, Z.pow_succ_r by lia.
  rewrite Z.add_0_l. lia.
Qed.

(** X6.  The delays of a call add up to [2^n - 1] time units, [n] being
    the number of delays, and a call with [retries] retries never waits
    more than [2^(retries + 1) - 1] time units in all (not at all when
    [retries + 1] is not positive). *)
Theorem total_delay_bound (rt : runtime) (svc : service)
    (prompt : pystr) (api_key model_source : option pystr) (retries : Z)
    (w : world) :
  let run := generate_code_from_prompt rt svc prompt api_key model_source retries in
  (total_delay (effects run w)
   = 2 ^ Z.of_nat (length (sleeps (effects run w))) - 1
   /\ Z.of_nat (length (sleeps (effects run w))) <= Z.max 0 (retries + 1)
   /\ 0 <= total_delay (effects run w) <= 2 ^ Z.max 0 (retries + 1) - 1)%Z.
Proof.
  intros run.
  assert (H : exists m, sleeps (effects run w) = backoff 0 m
                        /\ m <= Z.to_nat (retries + 1)).
  { pose proof (generate_code_run rt svc prompt api_key model_source retries w) as H.
    cbv zeta in H. subst run. rewrite sleeps_timeline.
    destruct (init_client svc api_key) as [e|].
    - destruct H as (_ & _ & _ & T). rewrite T. exists 0. split; [reflexivity | lia].
    - destruct (loop_sleeps rt svc (format_prompt prompt) (Z.to_nat (retries + 1))
                  0 None (calls w)) as (m & Hm & E).
      destruct (loop_summary rt svc (format_prompt prompt) (Z.to_nat (retries + 1))
                  0 None (calls w)) as [[doc st] ms].
      destruct H as (_ & _ & _ & T). rewrite T. exists m. split; [exact E | exact Hm]. }
  destruct H as (m & E & Hm). unfold total_delay. rewrite E, backoff_sum.
  unfold backoff. rewrite length_map, length_seq.
  assert (Hle : (Z.of_nat m <= Z.max 0 (retries + 1))%Z) by lia.
  split; [reflexivity|]. split; [exact Hle|].
  pose proof (Z.pow_le_mono_r 2 (Z.of_nat m) (Z.max 0 (retries + 1)) ltac:(lia) Hle).
  pose proof (Z.pow_pos_nonneg 2 (Z.of_nat m) ltac:(lia) ltac:(lia)). lia.
Qed.

(** ** Edge cases of [generate_code_from_prompt] *)

(** X7.  With a retry count below zero the loop body never runs: once the
    client is initialised the call writes [offline] straight after
    [connecting], with the message saying that the failure is [None], makes
    no completion call, does not wait, and returns the document of the
    unavailable service. *)
Theorem negative_retries_skip_the_loop (rt : runtime) (svc : service)
    (prompt : pystr) (api_key model_source : option pystr) (retries : Z)
    (w : world) :
  (retries < 0)%Z ->
  init_client svc api_key = None ->
  let run := generate_code_from_prompt rt svc prompt api_key model_source retries in
  fst (run w) = unavailable_doc
  /\ ai_status (snd (run w))
     = {| st_state := offline;
          st_message := py "AI service unavailable: None." |}
  /\ timeline (effects run w) = [MStatus connecting; MStatus offline].
Proof.
  intros Hr Hi run.
  pose proof (generate_code_run rt svc prompt api_key model_source retries w) as H.
  cbv zeta in H. rewrite Hi in H.
  replace (Z.to_nat (retries + 1)) with 0 in H by lia.
  cbn [loop_summary] in H. destruct H as (D & St & _ & T).
  subst run. rewrite D, St, T. repeat split.
Qed.

Lemma negative_retries_skip_the_loop_witness :
  (-1 < 0)%Z
  /\ init_client (always (Text example_reply)) None = None
  /\ fst (generate_code_from_prompt plain_runtime (always (Text example_reply))
            (py "a clock") None None (-1) initial_world) = unavailable_doc.
Proof.
  split; [lia|]. split; [reflexivity|].
  apply (negative_retries_skip_the_loop plain_runtime (always (Text example_reply))
           (py "a clock") None None (retries := -1) initial_world);
    [lia | reflexivity].
Defined.

Lemma replace_nil (old new : pystr) : old <> [] -> replace old new [] = [].
Proof. destruct old; [congruence | reflexivity]. Qed.

(** X8.  A reply that is an object without the key [html] is reported as
    a success and the document returned is the empty string, whatever the
    CSS and the JavaScript of the reply: status [online], one completion
    call in that pass, no delay. *)
Theorem missing_html_gives_empty_document (rt : runtime) (svc : service)
    (formatted response : pystr) (k : nat) (attempt : Z)
    (last_exception : option exn) (w : world) (d : list (pystr * json)) :
  generate_content svc (calls w) formatted = Text response ->
  extract_json rt response = JDict d ->
  d <> [] ->
  dict_get (py "html") d = None ->
  let run := retry_loop rt svc formatted (S k) attempt last_exception in
  fst (run w) = []
  /\ ai_status (snd (run w)) = online_status
  /\ timeline (effects run w) = [MStatus generating; MCall; MStatus online].
Proof.
  intros Hg Hd Hne Hh run.
  pose proof (retry_loop_effects rt svc formatted (S k) attempt last_exception w) as H.
  cbv zeta in H. cbn [loop_summary] in H. rewrite Hg in H.
  cbn [attempt_outcome attempt_status] in H. unfold attempt_marks in H.
  unfold reply_outcome, reply_state, splice, get_or_empty in H.
  rewrite Hd, Hh in H. destruct d as [|kv d']; [congruence|].
  cbn [py_truthy] in H. destruct H as (D & St & T).
  subst run. rewrite D, St, T. repeat split.
Qed.

Lemma missing_html_gives_empty_document_witness :
  extract_json plain_runtime nameless_reply = JDict [(py "name", JStr (py "X"))]
  /\ fst (retry_loop plain_runtime (always (Text nameless_reply))
            (format_prompt (py "a clock")) 3 0 None initial_world) = [].
Proof.
  split; [vm_compute; reflexivity|].
  apply (missing_html_gives_empty_document plain_runtime
           (always (Text nameless_reply)) (format_prompt (py "a clock"))
           (response := nameless_reply) 2 0 None initial_world
           (d := [(py "name", JStr (py "X"))]));
    [reflexivity | vm_compute; reflexivity | discriminate | reflexivity].
Defined.

(** X9.  When the HTML of the reply contains neither closing tag, the
    document returned is that HTML unchanged: the CSS and the JavaScript of
    the reply are dropped, and the status is [online] all the same. *)
Theorem missing_tags_drop_css_and_js (rt : runtime) (svc : service)
    (formatted response : pystr) (k : nat) (attempt : Z)
    (last_exception : option exn) (w : world) (d : list (pystr * json))
    (h : pystr) :
  generate_content svc (calls w) formatted = Text response ->
  extract_json rt response = JDict d ->
  d <> [] ->
  get_or_empty (py "html") d = JStr h ->
  absent_before (py "</head>") h (length h) ->
  absent_before (py "</body>") h (length h) ->
  let run := retry_loop rt svc formatted (S k) attempt last_exception in
  fst (run w) = h /\ ai_status (snd (run w)) = online_status.
Proof.
  intros Hg Hd Hne Hh Ha Hb run.
  pose proof (retry_loop_effects rt svc formatted (S k) attempt last_exception w) as H.
  cbv zeta in H. cbn [loop_summary] in H. rewrite Hg in H.
  cbn [attempt_outcome attempt_status] in H.
  unfold reply_outcome, reply_state, splice in H.
  rewrite Hd, Hh in H. destruct d as [|kv d']; [congruence|].
  cbn [py_truthy] in H. destruct H as (D & St & _).
  subst run. rewrite D, St. split; [|reflexivity].
  assert (R : forall old new s, old <> [] -> absent_before old s (length s) ->
                replace old new s = s).
  { intros old new s Ho Hs. destruct old as [|o old]; [congruence|].
    apply replace_from_absent. exact Hs. }
  rewrite (R (py "</head>")) by (try discriminate; exact Ha).
  apply R; [discriminate | exact Hb].
Qed.

Lemma missing_tags_drop_css_and_js_witness :
  extract_json plain_runtime fragment_reply
  = JDict [(py "html", JStr (py "<p>Hi</p>")); (py "css", JStr (py "p{}"))]
  /\ fst (retry_loop plain_runtime (always (Text fragment_reply))
            (format_prompt (py "a clock")) 3 0 None initial_world)
     = py "<p>Hi</p>".
Proof.
  split; [vm_compute; reflexivity|].
  apply (missing_tags_drop_css_and_js plain_runtime (always (Text fragment_reply))
           (format_prompt (py "a clock")) (response := fragment_reply)
           2 0 None initial_world
           (d := [(py "html", JStr (py "<p>Hi</p>")); (py "css", JStr (py "p{}"))])
           (h := py "<p>Hi</p>"));
    [reflexivity | vm_compute; reflexivity | discriminate | reflexivity | |];
    intros i Hi; do 9 (destruct i as [|i]; [reflexivity|]);
    vm_compute in Hi; lia.
Defined.

(** X10.  A reply whose extracted value is true in Python's sense but is
    no object, or is an object whose [html] is no string, is found out
    only after [online] was written: the attribute error is handled like
    any other failure, so the pass writes [error], waits and goes on; and
    if it was the last pass the call ends [offline], with the text of the
    attribute error in the message and the document of the unavailable
    service. *)
Theorem unusable_reply_counts_as_failure (rt : runtime) (svc : service)
    (formatted response : pystr) (attempt : Z) (last_exception : option exn)
    (w : world) (e : exn) :
  generate_content svc (calls w) formatted = Text response ->
  py_truthy (extract_json rt response) = true ->
  splice rt (extract_json rt response) = inl e ->
  ((forall d, extract_json rt response <> JDict d) ->
   e = attribute_error (extract_json rt response) (py "get"))
  /\ (forall d, extract_json rt response = JDict d ->
      e = attribute_error (get_or_empty (py "html") d) (py "replace"))
  /\ (forall k, exists rest,
        timeline (effects (retry_loop rt svc formatted (S k) attempt
                             last_exception) w)
        = [MStatus generating; MCall; MStatus online; MStatus error;
           MSleep (2 ^ attempt)] ++ rest)
  /\ (let run := retry_loop rt svc formatted 1 attempt last_exception in
      fst (run w) = unavailable_doc
      /\ ai_status (snd (run w))
         = {| st_state := offline;
              st_message := py "AI service unavailable: " ++ exn_text e
                            ++ py "." |}
      /\ timeline (effects run w)
         = [MStatus generating; MCall; MStatus online; MStatus error;
            MSleep (2 ^ attempt); MStatus offline]).
Proof.
  intros Hg Ht Hs.
  assert (Hn : is_request_exception e = false).
  { apply (reply_outcome_raised rt (extract_json rt response)).
    unfold reply_outcome. rewrite Ht, Hs. reflexivity. }
  split; [|split; [|split]].
  - intros Hnd. unfold splice in Hs.
    destruct (extract_json rt response); try (injection Hs as <-; reflexivity).
    elim (Hnd d). reflexivity.
  - intros d Hd. rewrite Hd in Hs. unfold splice in Hs.
    destruct (get_or_empty (py "html") d); try (injection Hs as <-; reflexivity).
    discriminate.
  - intros k.
    pose proof (retry_loop_effects rt svc formatted (S k) attempt last_exception w) as H.
    cbv zeta in H. cbn [loop_summary] in H. rewrite Hg in H.
    cbn [attempt_outcome] in H. unfold reply_outcome in H. rewrite Ht, Hs in H.
    destruct (loop_summary rt svc formatted k (attempt + 1) (Some e) (S (calls w)))
      as [[doc st] ms].
    destruct H as (_ & _ & T). rewrite T. exists ms.
    unfold attempt_marks, failure_marks, reply_state, except_status.
    rewrite Ht, Hn. reflexivity.
  - pose proof (retry_loop_effects rt svc formatted 1 attempt last_exception w) as H.
    cbv zeta in H. cbn [loop_summary] in H. rewrite Hg in H.
    cbn [attempt_outcome] in H. unfold reply_outcome in H. rewrite Ht, Hs in H.
    destruct H as (D & St & T). cbv zeta. rewrite D, St, T.
    unfold attempt_marks, failure_marks, reply_state, except_status.
    rewrite Ht, Hn. repeat split.
Qed.

Lemma unusable_reply_counts_as_failure_witness :
  py_truthy (extract_json plain_runtime (py "[1]")) = true
  /\ ai_status (snd (retry_loop plain_runtime (always (Text (py "[1]")))
                       (format_prompt (py "a clock")) 1 0 None initial_world))
     = {| st_state := offline;
          st_message := py "AI service unavailable: 'list' object has no attribute 'get'." |}.
Proof.
  split; [vm_compute; reflexivity|].
  apply (unusable_reply_counts_as_failure plain_runtime (always (Text (py "[1]")))
           (format_prompt (py "a clock")) (response := py "[1]") 0 None
           initial_world
           (e := attribute_error (JList [JInt 1]) (py "get")));
    vm_compute; reflexivity.
Defined.

(** ** More on [optimize_prompt] and its helpers *)

Lemma strip_idempotent (s : pystr) : strip (strip s) = strip s.
Proof.
  destruct (strip_ends s) as [E|[Hs He]].
  - rewrite E. reflexivity.
  - rewrite <- (app_nil_r (strip s)) at 1.
    apply (@strip_core [] (strip s) []); auto.
Qed.

Lemma strip_not_blank (s : pystr) :
  forallb is_space s = false -> strip s <> [].
Proof.
  intros H E. destruct (strip_split s) as (a & b & Hs & Ha & Hb).
  rewrite E in Hs. cbn [app] in Hs. rewrite Hs, forallb_app, Ha, Hb in H.
  discriminate.
Qed.

(** The guidance is not white space, so the enhanced prompt is not blank. *)
Lemma rule_based_not_blank (prompt : pystr) :
  strip (rule_based_enhancement prompt) <> [].
Proof.
  apply strip_not_blank. unfold rule_based_enhancement.
  rewrite forallb_app. apply andb_false_intro2. reflexivity.
Qed.

(** X11.  [optimize_prompt] makes at most one completion call, never
    waits, and never returns a blank prompt: what it returns always has a
    character that is not white space. *)
Theorem optimize_prompt_is_cheap_and_not_blank (rt : runtime) (svc : service)
    (prompt : pystr) (api_key : option pystr) (w : world) :
  let run := optimize_prompt rt svc prompt api_key in
  completion_calls (effects run w) <= 1
  /\ sleeps (effects run w) = []
  /\ strip (fst (run w)) <> [].
Proof.
  intros run.
  assert (H : exists d, run w = (fst (run w),
                                 {| ai_status := ai_status (snd (run w));
                                    calls := calls (snd (run w));
                                    events := events w ++ d |})
                        /\ completion_calls d <= 1 /\ sleeps d = []).
  { subst run. unfold optimize_prompt.
    unfold bind at 1. unfold print at 1, emit at 1.
    destruct ((20 <=? length (strip prompt)) && negb (is_generic rt prompt)).
    - eexists. split; [reflexivity|]. split; [cbn; lia | reflexivity].
    - cbv [bind configure_and_load emit ret call_generate optimize_fallback
           print logging].
      destruct (init_client svc api_key) as [e|]; cbn [ai_status calls events];
        [|destruct (generate_content svc (calls w) (rewrite_prompt prompt))
            as [e|response]; [|destruct (strip response) as [|c0 t]]];
        cbn [ai_status calls events fst snd]; rewrite <- ?app_assoc; cbn [app];
        eexists; (split; [reflexivity|]); (split; [cbn; lia | reflexivity]). }
  destruct H as (d & H & Hc & Hs).
  rewrite (@effects_of_append _ run w d) by (rewrite H; reflexivity).
  split; [exact Hc|]. split; [exact Hs|].
  pose proof (optimize_prompt_run rt svc prompt api_key w) as R. cbv zeta in R.
  subst run. unfold specific_enough in R.
  destruct ((20 <=? length (strip prompt)) && negb (is_generic rt prompt)) eqn:E.
  - rewrite R. cbn [fst]. apply andb_prop in E. destruct E as [E _].
    apply Nat.leb_le in E. intros B. rewrite B in E. simpl in E. lia.
  - destruct R as (c & d' & R & _). rewrite R. cbn [fst]. unfold enhanced.
    destruct (init_client svc api_key); [apply rule_based_not_blank|].
    destruct (generate_content svc (calls w) (rewrite_prompt prompt))
      as [e|response]; [apply rule_based_not_blank|].
    destruct (strip response) as [|c0 t] eqn:Es; [apply rule_based_not_blank|].
    rewrite <- Es, strip_idempotent, Es. discriminate.
Qed.

(** ** Lower case, white space and the generic phrases *)

Lemma lower_keeps_space (c : N) : is_space (ascii_lower c) = is_space c.
Proof.
  unfold ascii_lower. destruct ((65 <=? c) && (c <=? 90))%N eqn:E; [|reflexivity].
  assert (H1 : is_space c = false) by chars.
  assert (H2 : is_space (c + 32) = false) by chars.
  rewrite H1, H2. reflexivity.
Qed.

Lemma dropwhile_map (p : N -> bool) (f : N -> N) (s : pystr) :
  (forall c, p (f c) = p c) ->
  dropwhile p (map f s) = map f (dropwhile p s).
Proof.
  intros H. induction s as [|c s IH]; [reflexivity|].
  cbn [map dropwhile]. rewrite H. destruct (p c); [exact IH | reflexivity].
Qed.

Lemma strip_map_lower (s : pystr) :
  strip (map ascii_lower s) = map ascii_lower (strip s).
Proof.
  unfold strip, lstrip, rstrip.
  rewrite <- map_rev, dropwhile_map by apply lower_keeps_space.
  rewrite <- map_rev, dropwhile_map by apply lower_keeps_space.
  reflexivity.
Qed.

Lemma forallb_map_lower_space (a : pystr) :
  forallb is_space a = true -> forallb is_space (map ascii_lower a) = true.
Proof.
  induction a as [|c a IH]; [reflexivity|]. cbn [map forallb].
  intros H. apply andb_prop in H. destruct H as [Hc Ha].
  rewrite lower_keeps_space, Hc, IH by exact Ha. reflexivity.
Qed.

Lemma str_eqb_eq (a b : pystr) : str_eqb a b = true -> a = b.
Proof. unfold str_eqb. destruct (list_eq_dec N.eq_dec a b); [auto | discriminate]. Qed.

(** A generic prompt is short: no phrase has more than 14 characters. *)
Lemma generic_is_short (rt : runtime) (prompt : pystr) :
  is_ascii prompt = true -> is_generic rt prompt = true ->
  length (strip prompt) <= 14.
Proof.
  intros Ha Hg. unfold is_generic, py_lower in Hg. rewrite Ha in Hg.
  apply existsb_exists in Hg. destruct Hg as (phrase & Hin & He).
  apply str_eqb_eq in He. rewrite strip_map_lower in He.
  apply (f_equal (@length N)) in He. rewrite length_map in He. rewrite He.
  unfold generic_phrases in Hin.
  repeat (destruct Hin as [<-|Hin]; [vm_compute; lia|]). destruct Hin.
Qed.

(** X12.  For a prompt of ASCII characters, being generic implies having
    at most 14 characters once trimmed; so the test of [optimize_prompt]
    comes down to the length alone: the prompt is returned unchanged
    exactly when its trimmed length is at least 20, and the list of generic
    phrases never changes the decision. *)
Theorem generic_test_is_redundant (rt : runtime) (prompt : pystr) :
  is_ascii prompt = true ->
  (is_generic rt prompt = true -> length (strip prompt) <= 14)
  /\ (20 <=? length (strip prompt)) && negb (is_generic rt prompt)
     = (20 <=? length (strip prompt)).
Proof.
  intros Ha. split; [apply generic_is_short; exact Ha|].
  destruct (20 <=? length (strip prompt)) eqn:E; [|reflexivity].
  apply Nat.leb_le in E. destruct (is_generic rt prompt) eqn:G; [|reflexivity].
  apply generic_is_short in G; [lia | exact Ha].
Qed.

Lemma generic_test_is_redundant_witness :
  is_ascii (py "  DashBoard ") = true
  /\ (is_generic plain_runtime (py "  DashBoard ") = true ->
      length (strip (py "  DashBoard ")) <= 14).
Proof.
  split; [reflexivity|].
  apply (proj1 (generic_test_is_redundant plain_runtime (py "  DashBoard ")
                  eq_refl)).
Defined.

(** X15.  [is_generic] looks at the prompt in lower case and trimmed: for
    ASCII text, white space around the prompt and the case of its letters
    do not change the answer. *)
Theorem is_generic_ignores_space_and_case (rt : runtime) (a prompt b : pystr) :
  is_ascii a = true -> is_ascii prompt = true -> is_ascii b = true ->
  forallb is_space a = true -> forallb is_space b = true ->
  is_generic rt (a ++ prompt ++ b) = is_generic rt prompt
  /\ is_generic rt (map ascii_lower prompt) = is_generic rt prompt.
Proof.
  intros Aa Ap Ab Sa Sb. unfold is_generic, py_lower.
  assert (Hall : is_ascii (a ++ prompt ++ b) = true).
  { unfold is_ascii in *. rewrite !forallb_app, Aa, Ap, Ab. reflexivity. }
  assert (Hlow : is_ascii (map ascii_lower prompt) = true).
  { unfold is_ascii in *. rewrite forallb_forall in *. intros c Hc.
    apply in_map_iff in Hc. destruct Hc as (x & <- & Hx). specialize (Ap x Hx).
    unfold ascii_lower. destruct ((65 <=? x) && (x <=? 90))%N eqn:E.
    - apply N.ltb_lt. apply andb_prop in E. destruct E as [_ E].
      apply N.leb_le in E. lia.
    - exact Ap. }
  rewrite Hall, Ap, Hlow. split.
  - rewrite !map_app, strip_absorb by (apply forallb_map_lower_space; assumption).
    reflexivity.
  - rewrite map_map.
    replace (map (fun x => ascii_lower (ascii_lower x)) prompt)
      with (map ascii_lower prompt); [reflexivity|].
    apply map_ext. intros c. unfold ascii_lower.
    destruct ((65 <=? c) && (c <=? 90))%N eqn:E; [|rewrite E; reflexivity].
    replace ((65 <=? c + 32) && (c + 32 <=? 90))%N with false; [reflexivity|].
    symmetry. apply andb_prop in E. destruct E as [E _]. apply N.leb_le in E.
    apply andb_false_intro2. apply N.leb_gt. lia.
Qed.

Lemma is_generic_ignores_space_and_case_witness :
  forallb is_space nl = true
  /\ is_generic plain_runtime (nl ++ py "Landing Page" ++ nl)
     = is_generic plain_runtime (py "Landing Page").
Proof.
  split; [reflexivity|].
  apply (is_generic_ignores_space_and_case plain_runtime nl (py "Landing Page") nl);
    reflexivity.
Defined.

(** ** [rule_based_enhancement] on its own output *)

(** The enhanced prompt has no white space around it, unless the prompt was
    blank: then the two line feeds before the guidance are at its start. *)
Lemma rule_based_strip (prompt : pystr) :
  (strip prompt <> [] ->
   strip (rule_based_enhancement prompt) = rule_based_enhancement prompt)
  /\ (strip prompt = [] ->
      rule_based_enhancement prompt = guidance
      /\ strip (rule_based_enhancement prompt) = join nl modifiers).
Proof.
  unfold rule_based_enhancement. fold guidance. split.
  - intros Hne. destruct (strip_ends prompt) as [E|[Hs He]]; [congruence|].
    change (strip prompt ++ nl ++ nl ++ join nl modifiers)
      with (strip prompt ++ guidance).
    rewrite <- (app_nil_r (strip prompt ++ guidance)) at 1.
    apply (@strip_core [] (strip prompt ++ guidance) []); auto.
    + destruct Hs as (c & t & -> & Hc). apply starts_clean_cons. exact Hc.
    + apply ends_clean_app. exists (removelast guidance), (ord ".").
      split; reflexivity.
  - intros E. rewrite E. split; reflexivity.
Qed.

(** X14.  [rule_based_enhancement] sees the prompt trimmed, so white space
    around the prompt changes nothing; for a blank prompt the result is
    the guidance alone, two line feeds first; and applied to its own
    output it appends the guidance a second time. *)
Theorem rule_based_enhancement_again (prompt : pystr) :
  (forall a b, forallb is_space a = true -> forallb is_space b = true ->
     rule_based_enhancement (a ++ prompt ++ b) = rule_based_enhancement prompt)
  /\ (strip prompt = [] -> rule_based_enhancement prompt = guidance)
  /\ (strip prompt <> [] ->
      rule_based_enhancement (rule_based_enhancement prompt)
      = rule_based_enhancement prompt ++ guidance).
Proof.
  split; [|split].
  - intros a b Ha Hb. unfold rule_based_enhancement.
    rewrite strip_absorb by assumption. reflexivity.
  - intros E. apply (proj2 (rule_based_strip prompt) E).
  - intros Hne. unfold rule_based_enhancement at 1.
    rewrite (proj1 (rule_based_strip prompt) Hne). reflexivity.
Qed.

Lemma rule_based_enhancement_again_witness :
  strip (py "a clock") <> []
  /\ rule_based_enhancement (rule_based_enhancement (py "a clock"))
     = rule_based_enhancement (py "a clock") ++ guidance.
Proof.
  split; [vm_compute; discriminate|].
  apply (proj2 (proj2 (rule_based_enhancement_again (py "a clock")))).
  vm_compute. discriminate.
Defined.

(** X13.  What [rule_based_enhancement] returns for an ASCII prompt passes
    the test of [optimize_prompt]: optimising it again returns it
    unchanged, without initialising the client or calling the service. *)
Theorem enhanced_prompt_is_accepted (rt : runtime) (svc : service)
    (prompt : pystr) (api_key : option pystr) (w : world) :
  is_ascii prompt = true ->
  let enhanced_prompt := rule_based_enhancement prompt in
  let run := optimize_prompt rt svc enhanced_prompt api_key in
  fst (run w) = enhanced_prompt
  /\ effects run w
     = [EPrint (py "[optimize_prompt] Called with: " ++ enhanced_prompt)]
  /\ calls (snd (run w)) = calls w.
Proof.
  intros Ha enhanced_prompt run.
  assert (Hascii : is_ascii enhanced_prompt = true).
  { subst enhanced_prompt. unfold rule_based_enhancement, is_ascii in *.
    rewrite forallb_app, forallb_strip by exact Ha. reflexivity. }
  assert (Hlen : 20 <= length (strip enhanced_prompt)).
  { subst enhanced_prompt. destruct (rule_based_strip prompt) as [H1 H2].
    destruct (strip prompt) as [|c t] eqn:E.
    - rewrite (proj2 (H2 eq_refl)). vm_compute. lia.
    - rewrite H1 by discriminate. unfold rule_based_enhancement.
      rewrite length_app. change (nl ++ nl ++ join nl modifiers) with guidance.
      assert (20 <= length guidance) by (vm_compute; lia). lia. }
  assert (Hspec : specific_enough rt enhanced_prompt = true).
  { unfold specific_enough. apply andb_true_intro. split.
    - apply Nat.leb_le. exact Hlen.
    - destruct (is_generic rt enhanced_prompt) eqn:G; [|reflexivity].
      apply generic_is_short in G; [lia | exact Hascii]. }
  pose proof (optimize_prompt_run rt svc enhanced_prompt api_key w) as R.
  cbv zeta in R. rewrite Hspec in R. subst run.
  rewrite (@effects_of_append _ _ w
             [EPrint (py "[optimize_prompt] Called with: " ++ enhanced_prompt)])
    by (rewrite R; reflexivity).
  rewrite R. repeat split.
Qed.

Lemma enhanced_prompt_is_accepted_witness :
  is_ascii (py "ok") = true
  /\ fst (optimize_prompt plain_runtime rejecting
            (rule_based_enhancement (py "ok")) None initial_world)
     = rule_based_enhancement (py "ok").
Proof.
  split; [reflexivity|].
  apply (enhanced_prompt_is_accepted plain_runtime rejecting (py "ok") None
           initial_world eq_refl).
Defined.

(** ** What a call does and does not do *)

Lemma status_logged_app (a b : list event) :
  status_logged a -> status_logged b -> status_logged (a ++ b).
Proof.
  assert (H : forall n a, length a <= n ->
                status_logged a -> status_logged b -> status_logged (a ++ b)).
  { induction n as [|n IH]; intros x Hn Ha Hb.
    - destruct x; [exact Hb | simpl in Hn; lia].
    - destruct x as [|e t]; [exact Hb|].
      destruct e; cbn [app status_logged] in *;
        try (apply IH; [simpl in Hn; lia | exact Ha | exact Hb]).
      destruct t as [|e' t']; [contradiction|].
      destruct e'; try contradiction. destruct l; try contradiction.
      destruct Ha as [Hm Ht]. cbn [app]. split; [exact Hm|].
      apply IH; [simpl in Hn; lia | exact Ht | exact Hb]. }
  apply (H (length a)). lia.
Qed.

Lemma last_status_app (a b : list event) (s0 : status) :
  last_status (a ++ b) s0 = last_status b (last_status a s0).
Proof. unfold last_status. apply fold_left_app. Qed.

Section Traced.

Context (P : event -> Prop).

Lemma traced_ret {A} (a : A) : traced P (ret a).
Proof.
  intros w. exists []. cbn. rewrite app_nil_r. repeat split. constructor.
Qed.

Lemma traced_bind {A B} (m : M A) (k : A -> M B) :
  traced P m -> (forall a, traced P (k a)) -> traced P (bind m k).
Proof.
  intros Hm Hk w. unfold bind. destruct (Hm w) as (d1 & E1 & F1 & L1 & S1).
  destruct (m w) as [a w1]. cbn [snd] in *.
  destruct (Hk a w1) as (d2 & E2 & F2 & L2 & S2).
  exists (d1 ++ d2). split; [rewrite E2, E1, app_assoc; reflexivity|].
  split; [apply Forall_app; split; assumption|].
  split; [apply status_logged_app; assumption|].
  rewrite S2, S1, last_status_app. reflexivity.
Qed.

Lemma traced_emit (e : event) :
  P e -> is_status_event e = false -> traced P (emit e).
Proof.
  intros He Hs w. exists [e]. cbn [emit snd events ai_status].
  split; [reflexivity|]. split; [constructor; [exact He | constructor]|].
  destruct e; try discriminate; repeat split.
Qed.

Lemma traced_emit_all (es : list event) :
  Forall P es -> forallb (fun e => negb (is_status_event e)) es = true ->
  traced P (emit_all es).
Proof.
  induction es as [|e es IH]; intros HP Hs; cbn [emit_all].
  - apply traced_ret.
  - inversion HP; subst. cbn [forallb] in Hs. apply andb_prop in Hs.
    destruct Hs as [He Hs]. apply Bool.negb_true_iff in He.
    apply traced_bind; [apply traced_emit; assumption|].
    intros _. apply IH; assumption.
Qed.

Lemma traced_set_ai_status (st : state) (message : pystr) :
  (forall s, P (EStatus s)) -> (forall l msg, P (ELog l msg)) ->
  traced P (set_ai_status st message).
Proof.
  intros Hs Hl w. rewrite set_ai_status_run. eexists. cbn [snd events ai_status].
  split; [reflexivity|].
  split; [repeat constructor; [apply Hs | apply Hl]|].
  split; [|reflexivity]. cbn. split; reflexivity.
Qed.

End Traced.

Section CallTrace.

Context (rt : runtime) (svc : service) (formatted : pystr)
        (api_key : option pystr).

Lemma ok_status (s : status) : generation_event formatted api_key (EStatus s).
Proof. exact I. Qed.

Lemma ok_log (l : level) (msg : pystr) : generation_event formatted api_key (ELog l msg).
Proof. exact I. Qed.

Lemma traced_logging (l : level) (msg : pystr) :
  traced (generation_event formatted api_key) (logging l msg).
Proof. apply traced_emit; [exact I | reflexivity]. Qed.

Lemma traced_status (st : state) (message : pystr) :
  traced (generation_event formatted api_key) (set_ai_status st message).
Proof. apply traced_set_ai_status; [apply ok_status | apply ok_log]. Qed.

Lemma records_are_logs (response : pystr) :
  Forall (generation_event formatted api_key) (fst (extract_json_run rt response))
  /\ forallb (fun e => negb (is_status_event e))
       (fst (extract_json_run rt response)) = true.
Proof.
  unfold extract_json_run.
  destruct (json_loads (clean response)); [split; [constructor | reflexivity]|].
  destruct (re_search_braces (clean response)) as [g|];
    [destruct (json_loads g)|];
    (split; [repeat constructor | reflexivity]).
Qed.

Lemma traced_use_reply (response : pystr) :
  traced (generation_event formatted api_key) (use_reply rt response).
Proof.
  unfold use_reply. destruct (records_are_logs response) as [HF HS].
  destruct (extract_json_run rt response) as [records parsed]. cbn [fst] in *.
  apply traced_bind; [apply traced_logging|]. intros _.
  apply traced_bind; [apply traced_emit_all; assumption|]. intros _.
  apply traced_bind; [apply traced_logging|]. intros _.
  destruct (negb (py_truthy parsed)).
  - apply traced_bind; [apply traced_status|]. intros _. apply traced_ret.
  - apply traced_bind; [apply traced_status|]. intros _.
    destruct (splice rt parsed); [apply traced_ret|].
    apply traced_bind; [apply traced_logging|]. intros _. apply traced_ret.
Qed.

Lemma traced_call_generate :
  traced (generation_event formatted api_key) (call_generate svc formatted).
Proof.
  intros w. exists [EGenerate formatted]. cbn [call_generate snd events ai_status].
  split; [reflexivity|]. split; [repeat constructor|]. split; [exact I | reflexivity].
Qed.

Lemma traced_try_block :
  traced (generation_event formatted api_key) (try_block rt svc formatted).
Proof.
  unfold try_block.
  apply traced_bind; [apply traced_status|]. intros _.
  apply traced_bind; [apply traced_call_generate|]. intros [e|response].
  - apply traced_ret.
  - apply traced_use_reply.
Qed.

Lemma traced_except_clause (e : exn) :
  traced (generation_event formatted api_key) (except_clause e).
Proof.
  unfold except_clause. destruct (is_request_exception e);
    (apply traced_bind; [apply traced_status|]; intros _; apply traced_logging).
Qed.

Lemma traced_retry_loop (remaining : nat) :
  forall attempt last_exception,
  traced (generation_event formatted api_key) (retry_loop rt svc formatted remaining attempt last_exception).
Proof.
  induction remaining as [|k IH]; intros attempt last_exception;
    cbn [retry_loop].
  - apply traced_bind; [apply traced_status|]. intros _. apply traced_ret.
  - apply traced_bind; [apply traced_try_block|]. intros [doc|e].
    + apply traced_ret.
    + apply traced_bind; [apply traced_except_clause|]. intros _.
      apply traced_bind; [apply traced_emit; [exact I | reflexivity]|].
      intros _. apply IH.
Qed.

End CallTrace.

Lemma traced_generate_code (rt : runtime) (svc : service) (prompt : pystr)
    (api_key model_source : option pystr) (retries : Z) :
  traced (generation_event (format_prompt prompt) api_key)
    (generate_code_from_prompt rt svc prompt api_key model_source retries).
Proof.
  unfold generate_code_from_prompt.
  apply traced_bind; [apply traced_status|]. intros _.
  apply traced_bind.
  - unfold configure_and_load. apply traced_bind.
    + apply traced_emit; [reflexivity | reflexivity].
    + intros _. apply traced_ret.
  - intros [e|].
    + apply traced_bind; [apply traced_status|]. intros _.
      apply traced_bind; [apply traced_logging|]. intros _. apply traced_ret.
    + apply traced_retry_loop.
Qed.

(** X16.  Whatever the service does, every completion call of one call of
    [generate_code_from_prompt] carries the same instruction, the one made
    from the caller's prompt, retries included; the client is initialised
    with the caller's credential; and nothing is printed. *)
Theorem every_attempt_sends_the_same_instruction (rt : runtime) (svc : service)
    (prompt : pystr) (api_key model_source : option pystr) (retries : Z)
    (w : world) :
  let run := generate_code_from_prompt rt svc prompt api_key model_source retries in
  (forall p, In (EGenerate p) (effects run w) -> p = format_prompt prompt)
  /\ (forall k, In (EInit k) (effects run w) -> k = api_key)
  /\ (forall msg, ~ In (EPrint msg) (effects run w)).
Proof.
  intros run.
  destruct (traced_generate_code rt svc prompt api_key model_source retries w)
    as (d & E & F & _).
  fold run in E. rewrite (@effects_of_append _ run w d E).
  rewrite Forall_forall in F.
  repeat split; intros x Hx; apply (F _ Hx).
Qed.

Lemma every_attempt_sends_the_same_instruction_witness :
  In (EGenerate (format_prompt (py "a clock")))
     (effects (generate_code_from_prompt plain_runtime
                 (always (Raises timeout_error)) (py "a clock") None None 0)
              initial_world)
  /\ format_prompt (py "a clock") = format_prompt (py "a clock").
Proof.
  assert (H : In (EGenerate (format_prompt (py "a clock")))
                (effects (generate_code_from_prompt plain_runtime
                            (always (Raises timeout_error)) (py "a clock")
                            None None 0) initial_world)).
  { vm_compute. do 5 right. left. reflexivity. }
  split; [exact H|].
  apply (proj1 (every_attempt_sends_the_same_instruction plain_runtime
                  (always (Raises timeout_error)) (py "a clock") None None 0
                  initial_world) _ H).
Defined.

(** X17.  During a call of [generate_code_from_prompt] every write of the
    status is followed at once by the INFO record of [set_ai_status] for
    that very status, and the status a reader finds after the call is the
    last one the call wrote. *)
Theorem status_is_logged_and_current (rt : runtime) (svc : service)
    (prompt : pystr) (api_key model_source : option pystr) (retries : Z)
    (w : world) :
  let run := generate_code_from_prompt rt svc prompt api_key model_source retries in
  status_logged (effects run w)
  /\ ai_status (snd (run w)) = last_status (effects run w) (ai_status w)
  /\ exists s, In (EStatus s) (effects run w)
               /\ ai_status (snd (run w)) = s.
Proof.
  intros run.
  destruct (traced_generate_code rt svc prompt api_key model_source retries w)
    as (d & E & _ & L & S).
  fold run in E, S. rewrite (@effects_of_append _ run w d E).
  split; [exact L|]. split; [exact S|].
  assert (Hne : status_writes d <> []).
  { pose proof (generate_code_run rt svc prompt api_key model_source retries w) as G.
    cbv zeta in G. fold run in G. rewrite (@effects_of_append _ run w d E) in G.
    rewrite status_writes_timeline.
    destruct (init_client svc api_key).
    - destruct G as (_ & _ & _ & T). rewrite T. discriminate.
    - destruct (loop_summary rt svc (format_prompt prompt) (Z.to_nat (retries + 1))
                  0 None (calls w)) as [[doc st] ms].
      destruct G as (_ & _ & _ & T). rewrite T. discriminate. }
  rewrite S. clear - Hne. revert Hne. generalize (ai_status w) as s0.
  induction d as [|e d IH] using rev_ind; intros s0 Hne;
    [elim Hne; reflexivity|].
  rewrite last_status_app. cbn [last_status fold_left].
  destruct e;
    try (unfold status_writes in Hne; rewrite flat_map_app in Hne;
         cbn [flat_map] in Hne; rewrite app_nil_r in Hne;
         destruct (IH s0 Hne) as (s1 & Hin & Hs1);
         exists s1; split; [apply in_or_app; left; exact Hin | exact Hs1]).
  exists s. split; [apply in_or_app; right; left; reflexivity | reflexivity].
Qed.

(** ** The fallback of [optimize_prompt] *)

(** X18.  For a prompt that is not returned as it is, [optimize_prompt]
    falls back on [rule_based_enhancement] whenever the service gives
    nothing to use: the client cannot be initialised, the completion call
    raises, or the reply is blank.  An exception is printed and logged as
    an ERROR with its text and no completion call is made after a failed
    initialisation; a blank reply is printed but not logged. *)
Theorem optimize_prompt_falls_back (rt : runtime) (svc : service)
    (prompt : pystr) (api_key : option pystr) (w : world) :
  (20 <=? length (strip prompt)) && negb (is_generic rt prompt) = false ->
  let run := optimize_prompt rt svc prompt api_key in
  let called := EPrint (py "[optimize_prompt] Called with: " ++ prompt) in
  let failed e :=
    [EPrint (py "[optimize_prompt] Exception: " ++ exn_text e);
     ELog ERROR (py "LLM optimization failed: " ++ exn_text e)] in
  (forall e, init_client svc api_key = Some e ->
     fst (run w) = rule_based_enhancement prompt
     /\ effects run w = [called; EInit api_key] ++ failed e)
  /\ (forall e, init_client svc api_key = None ->
        generate_content svc (calls w) (rewrite_prompt prompt) = Raises e ->
        fst (run w) = rule_based_enhancement prompt
        /\ effects run w
           = [called; EInit api_key; EGenerate (rewrite_prompt prompt)]
             ++ failed e)
  /\ (forall response, init_client svc api_key = None ->
        generate_content svc (calls w) (rewrite_prompt prompt) = Text response ->
        strip response = [] ->
        fst (run w) = rule_based_enhancement prompt
        /\ effects run w
           = [called; EInit api_key; EGenerate (rewrite_prompt prompt);
              EPrint (py "[optimize_prompt] Empty response, fallback to rule-based enhancement")]).
Proof.
  intros Hs run called failed.
  assert (U : forall doc d,
            run w = (doc, {| ai_status := ai_status w;
                             calls := calls (snd (run w));
                             events := events w ++ d |}) ->
            fst (run w) = doc /\ effects run w = d).
  { intros doc d E. split; [rewrite E; reflexivity|].
    apply effects_of_append. rewrite E. reflexivity. }
  assert (R : run w =
              (let w1 := {| ai_status := ai_status w; calls := calls w;
                            events := (events w ++ [called]) ++ [EInit api_key] |} in
               match init_client svc api_key with
               | Some e => optimize_fallback prompt e w1
               | None =>
                   let w2 := {| ai_status := ai_status w; calls := S (calls w);
                                events := events w1
                                          ++ [EGenerate (rewrite_prompt prompt)] |} in
                   match generate_content svc (calls w) (rewrite_prompt prompt) with
                   | Raises e => optimize_fallback prompt e w2
                   | Text response =>
                       match strip response with
                       | [] =>
                           (print (py "[optimize_prompt] Empty response, fallback to rule-based enhancement") ;;
                            ret (rule_based_enhancement prompt)) w2
                       | _ :: _ => (strip response, w2)
                       end
                   end
               end)).
  { subst run called. unfold optimize_prompt.
    unfold bind at 1. unfold print at 1, emit at 1. rewrite Hs.
    unfold bind at 1. unfold configure_and_load, bind at 1, emit at 1, ret at 1.
    cbn [ai_status calls events].
    destruct (init_client svc api_key); [reflexivity|].
    unfold bind at 1. unfold call_generate. cbn [ai_status calls events].
    destruct (generate_content svc (calls w) (rewrite_prompt prompt));
      [reflexivity|].
    destruct (strip response); reflexivity. }
  cbv zeta in R. split; [|split].
  - intros e Hi. rewrite Hi in R. apply U. rewrite R.
    unfold optimize_fallback, bind, print, logging, emit, ret.
    cbn [ai_status calls events snd]. rewrite <- !app_assoc. reflexivity.
  - intros e Hi Hg. rewrite Hi, Hg in R. apply U. rewrite R.
    unfold optimize_fallback, bind, print, logging, emit, ret.
    cbn [ai_status calls events snd]. rewrite <- !app_assoc. reflexivity.
  - intros response Hi Hg Hb. rewrite Hi, Hg, Hb in R. apply U. rewrite R.
    unfold bind, print, emit, ret.
    cbn [ai_status calls events snd]. rewrite <- !app_assoc. reflexivity.
Qed.

Lemma optimize_prompt_falls_back_witness :
  (20 <=? length (strip (py "ok"))) && negb (is_generic plain_runtime (py "ok"))
  = false
  /\ init_client rejecting None = Some quota_error
  /\ fst (optimize_prompt plain_runtime rejecting (py "ok") None initial_world)
     = rule_based_enhancement (py "ok").
Proof.
  split; [reflexivity|]. split; [reflexivity|].
  apply (proj1 (optimize_prompt_falls_back plain_runtime rejecting (py "ok")
                  None initial_world eq_refl) quota_error).
  reflexivity.
Defined.

(** ** Two objects in one reply *)

(** An object is read up to its closing brace, whatever follows. *)
Lemma object_reads_locally (n : nat) (t : pystr) (v : json) (r : pystr) :
  scan_once n (ord "{" :: t) = Ok v r ->
  exists core,
    ord "{" :: t = core ++ r /\ ends_clean core
    /\ forall r', scan_once n (core ++ r') = Ok v r'.
Proof.
  destruct n as [|n]; [discriminate|]. rewrite scan_once_eq.
  replace (ord "{" =? dq)%N with false by reflexivity.
  replace (is_ch "{" (ord "{")) with true by reflexivity.
  destruct (skip_ws t) as [|q r0] eqn:E0; [discriminate|].
  destruct (skip_ws_local _ E0) as (a & -> & Ha & Hq & B0).
  destruct (is_ch "}" q) eqn:Eb.
  - intros H. injection H as <- <-.
    exists (ord "{" :: a ++ [q]). split; [norm_app; reflexivity|]. split.
    + apply (ends_clean_last (ord "{" :: a)). chars.
    + intros r'. norm_app. rewrite scan_once_eq.
      replace (ord "{" =? dq)%N with false by reflexivity.
      replace (is_ch "{" (ord "{")) with true by reflexivity.
      rewrite B0, Eb. reflexivity.
  - destruct (q =? dq)%N eqn:Eqq; [|discriminate]. intros H.
    destruct (proj1 (proj2 (decoder_local n)) _ _ _ _ H) as (core & -> & Hc & B).
    exists (ord "{" :: a ++ q :: core). split; [norm_app; reflexivity|]. split.
    + apply (ends_clean_app (ord "{" :: a ++ [q])) in Hc.
      revert Hc. norm_app. auto.
    + intros r'. norm_app. rewrite scan_once_eq.
      replace (ord "{" =? dq)%N with false by reflexivity.
      replace (is_ch "{" (ord "{")) with true by reflexivity.
      rewrite B0, Eb, Eqq. apply B. reflexivity.
Qed.

(** A JSON object followed by anything but white space is no JSON
    document. *)
Lemma object_then_more (m rest : pystr) (v : json) :
  json_loads (braced m) = Some v -> skip_ws rest <> [] ->
  json_loads (braced m ++ rest) = None.
Proof.
  unfold json_loads. intros H Hrest.
  change (skip_ws (braced m)) with (braced m) in H.
  change (skip_ws (braced m ++ rest)) with (braced m ++ rest).
  destruct (scan_once (fuel_for (braced m)) (braced m)) as [v1 r| |] eqn:E;
    try discriminate.
  destruct (skip_ws r) eqn:Er; [|discriminate]. injection H as ->.
  unfold braced in E.
  destruct (object_reads_locally _ _ E) as (core & Hs & _ & B).
  assert (Hr : r = []).
  { apply skip_ws_nil in Er. destruct r as [|x r'] using rev_ind; [reflexivity|].
    rewrite app_assoc, app_comm_cons in Hs. apply app_inj_tail in Hs.
    destruct Hs as [_ <-]. rewrite forallb_app in Er.
    apply andb_prop in Er. destruct Er as [_ Er]. discriminate. }
  subst r. rewrite app_nil_r in Hs. subst core.
  specialize (B rest). fold (braced m) in B.
  rewrite (proj1 (decoder_fuel (fuel_for (braced m)))
             (fuel_for (braced m ++ rest)) (braced m ++ rest));
    [rewrite B | | rewrite B; discriminate].
  - destruct (skip_ws rest); [congruence | reflexivity].
  - unfold fuel_for. rewrite length_app. lia.
Qed.

Lemma two_objects_span (rt : runtime) (response pre m1 mid m2 post : pystr)
    (v : json) :
  clean response = pre ++ braced m1 ++ mid ++ braced m2 ++ post ->
  no_char "{" pre = true -> no_char "}" post = true ->
  json_loads (clean response) = None ->
  json_loads (braced m1) = Some v ->
  extract_json rt response = JNull.
Proof.
  intros Hc Hpre Hpost Hn Hv.
  assert (Hc' : clean response
                = pre ++ braced (m1 ++ ord "}" :: mid ++ ord "{" :: m2) ++ post).
  { rewrite Hc. unfold braced. norm_app. reflexivity. }
  unfold extract_json, extract_json_run.
  rewrite Hn, Hc', re_search_braces_span by assumption.
  replace (braced (m1 ++ ord "}" :: mid ++ ord "{" :: m2))
    with (braced m1 ++ mid ++ braced m2) by (unfold braced; norm_app; reflexivity).
  rewrite (@object_then_more m1 (mid ++ braced m2) v Hv); [reflexivity|].
  intros E. apply skip_ws_nil in E. unfold braced in E.
  rewrite forallb_app in E. apply andb_prop in E. destruct E as [_ E].
  discriminate.
Qed.

(** X19.  The span the fallback takes runs from the first opening brace to
    the last closing brace of the reply.  So when a reply that strict
    parsing rejects holds two objects, the first of them a JSON document,
    nothing is recovered: [extract_json] returns [None]. *)
Theorem two_objects_give_none (rt : runtime)
    (response pre m1 mid m2 post : pystr) (v : json) :
  clean response = pre ++ braced m1 ++ mid ++ braced m2 ++ post ->
  no_char "{" pre = true -> no_char "}" post = true ->
  json_loads (clean response) = None ->
  json_loads (braced m1) = Some v ->
  extract_json rt response = JNull.
Proof. apply two_objects_span. Qed.

Lemma two_objects_give_none_witness :
  json_loads (braced (member "a" "1")) = Some (JDict [(py "a", JStr (py "1"))])
  /\ extract_json plain_runtime twin_reply = JNull.
Proof.
  split; [vm_compute; reflexivity|].
  apply (@two_objects_give_none plain_runtime twin_reply [] (member "a" "1")
           (py " and ") (member "b" "2") []
           (JDict [(py "a", JStr (py "1"))]));
    vm_compute; reflexivity.
Defined.


(* ------------------------------------------------------------------ *)
(** * Values that are no objects *)
(* ------------------------------------------------------------------ *)

(** ** The decoder reads every JSON text *)












Lemma not_digit_head_app (x y : pystr) (c : N) (t : pystr) :
  x = c :: t -> is_digit c = false -> not_digit_head (x ++ y) = true.
Proof. intros -> H. cbn. rewrite H. reflexivity. Qed.
























(** ** A value does not end with a backtick *)











(** ** What the cleaning leaves of a JSON text *)










